(** * Electricity balance monitor (AstrBot plugin): a shallow embedding

    The development follows [main.py]: the value model of the Python data
    that flows through the plugin ([Py]), the list helpers of the
    subscription store ([Listing], [Subscription]), the balance client
    ([Client], [Session]), one iteration of the monitor loop ([Monitor]),
    the process-wide registration of the loop task ([Singleton]), the
    command handlers ([Commands]), the card builder ([CqCard]) and the
    client of a new plugin object ([Startup]).  The
    properties follow the model, one module of facts per part, with a
    small concrete world ([Scenario]) in which the plugin is run.

    Modelling conventions.
    - A Python [str] is a [string] holding its UTF-8 encoding.  Substring
      tests, comma splitting and whitespace stripping on code points
      coincide with the same operations on the UTF-8 bytes of well-formed
      text.  String literals are taken byte for byte from the source file.
    - A Python [int] is a [Z].  A Python [float] is a rational [Q]:
      arithmetic and comparisons are exact, there is no NaN, infinity or
      rounding.
    - A [dict] decoded from JSON is an association list read by first
      match; the configuration object is a [gmap] from keys to values.
    - Code that can raise returns a [result]; [try]/[except] is a match on
      it.  Effects (HTTP, clock, sleeping, message delivery, saving the
      configuration) are threaded through an explicit state.
    - Tasks are scheduled cooperatively: what runs between two [await]s
      is one atomic step, and other tasks act only while one is suspended.
      Logging is left out. *)

From Stdlib Require Import ZArith QArith String Ascii List Bool Lia Lqa.
From stdpp Require Import base gmap strings list.

Set Implicit Arguments.
Set Warnings "-register-all".

(* ===================================================================== *)
(** ** Python values, exceptions and builtins                            *)
(* ===================================================================== *)

Module Py.

(** Values that JSON decoding and the configuration file can produce. *)
Inductive pyval : Type :=
| PNone
| PBool (b : bool)
| PInt (z : Z)
| PFloat (q : Q)
| PStr (s : string)
| PList (l : list pyval)
| PDict (d : list (string * pyval)).

(** Exception classes that occur in the plugin.  [JSONDecodeError] is a
    subclass of [ValueError]; all of them are subclasses of [Exception]. *)
Inductive exn_class : Type :=
| RuntimeError | AttributeError | TypeError | ValueError
| JSONDecodeError | ClientError | OtherError.

Record exn : Type := Exn { exn_cls : exn_class; exn_msg : string }.

(** [str(exc)] *)
Definition str_of_exn (e : exn) : string := exn_msg e.

Definition exn_class_eqb (a b : exn_class) : bool :=
  match a, b with
  | RuntimeError, RuntimeError | AttributeError, AttributeError
  | TypeError, TypeError | ValueError, ValueError
  | JSONDecodeError, JSONDecodeError | ClientError, ClientError
  | OtherError, OtherError => true
  | _, _ => false
  end.

(** [isinstance(e, cls)] for the classes above. *)
Definition isinstance_exn (e : exn) (cls : exn_class) : bool :=
  exn_class_eqb (exn_cls e) cls
  || (exn_class_eqb (exn_cls e) JSONDecodeError && exn_class_eqb cls ValueError).

Inductive result (A : Type) : Type :=
| Ok (a : A)
| Raise (e : exn).
Arguments Ok {A} a.
Arguments Raise {A} e.

Definition rbind {A B} (r : result A) (k : A -> result B) : result B :=
  match r with
  | Ok a => k a
  | Raise e => Raise e
  end.

Notation "x <-? r ; k" := (rbind r (fun x => k))
  (at level 100, r at next level, right associativity).

(** *** Truthiness and comparison with an [int] literal *)

Definition truthy (v : pyval) : bool :=
  match v with
  | PNone => false
  | PBool b => b
  | PInt z => negb (z =? 0)%Z
  | PFloat q => negb (Qeq_bool q 0)
  | PStr s => negb (String.eqb s "")
  | PList l => match l with [] => false | _ => true end
  | PDict d => match d with [] => false | _ => true end
  end.

(** [v == n] for an [int] literal [n]: numbers compare by value
    ([True == 1], [1.0 == 1]); every other type is unequal to a number. *)
Definition eq_int (v : pyval) (n : Z) : bool :=
  match v with
  | PInt z => (z =? n)%Z
  | PBool b => ((if b then 1 else 0) =? n)%Z
  | PFloat q => Qeq_bool q (inject_Z n)
  | _ => false
  end.

Definition is_none (v : pyval) : bool :=
  match v with PNone => true | _ => false end.

Definition type_name (v : pyval) : string :=
  match v with
  | PNone => "NoneType"
  | PBool _ => "bool"
  | PInt _ => "int"
  | PFloat _ => "float"
  | PStr _ => "str"
  | PList _ => "list"
  | PDict _ => "dict"
  end.

(** *** [dict.get] *)

Fixpoint assoc (k : string) (d : list (string * pyval)) : option pyval :=
  match d with
  | [] => None
  | (k', v) :: d' => if String.eqb k k' then Some v else assoc k d'
  end.

Definition no_attribute (v : pyval) (attr : string) : exn :=
  Exn AttributeError
      ("'" +:+ type_name v +:+ "' object has no attribute '" +:+ attr +:+ "'").

(** [v.get(k, dflt)]: only a [dict] has the method. *)
Definition get (v : pyval) (k : string) (dflt : pyval) : result pyval :=
  match v with
  | PDict d => Ok (default dflt (assoc k d))
  | _ => Raise (no_attribute v "get")
  end.

(** *** Substring test: [k in m] on [str] *)

Fixpoint starts_with (k m : string) : bool :=
  match k, m with
  | EmptyString, _ => true
  | String a k', String b m' => Ascii.eqb a b && starts_with k' m'
  | String _ _, EmptyString => false
  end.

Fixpoint contains (k m : string) : bool :=
  starts_with k m
  || match m with
     | EmptyString => false
     | String _ m' => contains k m'
     end.

(** *** [str.strip()] and [str.split(",")] *)

Definition byte (a : ascii) : N := N_of_ascii a.

(** Whitespace code points in their UTF-8 encodings:
    U+0009..000D, U+001C..001F, U+0020;  U+0085, U+00A0;
    U+1680, U+2000..200A, U+2028, U+2029, U+202F, U+205F, U+3000. *)
Definition ws1 (a : ascii) : bool :=
  let x := byte a in
  ((9 <=? x) && (x <=? 13) || (28 <=? x) && (x <=? 32))%N.

Definition ws2 (a b : ascii) : bool :=
  let x := byte a in let y := byte b in
  ((x =? 194) && ((y =? 133) || (y =? 160)))%N.

Definition ws3 (a b c : ascii) : bool :=
  let x := byte a in let y := byte b in let z := byte c in
  ((x =? 225) && (y =? 154) && (z =? 128)
   || (x =? 226) && (y =? 128)
      && ((128 <=? z) && (z <=? 138) || (z =? 168) || (z =? 169) || (z =? 175))
   || (x =? 226) && (y =? 129) && (z =? 159)
   || (x =? 227) && (y =? 128) && (z =? 128))%N.

(** The whole string is a sequence of whitespace code points. *)
Fixpoint all_ws (s : string) : bool :=
  match s with
  | EmptyString => true
  | String a s1 =>
      if ws1 a then all_ws s1
      else match s1 with
           | String b s2 =>
               if ws2 a b then all_ws s2
               else match s2 with
                    | String c s3 => ws3 a b c && all_ws s3
                    | EmptyString => false
                    end
           | EmptyString => false
           end
  end.

Fixpoint lstrip (s : string) : string :=
  match s with
  | EmptyString => EmptyString
  | String a s1 =>
      if ws1 a then lstrip s1
      else match s1 with
           | String b s2 =>
               if ws2 a b then lstrip s2
               else match s2 with
                    | String c s3 => if ws3 a b c then lstrip s3 else s
                    | EmptyString => s
                    end
           | EmptyString => s
           end
  end.

Fixpoint rstrip (s : string) : string :=
  match s with
  | EmptyString => EmptyString
  | String a s1 => if all_ws s then EmptyString else String a (rstrip s1)
  end.

Definition strip (s : string) : string := rstrip (lstrip s).

(** [s.split(",")]: never empty, [""] splits to [[""]]. *)
Fixpoint split_comma (s : string) : list string :=
  match s with
  | EmptyString => [EmptyString]
  | String a s1 =>
      let r := split_comma s1 in
      if Ascii.eqb a "," then EmptyString :: r
      else match r with
           | h :: t => String a h :: t
           | [] => [String a EmptyString]
           end
  end.

(** *** Numeric conversions

    [float(str)] and [int(str)] are builtins of the language; they are
    parameters: [None] stands for the [ValueError] they raise. *)

Definition Qltb (a b : Q) : bool := negb (Qle_bool b a).

Definition Qtruncate (q : Q) : Z := Z.quot (Qnum q) (Zpos (Qden q)).

Definition to_float (float_of_str : string -> option Q) (v : pyval) : result Q :=
  match v with
  | PInt z => Ok (inject_Z z)
  | PFloat q => Ok q
  | PBool b => Ok (if b then 1 else 0)%Q
  | PStr s =>
      match float_of_str s with
      | Some q => Ok q
      | None => Raise (Exn ValueError ("could not convert string to float: " +:+ s))
      end
  | _ => Raise (Exn TypeError
                 ("float() argument must be a string or a real number, not '"
                  +:+ type_name v +:+ "'"))
  end.

Definition to_int (int_of_str : string -> option Z) (v : pyval) : result Z :=
  match v with
  | PInt z => Ok z
  | PFloat q => Ok (Qtruncate q)
  | PBool b => Ok (if b then 1 else 0)%Z
  | PStr s =>
      match int_of_str s with
      | Some z => Ok z
      | None => Raise (Exn ValueError
                        ("invalid literal for int() with base 10: " +:+ s))
      end
  | _ => Raise (Exn TypeError
                 ("int() argument must be a string, a bytes-like object or a real number, not '"
                  +:+ type_name v +:+ "'"))
  end.

End Py.

Import Py.

(* ===================================================================== *)
(** ** The configuration object                                          *)
(* ===================================================================== *)

Module Config.

(** [AstrBotConfig] is a [dict] with a [save_config()] method: [mem] is
    the dictionary in memory, [disk] what the last save wrote. *)
Record store : Type := Store {
  mem : gmap string pyval;
  disk : gmap string pyval
}.

(** [config.get(key)] *)
Definition config_get (key : string) (c : store) : pyval :=
  default PNone (mem c !! key).

(** [config[key] = v] *)
Definition config_set (key : string) (v : pyval) (c : store) : store :=
  {| mem := <[key := v]> (mem c); disk := disk c |}.

(** [config.save_config()] *)
Definition save_config (c : store) : store :=
  {| mem := mem c; disk := mem c |}.

(** What a restart of the process would read back for [key]. *)
Definition persisted (key : string) (c : store) : pyval :=
  default PNone (disk c !! key).

(** [ElectricityMonitorPlugin._get_config] *)
Definition _get_config (key : string) (dflt : pyval) (c : store) : pyval :=
  let value := config_get key c in
  if is_none value then dflt else value.

End Config.

Import Config.

(* ===================================================================== *)
(** ** [_normalize_list] and [_dedupe_list]                              *)
(* ===================================================================== *)

Module Listing.

(** [a == b] on hashable values: [None], numbers (by value, across [bool],
    [int] and [float]) and [str].  Lists and dicts never reach a [set]:
    hashing them raises first. *)
Definition number_of (v : pyval) : option Q :=
  match v with
  | PBool b => Some (if b then 1 else 0)%Q
  | PInt z => Some (inject_Z z)
  | PFloat q => Some q
  | _ => None
  end.

Definition eq_scalar (a b : pyval) : bool :=
  match a, b with
  | PNone, PNone => true
  | PStr s, PStr t => String.eqb s t
  | _, _ =>
      match number_of a, number_of b with
      | Some x, Some y => Qeq_bool x y
      | _, _ => false
      end
  end.

Definition hashable (v : pyval) : bool :=
  match v with
  | PList _ | PDict _ => false
  | _ => true
  end.

Definition unhashable (v : pyval) : exn :=
  Exn TypeError ("unhashable type: '" +:+ type_name v +:+ "'").

(** The [for] loop of [_dedupe_list]: [seen] is the set, [acc] the result
    list built so far. *)
Fixpoint dedupe_loop (items seen acc : list pyval) : result (list pyval) :=
  match items with
  | [] => Ok acc
  | item :: rest =>
      if negb (hashable item) then Raise (unhashable item)
      else if existsb (eq_scalar item) seen then dedupe_loop rest seen acc
      else dedupe_loop rest (item :: seen) (acc ++ [item])
  end.

Definition _dedupe_list (items : list pyval) : result (list pyval) :=
  dedupe_loop items [] [].

Section Normalize.

(** [json.loads] on a [str]: the decoded value or the exception raised. *)
Variable json_loads : string -> result pyval.

Definition _normalize_list (value : pyval) : result (list pyval) :=
  match value with
  | PNone => Ok []
  | PList l => Ok l
  | PStr s =>
      parsed <-? (match json_loads s with
                  | Ok v => Ok v
                  | Raise e =>
                      if isinstance_exn e JSONDecodeError then Ok PNone
                      else Raise e
                  end);
      match parsed with
      | PList l => Ok l
      | _ =>
          if negb (String.eqb (strip s) "")
          then Ok (map (fun item => PStr (strip item))
                       (filter (fun item => negb (String.eqb (strip item) ""))
                               (split_comma s)))
          else Ok []
      end
  | _ => Ok []
  end.

End Normalize.

End Listing.

Import Listing.

(* ===================================================================== *)
(** ** [subscribe] and [unsubscribe]                                     *)
(* ===================================================================== *)

Module Subscription.

(** The text a handler yields, by case. *)
Inductive reply : Type :=
| AlreadySubscribed
| NowSubscribed
| WasNotSubscribed
| NowUnsubscribed.

(** [list.remove(x)]: drops the first element equal to [x]. *)
Fixpoint remove_first (x : pyval) (l : list pyval) : list pyval :=
  match l with
  | [] => []
  | y :: l' => if eq_scalar x y then l' else y :: remove_first x l'
  end.

(** [x in l] *)
Definition member (x : pyval) (l : list pyval) : bool :=
  existsb (eq_scalar x) l.

(** [_normalize_list] returns the stored list object itself when the stored
    value is a list, so [append] and [remove] on the result change the
    dictionary in memory before anything is written back. *)
Definition mutate_alias (stored : pyval) (now : list pyval) (c : store) : store :=
  match stored with
  | PList _ => {| mem := <["notify_origins" := PList now]> (mem c); disk := disk c |}
  | _ => c
  end.

(** [_set_notify_origins] *)
Definition _set_notify_origins (origins : list pyval) (c : store)
  : result unit * store :=
  match _dedupe_list origins with
  | Ok d => (Ok tt, save_config (config_set "notify_origins" (PList d) c))
  | Raise e => (Raise e, c)
  end.

Section Handlers.

Variable json_loads : string -> result pyval.

(** [_get_notify_origins] *)
Definition _get_notify_origins (c : store) : result (list pyval) :=
  _normalize_list json_loads (config_get "notify_origins" c).

Definition subscribe (origin : string) (c : store) : result reply * store :=
  match _get_notify_origins c with
  | Raise e => (Raise e, c)
  | Ok origins =>
      if member (PStr origin) origins then (Ok AlreadySubscribed, c)
      else
        let origins' := origins ++ [PStr origin] in
        let c1 := mutate_alias (config_get "notify_origins" c) origins' c in
        match _set_notify_origins origins' c1 with
        | (Ok _, c2) => (Ok NowSubscribed, c2)
        | (Raise e, c2) => (Raise e, c2)
        end
  end.

Definition unsubscribe (origin : string) (c : store) : result reply * store :=
  match _get_notify_origins c with
  | Raise e => (Raise e, c)
  | Ok origins =>
      if negb (member (PStr origin) origins) then (Ok WasNotSubscribed, c)
      else
        let origins' := remove_first (PStr origin) origins in
        let c1 := mutate_alias (config_get "notify_origins" c) origins' c in
        match _set_notify_origins origins' c1 with
        | (Ok _, c2) => (Ok NowUnsubscribed, c2)
        | (Raise e, c2) => (Raise e, c2)
        end
  end.

End Handlers.

End Subscription.

(* ===================================================================== *)
(** ** The environment of the plugin                                     *)
(* ===================================================================== *)

Module Env.

(** The two requests the client sends.  URL and headers are constants of
    the source; what varies is carried here. *)
Inductive request : Type :=
| LoginPost (account password : pyval)
| BalancePost (token : pyval).

(** [session.post(...)] followed by [raise_for_status()] and [json()]:
    either an exception (transport failure, error status, body that is not
    JSON) or the decoded body with the value of the [AppUserToken] response
    cookie, when the response carries one. *)
Inductive http_result : Type :=
| HttpFail (e : exn)
| HttpJson (body : pyval) (token_cookie : option string).

Inductive event : Type :=
| EvLogin (account password : pyval)
| EvFetch (token : pyval)
| EvSleep (secs : Q)
| EvSend (origin : pyval) (payload : string) (delivered : bool).

(** Everything outside the plugin: the remote service, the clock, the
    scheduler, the message transport, and the builtins of the language
    whose results are not modelled ([json.loads], [float(str)], [int(str)],
    [str()] of a value that is not a [str], text formatting).

    [stop_flag] is the [_stopped] attribute as the loop reads it: other
    tasks set it while the loop is suspended, so it is part of the world. *)
Record env : Type := {
  world : Type;
  http_post : request -> world -> http_result * world;
  time_time : world -> Q;
  sleep : Q -> world -> world;
  send_message : pyval -> string -> world -> option exn * world;
  stop_flag : world -> bool;
  json_loads : string -> result pyval;
  float_of_str : string -> option Q;
  int_of_str : string -> option Z;
  str_other : pyval -> string;
  format_low_balance : Q -> pyval -> pyval -> string;
  format_recharge : Q -> Q -> pyval -> pyval -> string;
  _to_cq_card : string -> string
}.

End Env.

Import Env.

(* ===================================================================== *)
(** ** [ElectricityClient]                                               *)
(* ===================================================================== *)

Module Client.

(** The literals of [keywords], as the source file has them. *)
Definition keywords : list string :=
  [ "ç™»å½•è¿‡æœŸ";
    "ç™»å½•å·²è¿‡æœŸ";
    "è¯·ç™»å½•";
    "è¯·å…ˆç™»å½•";
    "æœªç™»å½•";
    "è´¦å·è¿‡æœŸ";
    "tokenè¿‡æœŸ";
    "Tokenè¿‡æœŸ" ].

Definition _looks_like_login_expired (message : string) : bool :=
  existsb (fun keyword => contains keyword message) keywords.

(** The [dict] that [_parse_balance] returns. *)
Record snapshot : Type := Snapshot {
  room_name : pyval;
  device_name : pyval;
  balance : pyval;
  price : pyval;
  update_time : pyval;
  is_online : bool;
  switch_status : bool
}.

(** A UTF-8 continuation byte. *)
Definition is_cont (a : ascii) : bool :=
  ((128 <=? byte a) && (byte a <? 192))%N.

(** The characters of a [str], each as a [str]. *)
Fixpoint chars (s : string) : list string :=
  match s with
  | EmptyString => []
  | String a s1 =>
      match s1 with
      | String b _ =>
          if is_cont b
          then match chars s1 with
               | h :: t => String a h :: t
               | [] => [String a EmptyString]
               end
          else String a EmptyString :: chars s1
      | EmptyString => [String a EmptyString]
      end
  end.

(** The items a [for] statement draws from a value. *)
Definition iterate (v : pyval) : result (list pyval) :=
  match v with
  | PList l => Ok l
  | PStr s => Ok (map PStr (chars s))
  | PDict d => Ok (map (fun kv => PStr (fst kv)) d)
  | _ => Raise (Exn TypeError ("'" +:+ type_name v +:+ "' object is not iterable"))
  end.

Section Parse.

Variable E : env.

(** [f"{v}"] *)
Definition format_value (v : pyval) : string :=
  match v with
  | PStr s => s
  | _ => str_other E v
  end.

(** The [for device in devices_list] loop of [_parse_balance]. *)
Fixpoint find_meter (room : pyval) (devices : list pyval) : result snapshot :=
  match devices with
  | [] => Raise (Exn RuntimeError "no electricity meter device found")
  | device :: rest =>
      ty <-? get device "DeviceType" PNone;
      if eq_int ty 1 then
        name <-? get device "DeviceName" PNone;
        bal <-? get device "DeviceBalance" PNone;
        pr <-? get device "DevicePrice" PNone;
        upd <-? get device "UpdateTime" PNone;
        online <-? get device "IsOnline" PNone;
        switch <-? get device "SwitchStatus" PNone;
        Ok {| room_name := room; device_name := name; balance := bal;
              price := pr; update_time := upd;
              is_online := eq_int online 1;
              switch_status := eq_int switch 1 |}
      else find_meter room rest
  end.

Definition _parse_balance (data : pyval) : result snapshot :=
  tag <-? get data "Tag" PNone;
  if negb (eq_int tag 1) then
    msg <-? get data "Message" PNone;
    Raise (Exn RuntimeError ("api error: " +:+ format_value msg))
  else
    d1 <-? get data "Data" (PDict []);
    devices_list <-? get d1 "DevicesList" (PList []);
    d2 <-? get data "Data" (PDict []);
    room <-? get d2 "RoomName" (PStr "unknown");
    if negb (truthy devices_list) then
      Raise (Exn RuntimeError "no bound devices found")
    else
      devices <-? iterate devices_list;
      find_meter room devices.

End Parse.

Section Operations.

Variable E : env.

(** The client object ([token], [account], [password], whether
    [_session] is open), the configuration it shares with the plugin, the
    world, and the requests and deliveries made so far. *)
Record state : Type := State {
  token : pyval;
  account : pyval;
  password : pyval;
  session_open : bool;
  conf : store;
  now_world : world E;
  trace : list event
}.

Definition M (A : Type) : Type := state -> result A * state.

Definition ret {A} (a : A) : M A := fun s => (Ok a, s).

Definition raise {A} (e : exn) : M A := fun s => (Raise e, s).

Definition bind {A B} (m : M A) (k : A -> M B) : M B :=
  fun s =>
    match m s with
    | (Ok a, s1) => k a s1
    | (Raise e, s1) => (Raise e, s1)
    end.

Definition lift {A} (r : result A) : M A := fun s => (r, s).

Definition with_world (w : world E) (ev : list event) (s : state) : state :=
  {| token := token s; account := account s; password := password s;
     session_open := session_open s; conf := conf s;
     now_world := w; trace := trace s ++ ev |}.

Definition with_conf (c : store) (s : state) : state :=
  {| token := token s; account := account s; password := password s;
     session_open := session_open s; conf := c;
     now_world := now_world s; trace := trace s |}.

Definition with_token (t : pyval) (s : state) : state :=
  {| token := t; account := account s; password := password s;
     session_open := session_open s; conf := conf s;
     now_world := now_world s; trace := trace s |}.

(** [_ensure_session] *)
Definition _ensure_session (s : state) : state :=
  {| token := token s; account := account s; password := password s;
     session_open := true; conf := conf s;
     now_world := now_world s; trace := trace s |}.

Definition login_and_get_token : M string :=
  fun s =>
    if negb (truthy (account s)) || negb (truthy (password s)) then
      (Raise (Exn RuntimeError "missing account/password for token refresh"), s)
    else
      let s1 := _ensure_session s in
      let (resp, w) := http_post E (LoginPost (account s1) (password s1))
                                 (now_world s1) in
      let s2 := with_world w [EvLogin (account s1) (password s1)] s1 in
      match resp with
      | HttpFail e => (Raise e, s2)
      | HttpJson body cookie =>
          match get body "Tag" PNone with
          | Raise e => (Raise e, s2)
          | Ok tag =>
              if negb (eq_int tag 1) then
                match get body "Message" (PStr "unknown error") with
                | Raise e => (Raise e, s2)
                | Ok msg =>
                    (Raise (Exn RuntimeError
                              ("login failed: " +:+ format_value E msg)), s2)
                end
              else
                match cookie with
                | None =>
                    (Raise (Exn RuntimeError
                              "login succeeded but token missing"), s2)
                | Some tok =>
                    let s3 := with_token (PStr tok) s2 in
                    (Ok tok,
                     with_conf
                       (save_config
                          (config_set "electricity_token" (PStr tok) (conf s3)))
                       s3)
                end
          end
      end.

Definition _request_balance : M pyval :=
  fun s =>
    if negb (truthy (token s)) then
      (Raise (Exn RuntimeError "missing electricity_token"), s)
    else
      let s1 := _ensure_session s in
      let (resp, w) := http_post E (BalancePost (token s1)) (now_world s1) in
      let s2 := with_world w [EvFetch (token s1)] s1 in
      match resp with
      | HttpFail e => (Raise e, s2)
      | HttpJson body _ => (Ok body, s2)
      end.

(** The body of the [try] in [get_balance]. *)
Definition first_attempt (auto_retry : bool) : M snapshot :=
  fun s =>
    bind (if auto_retry && negb (truthy (token s))
             && truthy (account s) && truthy (password s)
          then bind login_and_get_token (fun _ => ret tt)
          else ret tt)
         (fun _ =>
            bind _request_balance (fun data => lift (_parse_balance E data)))
         s.

(** The statements of the [except] branch once its condition holds. *)
Definition relogin_and_retry : M snapshot :=
  bind login_and_get_token (fun _ =>
  bind _request_balance (fun data =>
  lift (_parse_balance E data))).

Definition get_balance (auto_retry : bool) : M snapshot :=
  fun s =>
    match first_attempt auto_retry s with
    | (Ok info, s1) => (Ok info, s1)
    | (Raise exc, s1) =>
        if auto_retry && truthy (account s1) && truthy (password s1)
           && _looks_like_login_expired (str_of_exn exc)
        then relogin_and_retry s1
        else (Raise exc, s1)
    end.

End Operations.

End Client.

(* ===================================================================== *)
(** ** [ElectricityMonitorPlugin._monitor_loop]                          *)
(* ===================================================================== *)

Module Monitor.

Import Client.

(** Which path an iteration of the [while] loop took. *)
Inductive outcome : Type :=
| Waited (secs : Q)      (* slept the remaining time, then [continue] *)
| Idle                   (* checks disabled or nobody subscribed *)
| Checked (bal : Q)      (* the [try] block ran to its end *)
| CheckFailed (e : exn)  (* the [except] branch ran *)
| Crashed (e : exn).     (* an exception left the loop: the task ends *)

Section Loop.

Variable E : env.

Definition delivered (r : option exn) : bool :=
  match r with None => true | Some _ => false end.

(** [_send_to_origins]: an exception of one delivery is logged, the loop
    over the destinations goes on. *)
Fixpoint _send_to_origins (origins : list pyval) (text : string)
         (use_card : bool) (s : state E) : state E :=
  match origins with
  | [] => s
  | origin :: rest =>
      let payload :=
        if use_card && truthy (_get_config "use_onebot11_card" (PBool true) (conf s))
        then _to_cq_card E text else text in
      let (r, w) := send_message E origin payload (now_world s) in
      _send_to_origins rest text use_card
        (with_world w [EvSend origin payload (delivered r)] s)
  end.

Definition threshold_of (c : store) : pyval :=
  _get_config "threshold" (PFloat (30 # 1)) c.

(** The body of the [try] in the loop; it returns [balance]. *)
Definition check_body (origins : list pyval) (now : Q) : M E Q :=
  fun s =>
    match get_balance
            (truthy (_get_config "auto_refresh_token" (PBool true) (conf s))) s
    with
    | (Raise e, s1) => (Raise e, s1)
    | (Ok info, s1) =>
        match to_float (float_of_str E) (balance info) with
        | Raise e => (Raise e, s1)
        | Ok bal =>
            match to_float (float_of_str E) (threshold_of (conf s1)) with
            | Raise e => (Raise e, s1)
            | Ok threshold =>
                let last_balance := _get_config "last_balance" PNone (conf s1) in
                let s2 :=
                  if Qltb bal threshold then
                    _send_to_origins origins
                      (format_low_balance E bal (update_time info)
                         (threshold_of (conf s1)))
                      true s1
                  else s1 in
                let finish (s3 : state E) : result Q * state E :=
                  (Ok bal,
                   with_conf
                     (save_config
                        (config_set "last_check_ts" (PFloat now)
                           (config_set "last_balance" (PFloat bal) (conf s3))))
                     s3) in
                if negb (is_none last_balance) then
                  match to_float (float_of_str E) last_balance with
                  | Raise e => (Raise e, s2)
                  | Ok last =>
                      if Qltb last bal then
                        finish
                          (_send_to_origins origins
                             (format_recharge E bal last (update_time info)
                                (_get_config "check_interval_minutes" (PInt 60)
                                   (conf s2)))
                             true s2)
                      else finish s2
                  end
                else finish s2
            end
        end
    end.

Definition failure_text (exc : exn) : string :=
  "ç”µè´¹è‡ªåŠ¨æ£€æŸ¥å¤±è´¥: " +:+ str_of_exn exc.

(** Lines 313 to 341: the check, when enabled and somebody is subscribed. *)
Definition check_stage (now : Q) (s : state E) : outcome * state E :=
  if truthy (_get_config "auto_check" (PBool true) (conf s)) then
    match _normalize_list (json_loads E) (config_get "notify_origins" (conf s)) with
    | Raise e => (Crashed e, s)
    | Ok origins =>
        if truthy (PList origins) then
          match check_body origins now s with
          | (Ok bal, s1) => (Checked bal, s1)
          | (Raise exc, s1) =>
              (CheckFailed exc,
               _send_to_origins origins (failure_text exc) false s1)
          end
        else (Idle, s)
    end
  else (Idle, s).

Definition do_sleep (secs : Q) (s : state E) : state E :=
  with_world (sleep E secs (now_world s)) [EvSleep secs] s.

(** The check followed by the sleep that ends the iteration. *)
Definition check_then_sleep (interval_minutes : Z) (now : Q) (s : state E)
  : outcome * state E :=
  match check_stage now s with
  | (Crashed e, s1) => (Crashed e, s1)
  | (o, s1) => (o, do_sleep (inject_Z (interval_minutes * 60)) s1)
  end.

(** [max(1, int(interval_minutes))], 60 on [TypeError] or [ValueError]. *)
Definition interval_minutes_of (c : store) : result Z :=
  match to_int (int_of_str E) (_get_config "check_interval_minutes" (PInt 60) c) with
  | Ok z => Ok (Z.max 1 z)
  | Raise e =>
      if isinstance_exn e TypeError || isinstance_exn e ValueError
      then Ok 60%Z else Raise e
  end.

(** One pass through the body of [while not self._stopped]. *)
Definition monitor_iteration (s : state E) : outcome * state E :=
  match interval_minutes_of (conf s) with
  | Raise e => (Crashed e, s)
  | Ok interval_minutes =>
      let interval_seconds := (interval_minutes * 60)%Z in
      let last_check_ts := _get_config "last_check_ts" PNone (conf s) in
      let now := time_time E (now_world s) in
      if negb (is_none last_check_ts) then
        match to_float (float_of_str E) last_check_ts with
        | Raise e => (Crashed e, s)
        | Ok last =>
            if Qle_bool last now then
              let elapsed := (now - last)%Q in
              if Qltb elapsed (inject_Z interval_seconds) then
                let remaining := (inject_Z interval_seconds - elapsed)%Q in
                (Waited remaining, do_sleep remaining s)
              else check_then_sleep interval_minutes now s
            else
              check_then_sleep interval_minutes now
                (with_conf
                   (save_config (config_set "last_check_ts" PNone (conf s))) s)
        end
      else check_then_sleep interval_minutes now s
  end.

(** The loop, for at most [fuel] iterations; the outcomes so far, oldest
    first. *)
Fixpoint _monitor_loop (fuel : nat) (s : state E) : list outcome * state E :=
  match fuel with
  | O => ([], s)
  | S fuel' =>
      if stop_flag E (now_world s) then ([], s)
      else
        match monitor_iteration s with
        | (Crashed e, s1) => ([Crashed e], s1)
        | (o, s1) =>
            let (os, s2) := _monitor_loop fuel' s1 in (o :: os, s2)
        end
  end.

End Loop.

End Monitor.

(* ===================================================================== *)
(** ** The process-wide registration of the loop task                    *)
(* ===================================================================== *)

Module Singleton.

(** An [asyncio.Task]: [cancel()] on a task that is not done records the
    request; the task is done only once the event loop has run it again.
    [done()] is true of [Finished] alone. *)
Inductive task_state : Type :=
| Pending (cancel_requested : bool)
| Finished.

(** The two attributes of a plugin object that the coordination uses. *)
Record instance : Type := Instance {
  _monitor_task : option nat;
  _stopped : bool
}.

(** Tasks and plugin objects are named by their position in the order of
    creation.  [_GLOBAL_MONITOR_TASK] and [_GLOBAL_MONITOR_OWNER] are the
    two module globals. *)
Record process : Type := Process {
  tasks : list task_state;
  instances : list instance;
  _GLOBAL_MONITOR_TASK : option nat;
  _GLOBAL_MONITOR_OWNER : option nat
}.

Definition boot : process :=
  {| tasks := []; instances := [];
     _GLOBAL_MONITOR_TASK := None; _GLOBAL_MONITOR_OWNER := None |}.

(** [t.done()] *)
Definition done (t : nat) (p : process) : bool :=
  match tasks p !! t with
  | Some Finished => true
  | _ => false
  end.

(** The loop of task [t] can still run an iteration. *)
Definition live (t : nat) (p : process) : bool :=
  match tasks p !! t with
  | Some (Pending false) => true
  | _ => false
  end.

Definition set_tasks (ts : list task_state) (p : process) : process :=
  {| tasks := ts; instances := instances p;
     _GLOBAL_MONITOR_TASK := _GLOBAL_MONITOR_TASK p;
     _GLOBAL_MONITOR_OWNER := _GLOBAL_MONITOR_OWNER p |}.

Definition set_instances (l : list instance) (p : process) : process :=
  {| tasks := tasks p; instances := l;
     _GLOBAL_MONITOR_TASK := _GLOBAL_MONITOR_TASK p;
     _GLOBAL_MONITOR_OWNER := _GLOBAL_MONITOR_OWNER p |}.

Definition set_globals (t o : option nat) (p : process) : process :=
  {| tasks := tasks p; instances := instances p;
     _GLOBAL_MONITOR_TASK := t; _GLOBAL_MONITOR_OWNER := o |}.

(** [t.cancel()] *)
Definition cancel (t : nat) (p : process) : process :=
  match tasks p !! t with
  | Some (Pending _) => set_tasks (<[t := Pending true]> (tasks p)) p
  | _ => p
  end.

Definition set_stopped (i : nat) (b : bool) (p : process) : process :=
  set_instances
    (alter (fun x => {| _monitor_task := _monitor_task x; _stopped := b |})
           i (instances p)) p.

Definition set_monitor_task (i : nat) (t : option nat) (p : process) : process :=
  set_instances
    (alter (fun x => {| _monitor_task := t; _stopped := _stopped x |})
           i (instances p)) p.

(** [self._monitor_task] of plugin [i]. *)
Definition monitor_task_of (i : nat) (p : process) : option nat :=
  match instances p !! i with
  | Some x => _monitor_task x
  | None => None
  end.

Definition stopped_of (i : nat) (p : process) : bool :=
  match instances p !! i with
  | Some x => _stopped x
  | None => false
  end.

(** [self._monitor_task and not self._monitor_task.done()] *)
Definition has_running_task (i : nat) (p : process) : option nat :=
  match monitor_task_of i p with
  | Some t => if done t p then None else Some t
  | None => None
  end.

Definition _ensure_monitor_task (i : nat) (p : process) : process :=
  match has_running_task i p with
  | Some _ => p
  | None =>
      let t := length (tasks p) in
      set_globals (Some t) (Some i)
        (set_monitor_task i (Some t)
           (set_tasks (tasks p ++ [Pending false]) p))
  end.

Definition _restart_monitor_task (i : nat) (p : process) : process :=
  let p1 := match has_running_task i p with
            | Some t => cancel t p
            | None => p
            end in
  _ensure_monitor_task i (set_stopped i false (set_monitor_task i None p1)).

(** The first statements of [__init__]: the new object. *)
Definition allocate (p : process) : process :=
  set_instances
    (instances p ++ [{| _monitor_task := None; _stopped := false |}]) p.

(** Lines 235 to 239 of [__init__]. *)
Definition take_over (p : process) : process :=
  match _GLOBAL_MONITOR_TASK p with
  | Some t =>
      if done t p then p
      else
        cancel t
          (match _GLOBAL_MONITOR_OWNER p with
           | Some o => set_stopped o true p
           | None => p
           end)
  | None => p
  end.

(** [__init__]; [auto_check] is [self._get_config("auto_check", True)].
    The new plugin object is number [length (instances p)]. *)
Definition __init__ (auto_check : bool) (p : process) : process :=
  let i := length (instances p) in
  let p1 := take_over (allocate p) in
  if auto_check then _ensure_monitor_task i p1 else p1.

(** [on_unload] up to its [await]. *)
Definition on_unload_cancel (i : nat) (p : process) : process :=
  let p1 := set_stopped i true p in
  match has_running_task i p1 with
  | Some t => cancel t p1
  | None => p1
  end.

(** [on_unload] after the [await]: [is] compares the two references, and
    [None is None] holds. *)
Definition on_unload_release (i : nat) (p : process) : process :=
  if decide (_GLOBAL_MONITOR_TASK p = monitor_task_of i p)
  then set_globals None None p
  else p.

(** The event loop runs a task to its end. *)
Definition task_exit (t : nat) (p : process) : process :=
  match tasks p !! t with
  | Some (Pending _) => set_tasks (<[t := Finished]> (tasks p)) p
  | _ => p
  end.

(** What can happen between two suspension points.  [SetInterval] carries
    the value of [auto_check] that [set_interval] reads. *)
Inductive step : Type :=
| Create (auto_check : bool)
| Enable (i : nat)
| SetInterval (i : nat) (auto_check : bool)
| UnloadCancel (i : nat)
| UnloadRelease (i : nat)
| TaskExit (t : nat).

(** A handler runs on a plugin object that exists. *)
Definition on_instance (i : nat) (f : process -> process) (p : process)
  : process :=
  if decide (i < length (instances p)) then f p else p.

Definition run (st : step) (p : process) : process :=
  match st with
  | Create auto_check => __init__ auto_check p
  | Enable i => on_instance i (_ensure_monitor_task i) p
  | SetInterval i auto_check =>
      if auto_check then on_instance i (_restart_monitor_task i) p else p
  | UnloadCancel i => on_instance i (on_unload_cancel i) p
  | UnloadRelease i => on_instance i (on_unload_release i) p
  | TaskExit t => task_exit t p
  end.

Definition run_all (l : list step) (p : process) : process :=
  fold_left (fun q st => run st q) l p.

(** A state of the process: what a sequence of steps makes of [boot]. *)
Definition reachable (p : process) : Prop :=
  exists l, p = run_all l boot.

(** The task held by the registry, when it is not done. *)
Definition registered_active (t : nat) (p : process) : Prop :=
  _GLOBAL_MONITOR_TASK p = Some t /\ done t p = false.

End Singleton.

(* ===================================================================== *)
(** ** [ElectricityClient.close]                                         *)
(* ===================================================================== *)

Module Session.

Import Client.

Section Close.

Variable E : env.

(** [close]: an open session is closed; nothing else changes. *)
Definition close (s : state E) : state E :=
  {| token := token s; account := account s; password := password s;
     session_open := false; conf := conf s;
     now_world := now_world s; trace := trace s |}.

End Close.

End Session.

(* ===================================================================== *)
(** ** The command handlers                                              *)
(* ===================================================================== *)

Module Commands.

Import Client Monitor Singleton.

(** What a handler yields, by case.  [BalanceReport info] stands for
    [_format_balance_message(info)] and [LowBalanceReport text] carries
    the text of [_format_low_balance_message]. *)
Inductive answer : Type :=
| BalanceReport (info : snapshot)
| LowBalanceReport (text : string)
| Failed (text : string)
| ThresholdRejected
| ThresholdUpdated (threshold : Q)
| IntervalRejected
| IntervalUpdated (minutes : Z)
| MonitorEnabled
| MonitorDisabled.

Definition query_failed (exc : exn) : string :=
  "âš ï¸ ç”µè´¹æŸ¥è¯¢å¤±è´¥: " +:+ str_of_exn exc.

Definition check_failed (exc : exn) : string :=
  "âš ï¸ ç”µè´¹æ£€æŸ¥å¤±è´¥: " +:+ str_of_exn exc.

Section Handlers.

Variable E : env.

(** [query_balance] *)
Definition query_balance (s : state E) : answer * state E :=
  match get_balance
          (truthy (_get_config "auto_refresh_token" (PBool true) (conf s))) s
  with
  | (Ok info, s1) => (BalanceReport info, s1)
  | (Raise exc, s1) => (Failed (query_failed exc), s1)
  end.

(** [run_check_now] *)
Definition run_check_now (s : state E) : answer * state E :=
  match get_balance
          (truthy (_get_config "auto_refresh_token" (PBool true) (conf s))) s
  with
  | (Raise exc, s1) => (Failed (check_failed exc), s1)
  | (Ok info, s1) =>
      match to_float (float_of_str E) (balance info) with
      | Raise exc => (Failed (check_failed exc), s1)
      | Ok bal =>
          match to_float (float_of_str E) (threshold_of (conf s1)) with
          | Raise exc => (Failed (check_failed exc), s1)
          | Ok threshold =>
              if Qltb bal threshold then
                (LowBalanceReport
                   (format_low_balance E bal (update_time info)
                      (threshold_of (conf s1))), s1)
              else (BalanceReport info, s1)
          end
      end
  end.

End Handlers.

(** [set_threshold] *)
Definition set_threshold (threshold : Q) (c : store) : answer * store :=
  if Qle_bool threshold 0 then (ThresholdRejected, c)
  else (ThresholdUpdated threshold,
        save_config (config_set "threshold" (PFloat threshold) c)).

(** [set_interval], called on plugin object [i]. *)
Definition set_interval (minutes : Z) (i : nat) (c : store) (p : process)
  : answer * (store * process) :=
  if (minutes <? 1)%Z then (IntervalRejected, (c, p))
  else
    let c1 :=
      save_config
        (config_set "last_check_ts" PNone
           (config_set "check_interval_minutes" (PInt minutes) c)) in
    (IntervalUpdated minutes,
     (c1, if truthy (_get_config "auto_check" (PBool true) c1)
          then _restart_monitor_task i p else p)).

(** [enable_monitor], called on plugin object [i]. *)
Definition enable_monitor (i : nat) (c : store) (p : process)
  : answer * (store * process) :=
  (MonitorEnabled,
   (save_config (config_set "auto_check" (PBool true) c),
    _ensure_monitor_task i p)).

(** [disable_monitor] *)
Definition disable_monitor (c : store) : answer * store :=
  (MonitorDisabled, save_config (config_set "auto_check" (PBool false) c)).

End Commands.

(* ===================================================================== *)
(** ** [_to_cq_card]                                                     *)
(* ===================================================================== *)

Module CqCard.

(** *** [str.splitlines()]

    The line boundaries of Python, in their UTF-8 encodings: LF, CR, CR LF,
    VT, FF, FS, GS, RS, NEL (U+0085), LS (U+2028), PS (U+2029). *)

(** How many bytes of [s] form the line boundary that starts it; 0 when
    none does. *)
Definition boundary (s : string) : nat :=
  match s with
  | EmptyString => 0
  | String a r =>
      let x := byte a in
      if (x =? 13)%N then
        match r with
        | String b _ => if (byte b =? 10)%N then 2 else 1
        | EmptyString => 1
        end
      else if ((10 <=? x) && (x <=? 12) || (28 <=? x) && (x <=? 30))%N then 1
      else
        match r with
        | String b r' =>
            if ((x =? 194) && (byte b =? 133))%N then 2
            else
              match r' with
              | String c _ =>
                  if ((x =? 226) && (byte b =? 128)
                      && ((byte c =? 168) || (byte c =? 169)))%N
                  then 3 else 0
              | EmptyString => 0
              end
        | EmptyString => 0
        end
  end.

(** [skip] bytes of a boundary are still to be passed over; [line] is the
    line read so far. *)
Fixpoint split_lines (s : string) (skip : nat) (line : string) : list string :=
  match s with
  | EmptyString => if String.eqb line "" then [] else [line]
  | String a r =>
      match skip with
      | S k => split_lines r k line
      | O =>
          match boundary s with
          | O => split_lines r 0 (line +:+ String a EmptyString)
          | S k => line :: split_lines r k ""
          end
      end
  end.

Definition splitlines (s : string) : list string := split_lines s 0 "".

(** [sep.join(parts)] *)
Fixpoint join (sep : string) (parts : list string) : string :=
  match parts with
  | [] => ""
  | [p] => p
  | p :: rest => p +:+ sep +:+ join sep rest
  end.

(** *** [json.dumps(payload, ensure_ascii=False)] *)

Inductive json : Type :=
| JStr (s : string)
| JInt (z : Z)
| JObj (members : fields)
with fields : Type :=
| FNil
| FCons (key : string) (value : json) (rest : fields).

Definition quote : string := String "034"%char EmptyString.

Definition backslash : string := String "092"%char EmptyString.

Definition hex_digit (n : N) : ascii :=
  ascii_of_N (if (n <? 10)%N then 48 + n else 87 + n).

(** The escape of one character inside a JSON string: the quote, the
    backslash and the control characters; everything else is kept. *)
Definition escape_char (a : ascii) : string :=
  let x := byte a in
  if (x =? 34)%N then backslash +:+ quote
  else if (x =? 92)%N then backslash +:+ backslash
  else if (x =? 8)%N then backslash +:+ "b"
  else if (x =? 12)%N then backslash +:+ "f"
  else if (x =? 10)%N then backslash +:+ "n"
  else if (x =? 13)%N then backslash +:+ "r"
  else if (x =? 9)%N then backslash +:+ "t"
  else if (x <? 32)%N then
    backslash +:+ "u00"
    +:+ String (hex_digit (x / 16)) (String (hex_digit (x mod 16)) EmptyString)
  else String a EmptyString.

Fixpoint escape (s : string) : string :=
  match s with
  | EmptyString => EmptyString
  | String a r => escape_char a +:+ escape r
  end.

Definition json_string (s : string) : string := quote +:+ escape s +:+ quote.

(** The decimal digits of [n], most significant first, before [acc]. *)
Fixpoint digits (fuel : nat) (n : N) (acc : string) : string :=
  match fuel with
  | O => acc
  | S fuel' =>
      let acc' := String (ascii_of_N (48 + n mod 10)) acc in
      if (n / 10 =? 0)%N then acc' else digits fuel' (n / 10) acc'
  end.

Definition decimal (z : Z) : string :=
  let n := Z.to_N (Z.abs z) in
  (if (z <? 0)%Z then "-" else "") +:+ digits (S (N.to_nat (N.log2 n))) n "".

Fixpoint dumps (j : json) : string :=
  match j with
  | JStr s => json_string s
  | JInt z => decimal z
  | JObj members => "{" +:+ dumps_fields members +:+ "}"
  end
with dumps_fields (members : fields) : string :=
  match members with
  | FNil => ""
  | FCons key value rest =>
      json_string key +:+ ": " +:+ dumps value
      +:+ match rest with
          | FNil => ""
          | FCons _ _ _ => ", " +:+ dumps_fields rest
          end
  end.

(** *** The card *)

Definition payload (title desc : string) : json :=
  JObj
    (FCons "app" (JStr "com.tencent.miniapp")
    (FCons "desc" (JStr "")
    (FCons "view" (JStr "notification")
    (FCons "ver" (JStr "1.0.0.0")
    (FCons "prompt" (JStr title)
    (FCons "meta"
       (JObj
          (FCons "notification"
             (JObj
                (FCons "appInfo"
                   (JObj
                      (FCons "appName" (JStr "ç”µè´¹ç›‘æ§")
                      (FCons "appType" (JInt 4) FNil)))
                (FCons "title" (JStr title)
                (FCons "desc" (JStr desc) FNil))))
             FNil))
    (FCons "config" (JObj (FCons "forward" (JInt 1) FNil)) FNil))))))).

(** [s.replace(c, new)] for a pattern of one character. *)
Fixpoint replace_char (c : ascii) (new : string) (s : string) : string :=
  match s with
  | EmptyString => EmptyString
  | String a r =>
      if Ascii.eqb a c then new +:+ replace_char c new r
      else String a (replace_char c new r)
  end.

(** The four replacements, in the order of the source. *)
Definition cq_escape (data : string) : string :=
  replace_char "," "&#44;"
    (replace_char "]" "&#93;"
       (replace_char "[" "&#91;"
          (replace_char "&" "&amp;" data))).

Definition newline : string := String "010"%char EmptyString.

Definition nonblank_lines (text : string) : list string :=
  List.filter (fun line => truthy (PStr (strip line))) (splitlines text).

Definition _to_cq_card (text : string) : string :=
  match nonblank_lines text with
  | [] => text
  | title :: rest =>
      "[CQ:json,data=" +:+ cq_escape (dumps (payload title (join newline rest)))
      +:+ "]"
  end.

End CqCard.

(* ===================================================================== *)
(** ** The client of a new plugin object                                 *)
(* ===================================================================== *)

Module Startup.

Import Client.

(** The configuration as a new process reads it from disk. *)
Definition reload (c : store) : store := {| mem := disk c; disk := disk c |}.

Section Startup.

Variable E : env.

(** [ElectricityClient.__init__] with the arguments that
    [ElectricityMonitorPlugin.__init__] passes: the three settings, read
    with [_get_config]; no session yet. *)
Definition new_client (c : store) (w : world E) (seen : list event) : state E :=
  {| token := _get_config "electricity_token" PNone c;
     account := _get_config "electricity_account" PNone c;
     password := _get_config "electricity_password" PNone c;
     session_open := false;
     conf := c;
     now_world := w;
     trace := seen |}.

End Startup.

End Startup.

Unset Implicit Arguments.

(* ===================================================================== *)
(** * Properties                                                         *)
(* ===================================================================== *)

(* ===================================================================== *)
(** ** Strings                                                           *)
(* ===================================================================== *)

Module StringFacts.

Lemma starts_with_iff (k m : string) :
  starts_with k m = true <-> exists post, m = k +:+ post.
Proof.
  revert m. induction k as [|a k IH]; intros m; simpl.
  - split; [intros _; exists m; reflexivity | reflexivity].
  - destruct m as [|b m].
    + split; [discriminate | intros [post H]; discriminate].
    + rewrite andb_true_iff, Ascii.eqb_eq, IH. split.
      * intros [-> [post ->]]. exists post. reflexivity.
      * intros [post H]. injection H as -> ->. split; [reflexivity | eauto].
Qed.

Lemma contains_iff (k m : string) :
  contains k m = true <-> exists pre post, m = pre +:+ k +:+ post.
Proof.
  induction m as [|b m IH].
  - simpl. rewrite orb_false_r, starts_with_iff. split.
    + intros [post H]. exists EmptyString, post. exact H.
    + intros [pre [post H]]. destruct pre; [exists post; exact H | discriminate].
  - cbn [contains]. rewrite orb_true_iff, starts_with_iff, IH. split.
    + intros [[post H] | [pre [post H]]].
      * exists EmptyString, post. exact H.
      * exists (String b pre), post. simpl. rewrite H. reflexivity.
    + intros [pre [post H]]. destruct pre as [|c pre].
      * left. exists post. exact H.
      * right. simpl in H. injection H as _ H. exists pre, post. exact H.
Qed.

End StringFacts.

(* ===================================================================== *)
(** ** The session-expired classification                                *)
(* ===================================================================== *)

Module ExpiryFacts.

Import Client StringFacts.

(** ASCII letter case folding; bytes outside [A-Z] are kept. *)
Definition lower_ascii (a : ascii) : ascii :=
  if ((65 <=? byte a) && (byte a <=? 90))%N
  then ascii_of_N (byte a + 32) else a.

Fixpoint lower (s : string) : string :=
  match s with
  | EmptyString => EmptyString
  | String a s' => String (lower_ascii a) (lower s')
  end.

(** The classification in the words of the specification: a substring
    match that ignores letter case. *)
Definition expired_ignoring_case (message : string) : bool :=
  existsb (fun keyword => contains (lower keyword) (lower message)) keywords.

(** The seventh keyword with its ASCII letters in upper case. *)
Definition shouted : string := "TOKENè¿‡æœŸ".

(** C2, as stated, fails: [shouted] differs from a listed phrase in letter
    case only and matches when case is ignored, yet
    [_looks_like_login_expired] rejects it. *)
Lemma looks_like_login_expired_case_counterexample :
  In "tokenè¿‡æœŸ" keywords
  /\ lower shouted = lower "tokenè¿‡æœŸ"
  /\ expired_ignoring_case shouted = true
  /\ _looks_like_login_expired shouted = false.
Proof.
  split; [|split; [|split]]; vm_compute; auto 10.
Qed.

(** C2, amended: a message is classified as session-expired exactly when
    it contains one of the listed phrases as a substring, letter case
    included. *)
Theorem looks_like_login_expired_iff (message : string) :
  _looks_like_login_expired message = true
  <-> exists keyword pre post,
        In keyword keywords /\ message = pre +:+ keyword +:+ post.
Proof.
  unfold _looks_like_login_expired. rewrite existsb_exists. split.
  - intros [k [Hin Hc]]. apply contains_iff in Hc as [pre [post H]].
    exists k, pre, post. split; assumption.
  - intros [k [pre [post [Hin H]]]]. exists k. split; [assumption|].
    apply contains_iff. eauto.
Qed.

(** Both spellings of "token" are listed, which is how the source covers
    the two cases it expects. *)
Example both_token_spellings :
  _looks_like_login_expired "tokenè¿‡æœŸ" = true
  /\ _looks_like_login_expired "Tokenè¿‡æœŸ" = true.
Proof. split; reflexivity. Qed.

End ExpiryFacts.

(* ===================================================================== *)
(** ** Reading the destination list                                      *)
(* ===================================================================== *)

Module ListingFacts.

Fixpoint no_comma (s : string) : bool :=
  match s with
  | EmptyString => true
  | String a s' => negb (Ascii.eqb a ",") && no_comma s'
  end.

Lemma split_comma_no_comma (s : string) :
  no_comma s = true -> split_comma s = [s].
Proof.
  induction s as [|a s IH]; simpl; [reflexivity|].
  intros H. apply andb_true_iff in H as [Ha Hs].
  apply negb_true_iff in Ha. rewrite Ha, (IH Hs). reflexivity.
Qed.

Lemma ws2_comma (a b : ascii) :
  ws2 a b = true -> Ascii.eqb a "," = false /\ Ascii.eqb b "," = false.
Proof.
  intros H. split.
  - destruct (Ascii.eqb_spec a ","); [subst; discriminate | reflexivity].
  - destruct (Ascii.eqb_spec b ","); [subst | reflexivity].
    unfold ws2 in H. cbn in H. rewrite andb_false_r in H. discriminate.
Qed.

Lemma ws3_comma (a b c : ascii) :
  ws3 a b c = true ->
  Ascii.eqb a "," = false /\ Ascii.eqb b "," = false /\ Ascii.eqb c "," = false.
Proof.
  intros H. repeat split.
  - destruct (Ascii.eqb_spec a ","); [subst; discriminate | reflexivity].
  - destruct (Ascii.eqb_spec b ","); [subst | reflexivity].
    unfold ws3 in H. cbn in H.
    rewrite !andb_false_r, !andb_false_l, !orb_false_r in H; discriminate.
  - destruct (Ascii.eqb_spec c ","); [subst | reflexivity].
    unfold ws3 in H. cbn in H.
    rewrite !andb_false_r, !orb_false_r in H; discriminate.
Qed.

(** Induction on the length of a string, for the functions that consume
    one code point (one to three bytes) per step. *)
Lemma by_length (P : string -> Prop) :
  (forall s, (forall t, (String.length t < String.length s)%nat -> P t) -> P s) ->
  forall s, P s.
Proof.
  intros step s. remember (String.length s) as n eqn:Hn.
  revert s Hn. induction n as [n IH] using lt_wf_ind.
  intros s ->. apply step. intros t Ht. eapply IH; [exact Ht | reflexivity].
Qed.

Lemma all_ws_no_comma (s : string) : all_ws s = true -> no_comma s = true.
Proof.
  induction s as [s IH] using by_length.
  destruct s as [|a s1]; [reflexivity|]. cbn [all_ws no_comma].
  destruct (ws1 a) eqn:H1.
  - intros H. rewrite (IH s1 ltac:(simpl; lia) H).
    destruct (Ascii.eqb_spec a ","); [subst; discriminate | reflexivity].
  - destruct s1 as [|b s2]; [discriminate|].
    destruct (ws2 a b) eqn:H2.
    + intros H. apply ws2_comma in H2 as [-> Hb]. cbn [no_comma].
      rewrite Hb. simpl. apply IH; [simpl; lia | exact H].
    + destruct s2 as [|c s3]; [discriminate|].
      intros H. apply andb_true_iff in H as [H3 H].
      apply ws3_comma in H3 as [-> [Hb Hc]]. cbn [no_comma].
      rewrite Hb, Hc. simpl. apply IH; [simpl; lia | exact H].
Qed.

Lemma rstrip_empty (s : string) : rstrip s = EmptyString -> all_ws s = true.
Proof.
  destruct s as [|a s]; [reflexivity|]. cbn [rstrip].
  destruct (all_ws (String a s)); [reflexivity | discriminate].
Qed.

Lemma all_ws_lstrip (s : string) : all_ws (lstrip s) = true -> all_ws s = true.
Proof.
  induction s as [s IH] using by_length.
  destruct s as [|a s1]; [reflexivity|]. cbn [lstrip all_ws].
  destruct (ws1 a) eqn:H1; [apply IH; simpl; lia|].
  destruct s1 as [|b s2]; [cbn [all_ws]; rewrite H1; auto|].
  destruct (ws2 a b) eqn:H2; [apply IH; simpl; lia|].
  destruct s2 as [|c s3]; [cbn [all_ws]; rewrite H1, H2; auto|].
  destruct (ws3 a b c) eqn:H3; [simpl; apply IH; simpl; lia|].
  cbn [all_ws]. rewrite H1, H2, H3. auto.
Qed.

(** A string that strips to nothing has no item to give: the source's
    [if value.strip()] guard agrees with the comprehension it guards. *)
Lemma strip_empty_split (s : string) :
  strip s = EmptyString ->
  filter (fun item => negb (String.eqb (strip item) "")) (split_comma s) = [].
Proof.
  intros H. assert (Hws : all_ws s = true).
  { apply all_ws_lstrip, rstrip_empty, H. }
  rewrite (split_comma_no_comma _ (all_ws_no_comma _ Hws)).
  cbn. rewrite H. reflexivity.
Qed.

(** Blank items dropped, the others stripped. *)
Definition comma_items (s : string) : list pyval :=
  map (fun item => PStr (strip item))
      (filter (fun item => negb (String.eqb (strip item) "")) (split_comma s)).

(** What [_normalize_list] returns, by the type of the stored value. *)
Definition normalized (json_loads : string -> result pyval)
           (value : pyval) (l : list pyval) : Prop :=
  match value with
  | PNone => l = []
  | PList stored => l = stored
  | PStr s =>
      match json_loads s with
      | Ok (PList parsed) => l = parsed
      | _ => l = comma_items s
      end
  | _ => l = []
  end.

Lemma normalize_list_cases
      (json_loads : string -> result pyval)
      (Hjson : forall s e, json_loads s = Raise e ->
                           isinstance_exn e JSONDecodeError = true)
      (value : pyval) :
  exists l, _normalize_list json_loads value = Ok l
            /\ normalized json_loads value l.
Proof.
  unfold normalized.
  destruct value as [| b | z | q | s | stored | d]; simpl; eauto.
  destruct (json_loads s) as [v | e] eqn:Hl; simpl.
  - destruct v; try (destruct (String.eqb (strip s) "") eqn:Hs; simpl;
      [apply String.eqb_eq in Hs; unfold comma_items;
       rewrite (strip_empty_split _ Hs); eauto | eauto]).
    eauto.
  - rewrite (Hjson _ _ Hl). simpl.
    destruct (String.eqb (strip s) "") eqn:Hs; simpl; [|eauto].
    apply String.eqb_eq in Hs. unfold comma_items.
    rewrite (strip_empty_split _ Hs). eauto.
Qed.


(** A decoder that accepts nothing: every text is "not JSON". *)
Definition no_json (s : string) : result pyval :=
  Raise (Exn JSONDecodeError "Expecting value").

Lemma no_json_decode_error (s : string) (e : exn) :
  no_json s = Raise e -> isinstance_exn e JSONDecodeError = true.
Proof. intros He. injection He as <-. reflexivity. Qed.

Example comma_items_example :
  comma_items " room-7 , ,group-2" = [PStr "room-7"; PStr "group-2"].
Proof. reflexivity. Qed.


End ListingFacts.

(* ===================================================================== *)
(** ** The destination list as a set                                     *)
(* ===================================================================== *)

Module SubscriptionFacts.

Import Subscription.

(** No element equals ([==]) an earlier one. *)
Fixpoint no_duplicates (l : list pyval) : Prop :=
  match l with
  | [] => True
  | x :: r => List.Forall (fun y => eq_scalar y x = false) r /\ no_duplicates r
  end.

Lemma eq_scalar_str (o : string) (y : pyval) :
  eq_scalar (PStr o) y = true <-> y = PStr o.
Proof.
  destruct y; simpl; try (split; [discriminate | intros H; discriminate H]).
  rewrite String.eqb_eq. split; [intros ->; reflexivity | intros H; injection H; auto].
Qed.

Lemma member_str (o : string) (l : list pyval) :
  member (PStr o) l = true <-> In (PStr o) l.
Proof.
  unfold member. rewrite existsb_exists. split.
  - intros [y [Hin Hy]]. apply eq_scalar_str in Hy. subst. exact Hin.
  - intros Hin. exists (PStr o). split; [exact Hin | apply eq_scalar_str; reflexivity].
Qed.

Lemma no_duplicates_app (a b : list pyval) :
  no_duplicates (a ++ b)
  <-> no_duplicates a /\ no_duplicates b
      /\ (forall x y, In x a -> In y b -> eq_scalar y x = false).
Proof.
  induction a as [|x a IH]; simpl.
  - intuition.
  - rewrite IH, !List.Forall_forall. split.
    + intros [Hx [Ha [Hb Hab]]]. repeat split; auto.
      * intros y Hy. apply Hx, in_or_app. auto.
      * intros x' y [<- | Hx'] Hy; [apply Hx, in_or_app; auto | auto].
    + intros [[Hx Ha] [Hb Hab]]. repeat split; auto.
      intros y Hy. apply in_app_or in Hy as [Hy | Hy]; auto.
Qed.

Lemma dedupe_loop_keeps (o : string) (items seen acc r : list pyval) :
  dedupe_loop items seen acc = Ok r ->
  (forall x, In x seen -> In x acc) ->
  In (PStr o) items \/ In (PStr o) acc ->
  In (PStr o) r.
Proof.
  revert seen acc. induction items as [|item rest IH]; intros seen acc; simpl.
  - intros H _ [[] | Hin]. injection H as <-. exact Hin.
  - destruct (hashable item); simpl; [|discriminate].
    destruct (existsb (eq_scalar item) seen) eqn:Hseen.
    + intros H Hsub Hin. apply (IH seen acc H Hsub).
      destruct Hin as [[-> | Hin] | Hin]; auto.
      right. apply Hsub. apply existsb_exists in Hseen as [y [Hy Heq]].
      apply eq_scalar_str in Heq. subst. exact Hy.
    + intros H Hsub Hin. apply (IH (item :: seen) (acc ++ [item]) H).
      * intros x [<- | Hx]; apply in_or_app; simpl; auto.
      * destruct Hin as [[-> | Hin] | Hin]; auto;
          right; apply in_or_app; simpl; auto.
Qed.

Lemma dedupe_loop_no_duplicates (items seen acc r : list pyval) :
  dedupe_loop items seen acc = Ok r ->
  (forall x, In x acc -> In x seen) ->
  no_duplicates acc ->
  no_duplicates r.
Proof.
  revert seen acc. induction items as [|item rest IH]; intros seen acc; simpl.
  - intros H _ Hacc. injection H as <-. exact Hacc.
  - destruct (hashable item); simpl; [|discriminate].
    destruct (existsb (eq_scalar item) seen) eqn:Hseen.
    + apply IH.
    + intros H Hsub Hacc. apply (IH (item :: seen) (acc ++ [item]) H).
      * intros x Hx. apply in_app_or in Hx as [Hx | [<- | []]]; simpl; auto.
      * apply no_duplicates_app. repeat split; simpl; auto.
        intros x y Hx [<- | []].
        destruct (eq_scalar item x) eqn:Heq; [|reflexivity].
        rewrite <- Hseen. symmetry. apply existsb_exists.
        exists x. split; [apply Hsub, Hx | exact Heq].
Qed.

Lemma dedupe_loop_id (items seen acc : list pyval) :
  (forall x, In x seen -> In x acc) ->
  List.Forall (fun x => hashable x = true) items ->
  no_duplicates (acc ++ items) ->
  dedupe_loop items seen acc = Ok (acc ++ items).
Proof.
  revert seen acc. induction items as [|item rest IH]; intros seen acc Hsub Hh Hnd; simpl.
  - rewrite app_nil_r. reflexivity.
  - inversion Hh as [|? ? Hi Hr]; subst. rewrite Hi. simpl.
    assert (Hseen : existsb (eq_scalar item) seen = false).
    { destruct (existsb (eq_scalar item) seen) eqn:Hs; [|reflexivity].
      apply existsb_exists in Hs as [x [Hx Heq]].
      apply no_duplicates_app in Hnd as [_ [_ Hnd]].
      rewrite (Hnd x item (Hsub x Hx) (or_introl eq_refl)) in Heq. discriminate. }
    rewrite Hseen.
    replace (acc ++ item :: rest) with ((acc ++ [item]) ++ rest)
      by (rewrite <- app_assoc; reflexivity).
    apply IH; auto.
    + intros x [<- | Hx]; apply in_or_app; simpl; auto.
    + rewrite <- app_assoc. exact Hnd.
Qed.

Lemma remove_first_in (x y : pyval) (l : list pyval) :
  In y (remove_first x l) -> In y l.
Proof.
  induction l as [|z l IH]; simpl; [auto|].
  destruct (eq_scalar x z); simpl; intuition.
Qed.

Lemma remove_first_no_duplicates (x : pyval) (l : list pyval) :
  no_duplicates l -> no_duplicates (remove_first x l).
Proof.
  induction l as [|z l IH]; simpl; [auto|].
  intros [Hz Hl]. destruct (eq_scalar x z); simpl; [exact Hl|].
  split; [|auto]. rewrite List.Forall_forall in *.
  intros y Hy. apply Hz, (remove_first_in _ _ _ Hy).
Qed.

Lemma remove_first_hashable (x : pyval) (l : list pyval) :
  List.Forall (fun y => hashable y = true) l ->
  List.Forall (fun y => hashable y = true) (remove_first x l).
Proof.
  rewrite !List.Forall_forall. intros H y Hy. apply H, (remove_first_in _ _ _ Hy).
Qed.

Lemma get_after_write (k : string) (v : pyval) (c : store) :
  config_get k (save_config (config_set k v c)) = v
  /\ persisted k (save_config (config_set k v c)) = v.
Proof.
  unfold config_get, persisted, save_config, config_set. simpl.
  rewrite lookup_insert_eq. auto.
Qed.

Lemma get_after_alias (l0 now : list pyval) (c : store) :
  config_get "notify_origins" c = PList l0 ->
  config_get "notify_origins" (mutate_alias (PList l0) now c) = PList now.
Proof.
  intros _. unfold config_get, mutate_alias. simpl.
  rewrite lookup_insert_eq. reflexivity.
Qed.

Section Handlers.

Variable json_loads : string -> result pyval.

Local Abbreviation subscribe := (subscribe json_loads).
Local Abbreviation unsubscribe := (unsubscribe json_loads).
Local Abbreviation _get_notify_origins := (_get_notify_origins json_loads).

Lemma origins_of_list (l : list pyval) (c : store) :
  config_get "notify_origins" c = PList l -> _get_notify_origins c = Ok l.
Proof. unfold Subscription._get_notify_origins. intros ->. reflexivity. Qed.

Lemma member_snoc (o : string) (l : list pyval) :
  member (PStr o) (l ++ [PStr o]) = true.
Proof. apply member_str, in_or_app. simpl. auto. Qed.

Lemma subscribe_again (origin : string) (c : store) :
  snd (subscribe origin (snd (subscribe origin c))) = snd (subscribe origin c).
Proof.
  unfold Subscription.subscribe at 2 3.
  destruct (_get_notify_origins c) as [origins | e] eqn:Hg.
  - destruct (member (PStr origin) origins) eqn:Hm.
    + simpl. unfold Subscription.subscribe. rewrite Hg, Hm. reflexivity.
    + unfold _set_notify_origins.
      destruct (_dedupe_list (origins ++ [PStr origin])) as [d | e] eqn:Hd.
      * simpl. unfold Subscription.subscribe.
        rewrite (origins_of_list d) by apply get_after_write.
        assert (Hin : member (PStr origin) d = true).
        { apply member_str. eapply dedupe_loop_keeps; [exact Hd | auto |].
          left. apply in_or_app. simpl. auto. }
        rewrite Hin. reflexivity.
      * simpl. destruct (config_get "notify_origins" c) as [| | | | | l0 |] eqn:Hst;
          simpl; try (unfold Subscription.subscribe; rewrite Hg, Hm;
                      unfold _set_notify_origins; rewrite Hd, Hst; reflexivity).
        unfold Subscription.subscribe.
        rewrite (origins_of_list (origins ++ [PStr origin]))
          by (apply (get_after_alias l0); exact Hst).
        rewrite member_snoc. reflexivity.
  - simpl. unfold Subscription.subscribe. rewrite Hg. reflexivity.
Qed.

Lemma subscribe_then_already (origin : string) (c c1 : store) (r : reply) :
  subscribe origin c = (Ok r, c1) ->
  subscribe origin c1 = (Ok AlreadySubscribed, c1).
Proof.
  unfold Subscription.subscribe at 1.
  destruct (_get_notify_origins c) as [origins | e] eqn:Hg; [|discriminate].
  destruct (member (PStr origin) origins) eqn:Hm.
  - intros H. injection H as <- <-. unfold Subscription.subscribe.
    rewrite Hg, Hm. reflexivity.
  - unfold _set_notify_origins.
    destruct (_dedupe_list (origins ++ [PStr origin])) as [d | e] eqn:Hd;
      [|discriminate].
    intros H. injection H as <- <-. unfold Subscription.subscribe.
    rewrite (origins_of_list d) by apply get_after_write.
    assert (Hin : member (PStr origin) d = true).
    { apply member_str. eapply dedupe_loop_keeps; [exact Hd | auto |].
      left. apply in_or_app. simpl. auto. }
    rewrite Hin. reflexivity.
Qed.

Lemma unsubscribe_absent (origin : string) (c : store) (origins : list pyval) :
  _get_notify_origins c = Ok origins ->
  member (PStr origin) origins = false ->
  unsubscribe origin c = (Ok WasNotSubscribed, c).
Proof.
  intros Hg Hm. unfold Subscription.unsubscribe. rewrite Hg, Hm. reflexivity.
Qed.

Lemma written_list_no_duplicates (origin : string) (c c1 : store) :
  subscribe origin c = (Ok NowSubscribed, c1)
  \/ unsubscribe origin c = (Ok NowUnsubscribed, c1) ->
  exists d, config_get "notify_origins" c1 = PList d
            /\ persisted "notify_origins" c1 = PList d
            /\ no_duplicates d.
Proof.
  unfold Subscription.subscribe, Subscription.unsubscribe, _set_notify_origins.
  destruct (_get_notify_origins c) as [origins | e]; [|intros [H | H]; discriminate].
  intros [H | H].
  - destruct (member (PStr origin) origins); [discriminate|].
    destruct (_dedupe_list (origins ++ [PStr origin])) as [d | e] eqn:Hd;
      [|discriminate].
    injection H as <-. exists d. repeat split; try apply get_after_write.
    eapply dedupe_loop_no_duplicates; [exact Hd | auto | exact I].
  - destruct (member (PStr origin) origins); simpl in H; [|discriminate].
    destruct (_dedupe_list (remove_first (PStr origin) origins)) as [d | e] eqn:Hd;
      [|discriminate].
    injection H as <-. exists d. repeat split; try apply get_after_write.
    eapply dedupe_loop_no_duplicates; [exact Hd | auto | exact I].
Qed.

Lemma order_kept (origin : string) (c : store) (l : list pyval) :
  config_get "notify_origins" c = PList l ->
  List.Forall (fun x => hashable x = true) l ->
  no_duplicates l ->
  (member (PStr origin) l = false ->
   exists c1, subscribe origin c = (Ok NowSubscribed, c1)
              /\ config_get "notify_origins" c1 = PList (l ++ [PStr origin])
              /\ persisted "notify_origins" c1 = PList (l ++ [PStr origin]))
  /\ (member (PStr origin) l = true ->
      exists c1, unsubscribe origin c = (Ok NowUnsubscribed, c1)
                 /\ config_get "notify_origins" c1
                    = PList (remove_first (PStr origin) l)
                 /\ persisted "notify_origins" c1
                    = PList (remove_first (PStr origin) l)).
Proof.
  intros Hst Hh Hnd. split; intros Hm.
  - unfold Subscription.subscribe, _set_notify_origins.
    rewrite (origins_of_list l c Hst), Hm.
    unfold _dedupe_list. rewrite (dedupe_loop_id (l ++ [PStr origin]) [] []); simpl.
    + eexists. repeat split; apply get_after_write.
    + intros x [].
    + apply Forall_app. split; [exact Hh | repeat constructor].
    + apply no_duplicates_app. repeat split; simpl; auto.
      intros x y Hx [<- | []].
      destruct (eq_scalar (PStr origin) x) eqn:Heq; [|reflexivity].
      rewrite <- Hm. symmetry. apply existsb_exists. eauto.
  - unfold Subscription.unsubscribe, _set_notify_origins.
    rewrite (origins_of_list l c Hst), Hm. simpl.
    unfold _dedupe_list.
    rewrite (dedupe_loop_id (remove_first (PStr origin) l) [] []); simpl.
    + eexists. repeat split; apply get_after_write.
    + intros x [].
    + apply remove_first_hashable, Hh.
    + apply remove_first_no_duplicates, Hnd.
Qed.

(** C7: subscribing a destination a second time changes nothing (so the
    list is as long as after the first call, and the second call answers
    "already subscribed"); unsubscribing a destination that is not in
    the list changes nothing and raises nothing; whatever [subscribe] or
    [unsubscribe] writes is a list without duplicates, in memory and on
    disk; on a stored list without duplicates the new destination goes to
    the end and a removed one leaves the order of the others as it was. *)
Theorem destinations_form_a_set (origin : string) (c : store) :
  snd (subscribe origin (snd (subscribe origin c))) = snd (subscribe origin c)
  /\ (forall r c1, subscribe origin c = (Ok r, c1) ->
                   subscribe origin c1 = (Ok AlreadySubscribed, c1))
  /\ (forall origins, _get_notify_origins c = Ok origins ->
                      member (PStr origin) origins = false ->
                      unsubscribe origin c = (Ok WasNotSubscribed, c))
  /\ (forall c1, subscribe origin c = (Ok NowSubscribed, c1)
                 \/ unsubscribe origin c = (Ok NowUnsubscribed, c1) ->
                 exists d, config_get "notify_origins" c1 = PList d
                           /\ persisted "notify_origins" c1 = PList d
                           /\ no_duplicates d)
  /\ (forall l, config_get "notify_origins" c = PList l ->
                List.Forall (fun x => hashable x = true) l ->
                no_duplicates l ->
                (member (PStr origin) l = false ->
                 exists c1, subscribe origin c = (Ok NowSubscribed, c1)
                            /\ config_get "notify_origins" c1
                               = PList (l ++ [PStr origin])
                            /\ persisted "notify_origins" c1
                               = PList (l ++ [PStr origin]))
                /\ (member (PStr origin) l = true ->
                    exists c1, unsubscribe origin c = (Ok NowUnsubscribed, c1)
                               /\ config_get "notify_origins" c1
                                  = PList (remove_first (PStr origin) l)
                               /\ persisted "notify_origins" c1
                                  = PList (remove_first (PStr origin) l))).
Proof.
  split; [apply subscribe_again|].
  split; [intros r c1; apply subscribe_then_already|].
  split; [intros origins; apply unsubscribe_absent|].
  split; [intros c1; apply written_list_no_duplicates|].
  intros l. apply order_kept.
Qed.

End Handlers.

Definition one_room : store :=
  let m : gmap string pyval := {[ "notify_origins" := PList [PStr "room-7"] ]} in
  Store m m.

Lemma destinations_form_a_set_witness :
  exists c1,
    Subscription.subscribe ListingFacts.no_json "group-2" one_room
    = (Ok NowSubscribed, c1)
    /\ config_get "notify_origins" c1 = PList [PStr "room-7"; PStr "group-2"]
    /\ persisted "notify_origins" c1 = PList [PStr "room-7"; PStr "group-2"].
Proof.
  destruct (destinations_form_a_set ListingFacts.no_json "group-2" one_room)
    as (_ & _ & _ & _ & H).
  destruct (H [PStr "room-7"]) as [Hs _].
  - reflexivity.
  - repeat constructor.
  - simpl. auto.
  - exact (Hs eq_refl).
Defined.

End SubscriptionFacts.

(* ===================================================================== *)
(** ** A small world to run the plugin in                                *)
(* ===================================================================== *)

Module Scenario.

(** The remote service answers with the replies it has queued, in order,
    and refuses the connection once they are used up; every request takes
    two seconds; sleeping moves the clock by the time slept. *)
Record toy_world : Type := Toy {
  clock : Q;
  replies : list http_result;
  stop : bool
}.

Definition advance (d : Q) (w : toy_world) : toy_world :=
  {| clock := Qred (clock w + d); replies := replies w; stop := stop w |}.

Definition toy_post (_ : request) (w : toy_world) : http_result * toy_world :=
  match replies w with
  | [] => (HttpFail (Exn ClientError "Cannot connect to host"), advance 2 w)
  | r :: rest =>
      (r, {| clock := Qred (clock w + 2); replies := rest; stop := stop w |})
  end.

Definition toy_str (v : pyval) : string :=
  match v with
  | PNone => "None"
  | PBool true => "True"
  | PBool false => "False"
  | _ => "<value>"
  end.

Definition toy : env :=
  {| world := toy_world;
     http_post := toy_post;
     time_time := clock;
     sleep := advance;
     send_message := fun _ _ w => (None, w);
     stop_flag := stop;
     json_loads := ListingFacts.no_json;
     float_of_str := fun _ => None;
     int_of_str := fun _ => None;
     str_other := toy_str;
     format_low_balance := fun _ _ _ => "low balance";
     format_recharge := fun _ _ _ _ => "recharged";
     _to_cq_card := fun text => text |}.

(** The balance response of the specification's scenario. *)
Definition meter1 : pyval :=
  PDict [("DeviceType", PInt 1); ("DeviceName", PStr "Meter1");
         ("DeviceBalance", PFloat (31 # 2)); ("DevicePrice", PFloat (3 # 5));
         ("UpdateTime", PStr "2024-01-01 10:00");
         ("IsOnline", PInt 1); ("SwitchStatus", PInt 1)].

Definition water_meter : pyval :=
  PDict [("DeviceType", PInt 2); ("DeviceName", PStr "Water");
         ("IsOnline", PInt 0); ("SwitchStatus", PInt 1)].

Definition balance_body : list (string * pyval) :=
  [("Tag", PInt 1);
   ("Data", PDict [("RoomName", PStr "A101");
                   ("DevicesList", PList [water_meter; meter1])])].

Definition balance_reply : http_result := HttpJson (PDict balance_body) None.

(** The service reports that the session is no longer valid. *)
Definition expired_reply : http_result :=
  HttpJson (PDict [("Tag", PInt 0); ("Message", PStr "è¯·å…ˆç™»å½•")]) None.

Definition login_reply : http_result :=
  HttpJson (PDict [("Tag", PInt 1)]) (Some "abc123").

End Scenario.

(* ===================================================================== *)
(** ** The balance client                                                *)
(* ===================================================================== *)

Module ClientFacts.

Import Client.

(** The error classes of the specification, as the source raises them. *)
Definition ApiError (message : string) : exn :=
  Exn RuntimeError ("api error: " +:+ message).
Definition NoDevicesBound : exn := Exn RuntimeError "no bound devices found".
Definition NoMeterDevice : exn :=
  Exn RuntimeError "no electricity meter device found".

(** [obj.get(k)] on a JSON object, [None] when the key is missing. *)
Definition field (k : string) (obj : pyval) : pyval :=
  match obj with
  | PDict d => default PNone (assoc k d)
  | _ => PNone
  end.

Definition is_object (v : pyval) : bool :=
  match v with PDict _ => true | _ => false end.

Definition is_meter (device : pyval) : bool :=
  eq_int (field "DeviceType" device) 1.

Definition snapshot_of (room device : pyval) : snapshot :=
  {| room_name := room;
     device_name := field "DeviceName" device;
     balance := field "DeviceBalance" device;
     price := field "DevicePrice" device;
     update_time := field "UpdateTime" device;
     is_online := eq_int (field "IsOnline" device) 1;
     switch_status := eq_int (field "SwitchStatus" device) 1 |}.

Section Parse.

Variable E : env.

Lemma find_meter_first (room : pyval) (devices : list pyval) :
  List.Forall (fun device => is_object device = true) devices ->
  find_meter room devices
  = match List.find is_meter devices with
    | Some device => Ok (snapshot_of room device)
    | None => Raise NoMeterDevice
    end.
Proof.
  induction 1 as [|device rest Hobj _ IH]; simpl; [reflexivity|].
  destruct device; try discriminate. unfold is_meter. simpl.
  destruct (eq_int (default PNone (assoc "DeviceType" d)) 1); [reflexivity | exact IH].
Qed.


End Parse.


(** The scenarios of the specification: an empty device list, and
    devices none of which is of type 1. *)
Example parse_no_devices :
  _parse_balance Scenario.toy
    (PDict [("Tag", PInt 1);
            ("Data", PDict [("RoomName", PStr "A101"); ("DevicesList", PList [])])])
  = Raise NoDevicesBound.
Proof. reflexivity. Qed.

Example parse_no_meter :
  _parse_balance Scenario.toy
    (PDict [("Tag", PInt 1);
            ("Data", PDict [("DevicesList", PList [Scenario.water_meter])])])
  = Raise NoMeterDevice.
Proof. reflexivity. Qed.

Example parse_api_error :
  _parse_balance Scenario.toy
    (PDict [("Tag", PInt 0); ("Message", PStr "room not bound")])
  = Raise (ApiError "room not bound").
Proof. reflexivity. Qed.

(** Outside the documented shape of the response the source fails in
    the attribute lookup itself: a [null] data object, a device that is
    not an object. *)
Example parse_data_null :
  _parse_balance Scenario.toy (PDict [("Tag", PInt 1); ("Data", PNone)])
  = Raise (no_attribute PNone "get").
Proof. reflexivity. Qed.

Example parse_device_not_object :
  _parse_balance Scenario.toy
    (PDict [("Tag", PInt 1);
            ("Data", PDict [("DevicesList", PList [PInt 7; Scenario.meter1])])])
  = Raise (no_attribute (PInt 7) "get").
Proof. reflexivity. Qed.

(** *** Retrying after an expired session *)

Definition is_login (ev : event) : bool :=
  match ev with EvLogin _ _ => true | _ => false end.

Definition is_fetch (ev : event) : bool :=
  match ev with EvFetch _ => true | _ => false end.

(** How many login requests, how many balance requests. *)
Definition logins (evs : list event) : nat := length (List.filter is_login evs).
Definition fetches (evs : list event) : nat := length (List.filter is_fetch evs).

Section Retry.

Variable E : env.

(** [s'] continues [s]: the same credentials, and [evs] more events. *)
Definition continues (s s' : state E) (evs : list event) : Prop :=
  trace s' = trace s ++ evs
  /\ account s' = account s /\ password s' = password s.

Lemma continues_refl (s : state E) : continues s s [].
Proof. unfold continues. rewrite app_nil_r. auto. Qed.

Lemma continues_trans {s s1 s2 : state E} {e1 e2 : list event} :
  continues s s1 e1 -> continues s1 s2 e2 -> continues s s2 (e1 ++ e2).
Proof.
  unfold continues. intros (H1 & A1 & P1) (H2 & A2 & P2).
  rewrite H2, H1, app_assoc, A2, A1, P2, P1. auto.
Qed.

Lemma login_effect {s s' : state E} {r : result string} :
  login_and_get_token s = (r, s') ->
  (truthy (account s) && truthy (password s) = false
   /\ s' = s /\ exists e, r = Raise e)
  \/ (truthy (account s) && truthy (password s) = true
      /\ continues s s' [EvLogin (account s) (password s)]
      /\ forall tok, r = Ok tok -> token s' = PStr tok).
Proof.
  unfold login_and_get_token.
  destruct (truthy (account s)), (truthy (password s)); simpl;
    try (intros H; injection H as <- <-; left; eauto).
  destruct (http_post E _ _) as [resp w]. intros H. right.
  split; [reflexivity|].
  destruct resp as [e | body cookie].
  { injection H as <- <-. unfold continues. simpl. split; [auto | discriminate]. }
  destruct (get body "Tag" PNone) as [tag | e].
  2:{ injection H as <- <-. unfold continues. simpl. split; [auto | discriminate]. }
  destruct (eq_int tag 1); simpl in H.
  - destruct cookie as [tok |]; injection H as <- <-; unfold continues; simpl.
    + split; [auto|]. intros tok' Heq. injection Heq as ->. reflexivity.
    + split; [auto | discriminate].
  - destruct (get body "Message" (PStr "unknown error"));
      injection H as <- <-; unfold continues; simpl; split; auto; discriminate.
Qed.

Lemma request_effect {s s' : state E} {r : result pyval} :
  _request_balance s = (r, s') ->
  (s' = s /\ exists e, r = Raise e)
  \/ continues s s' [EvFetch (token s)].
Proof.
  unfold _request_balance. destruct (truthy (token s)); simpl.
  - destruct (http_post E _ _) as [resp w]. intros H. right.
    destruct resp; injection H as <- <-; unfold continues; simpl; auto.
  - intros H. injection H as <- <-. left. eauto.
Qed.

(** The request and parse that both the first attempt and the retry end
    with. *)
Definition fetch_and_parse : M E snapshot :=
  bind (@_request_balance E) (fun data => lift (_parse_balance E data)).

Lemma fetch_and_parse_effect {s s' : state E} {r : result snapshot} :
  fetch_and_parse s = (r, s') ->
  (s' = s /\ exists e, r = Raise e)
  \/ (continues s s' [EvFetch (token s)]
      /\ forall info, r = Ok info ->
           exists body, _request_balance s = (Ok body, s')
                        /\ _parse_balance E body = Ok info).
Proof.
  unfold fetch_and_parse, bind, lift.
  destruct (_request_balance s) as [[body | e] s1] eqn:Hreq; intros H;
    injection H as <- <-;
    (destruct (request_effect Hreq) as [[-> [e' He']] | Hc];
     [left; split; [reflexivity|]; try discriminate; eauto |]).
  - right. split; [exact Hc|]. intros info Hinfo. eauto.
  - right. split; [exact Hc | discriminate].
Qed.

Lemma relogin_effect {s1 s2 : state E} {r : result snapshot} :
  truthy (account s1) = true -> truthy (password s1) = true ->
  relogin_and_retry s1 = (r, s2) ->
  exists evs,
    continues s1 s2 evs /\ logins evs = 1%nat /\ (fetches evs <= 1)%nat
    /\ forall info, r = Ok info ->
         exists tok s_login body,
           login_and_get_token s1 = (Ok tok, s_login)
           /\ _request_balance s_login = (Ok body, s2)
           /\ _parse_balance E body = Ok info
           /\ evs = [EvLogin (account s1) (password s1); EvFetch (PStr tok)].
Proof.
  intros Ha Hp. unfold relogin_and_retry.
  fold fetch_and_parse.
  unfold bind at 1.
  destruct (login_and_get_token s1) as [[tok | e] s_login] eqn:Hlogin.
  - destruct (login_effect Hlogin) as [[Hno _] | (_ & Hc & Htok)];
      [rewrite Ha, Hp in Hno; discriminate|].
    specialize (Htok tok eq_refl). intros Hfp.
    destruct (fetch_and_parse_effect Hfp) as [[-> [e He]] | [Hc2 Hinfo]].
    + exists [EvLogin (account s1) (password s1)]. repeat split; try apply Hc; auto.
      subst r. discriminate.
    + exists ([EvLogin (account s1) (password s1)] ++ [EvFetch (token s_login)]).
      split; [exact (continues_trans Hc Hc2)|]. repeat split; auto.
      intros info Hr. destruct (Hinfo info Hr) as [body [Hreq Hparse]].
      exists tok, s_login, body. rewrite Htok. auto.
  - intros H. injection H as <- <-.
    destruct (login_effect Hlogin) as [[Hno _] | (_ & Hc & _)];
      [rewrite Ha, Hp in Hno; discriminate|].
    exists [EvLogin (account s1) (password s1)]. repeat split; try apply Hc; auto.
    discriminate.
Qed.

Lemma first_attempt_effect {auto_retry : bool} {s s1 : state E} {r : result snapshot} :
  first_attempt auto_retry s = (r, s1) ->
  exists evs, continues s s1 evs /\ (logins evs <= 1)%nat /\ (fetches evs <= 1)%nat.
Proof.
  unfold first_attempt.
  fold fetch_and_parse.
  unfold bind at 1.
  destruct (auto_retry && negb (truthy (token s)) && truthy (account s)
            && truthy (password s)).
  - unfold bind at 1, ret.
    destruct (login_and_get_token s) as [[tok | e] s_login] eqn:Hlogin.
    + destruct (login_effect Hlogin) as [(_ & _ & [e He]) | (_ & Hc & _)];
        [discriminate|].
      intros Hfp. destruct (fetch_and_parse_effect Hfp) as [[-> _] | [Hc2 _]].
      * eexists. split; [exact Hc|]. simpl. auto.
      * eexists. split; [exact (continues_trans Hc Hc2)|]. simpl. auto.
    + intros H. injection H as <- <-.
      destruct (login_effect Hlogin) as [(_ & -> & _) | (_ & Hc & _)].
      * exists []. split; [apply continues_refl | simpl; auto].
      * eexists. split; [exact Hc | simpl; auto].
  - unfold ret. intros Hfp.
    destruct (fetch_and_parse_effect Hfp) as [[-> _] | [Hc2 _]].
    + exists []. split; [apply continues_refl | simpl; auto].
    + eexists. split; [exact Hc2 | simpl; auto].
Qed.

Lemma logins_app (a b : list event) : logins (a ++ b) = (logins a + logins b)%nat.
Proof. unfold logins. rewrite List.filter_app, length_app. reflexivity. Qed.

Lemma fetches_app (a b : list event) : fetches (a ++ b) = (fetches a + fetches b)%nat.
Proof. unfold fetches. rewrite List.filter_app, length_app. reflexivity. Qed.

Lemma get_balance_bounded (auto_retry : bool) (s s' : state E) (r : result snapshot) :
  get_balance auto_retry s = (r, s') ->
  exists evs, trace s' = trace s ++ evs
              /\ (logins evs <= 2)%nat /\ (fetches evs <= 2)%nat.
Proof.
  unfold get_balance.
  destruct (first_attempt auto_retry s) as [[info | exc] s1] eqn:Hfirst;
    destruct (first_attempt_effect Hfirst) as (evs & Hc & Hl & Hf).
  - intros H. injection H as <- <-. exists evs. split; [apply Hc | lia].
  - destruct (auto_retry && truthy (account s1) && truthy (password s1)
              && _looks_like_login_expired (str_of_exn exc)) eqn:Hcond.
    + apply andb_true_iff in Hcond as [Hcond _].
      apply andb_true_iff in Hcond as [Hcond Hp].
      apply andb_true_iff in Hcond as [_ Ha].
      intros Hre. destruct (relogin_effect Ha Hp Hre) as (evs2 & Hc2 & Hl2 & Hf2 & _).
      exists (evs ++ evs2). split; [apply (continues_trans Hc Hc2)|].
      rewrite logins_app, fetches_app. lia.
    + intros H. injection H as <- <-. exists evs. split; [apply Hc | lia].
Qed.


(** Without automatic retry, or without credentials, the call is its
    first attempt. *)
Lemma get_balance_without_retry (auto_retry : bool) (s : state E) :
  auto_retry && truthy (account s) && truthy (password s) = false ->
  get_balance auto_retry s = first_attempt auto_retry s.
Proof.
  intros Hoff. unfold get_balance.
  destruct (first_attempt auto_retry s) as [[info | exc] s1] eqn:Hfirst;
    [reflexivity|].
  destruct (first_attempt_effect Hfirst) as (evs & (_ & Ha & Hp) & _).
  rewrite Ha, Hp, Hoff. reflexivity.
Qed.

End Retry.

(** The client holds a token the service no longer accepts; the service
    then accepts the login and answers the balance request. *)
Definition stale_session : state Scenario.toy :=
  @State Scenario.toy
    (PStr "stale") (PStr "20240001") (PStr "secret") false
    (Store ∅ ∅)
    (Scenario.Toy 1000
       [Scenario.expired_reply; Scenario.login_reply; Scenario.balance_reply]
       false)
    [].

Definition session_expired : exn :=
  Exn RuntimeError ("api error: " +:+ "è¯·å…ˆç™»å½•").

Example stale_session_first_attempt :
  fst (first_attempt true stale_session) = Raise session_expired
  /\ trace (snd (first_attempt true stale_session)) = [EvFetch (PStr "stale")]
  /\ _looks_like_login_expired (str_of_exn session_expired) = true.
Proof. vm_compute. auto. Qed.

Example stale_session_recovers :
  fst (get_balance true stale_session)
  = Ok (snapshot_of (PStr "A101") Scenario.meter1)
  /\ trace (snd (get_balance true stale_session))
     = [EvFetch (PStr "stale");
        EvLogin (PStr "20240001") (PStr "secret");
        EvFetch (PStr "abc123")]
  /\ persisted "electricity_token" (conf (snd (get_balance true stale_session)))
     = PStr "abc123".
Proof. vm_compute. auto. Qed.


End ClientFacts.

(* ===================================================================== *)
(** ** The monitor loop                                                  *)
(* ===================================================================== *)

Module MonitorFacts.

Import Client Monitor.

(** From [c] to [c'] nothing wrote [k]: it reads the same in memory, and
    the disk holds for it what it held, or what memory held. *)
Definition untouched (k : string) (c c' : store) : Prop :=
  mem c' !! k = mem c !! k
  /\ (disk c' !! k = disk c !! k \/ disk c' !! k = mem c !! k).

Lemma untouched_refl (k : string) (c : store) : untouched k c c.
Proof. unfold untouched. auto. Qed.

Lemma untouched_trans (k : string) (c c1 c2 : store) :
  untouched k c c1 -> untouched k c1 c2 -> untouched k c c2.
Proof.
  unfold untouched. intros [M1 D1] [M2 D2]. split; [congruence|].
  destruct D2 as [D2 | D2]; [destruct D1; [left | right]; congruence|].
  right. congruence.
Qed.

Lemma untouched_write (k k' : string) (v : pyval) (c : store) :
  k <> k' -> untouched k c (save_config (config_set k' v c)).
Proof.
  intros Hne. unfold untouched, save_config, config_set. simpl.
  rewrite lookup_insert_ne by congruence. auto.
Qed.

Lemma untouched_persisted (k : string) (c c' : store) :
  disk c = mem c -> untouched k c c' ->
  persisted k c' = persisted k c /\ config_get k c' = config_get k c.
Proof.
  unfold untouched, persisted, config_get. intros Hsync [M [D | D]];
    rewrite M, D, ?Hsync; auto.
Qed.

Section Loop.

Variable E : env.

Lemma login_conf {s s' : state E} {r : result string} {k : string} :
  k <> "electricity_token" ->
  login_and_get_token s = (r, s') -> untouched k (conf s) (conf s').
Proof.
  intros Hne. unfold login_and_get_token.
  destruct (negb (truthy (account s)) || negb (truthy (password s)));
    [intros H; injection H as <- <-; apply untouched_refl|].
  destruct (http_post E _ _) as [resp w].
  destruct resp as [e | body cookie];
    [intros H; injection H as <- <-; apply untouched_refl|].
  destruct (get body "Tag" PNone) as [tag | e];
    [|intros H; injection H as <- <-; apply untouched_refl].
  destruct (negb (eq_int tag 1)).
  - destruct (get body "Message" (PStr "unknown error"));
      intros H; injection H as <- <-; apply untouched_refl.
  - destruct cookie; intros H; injection H as <- <-; simpl;
      [apply untouched_write; exact Hne | apply untouched_refl].
Qed.

Lemma request_conf {s s' : state E} {r : result pyval} :
  _request_balance s = (r, s') -> conf s' = conf s.
Proof.
  unfold _request_balance. destruct (negb (truthy (token s)));
    [intros H; injection H as <- <-; reflexivity|].
  destruct (http_post E _ _) as [resp w].
  destruct resp; intros H; injection H as <- <-; reflexivity.
Qed.

Lemma relogin_conf {s s' : state E} {r : result snapshot} {k : string} :
  k <> "electricity_token" ->
  relogin_and_retry s = (r, s') -> untouched k (conf s) (conf s').
Proof.
  intros Hne. unfold relogin_and_retry, bind, lift.
  destruct (login_and_get_token s) as [[tok | e] s1] eqn:Hl.
  - destruct (_request_balance s1) as [[body | e] s2] eqn:Hr;
      intros H; injection H as <- <-;
      rewrite (request_conf Hr); apply (login_conf Hne Hl).
  - intros H. injection H as <- <-. apply (login_conf Hne Hl).
Qed.

Lemma first_attempt_conf {b : bool} {s s' : state E} {r : result snapshot}
      {k : string} :
  k <> "electricity_token" ->
  first_attempt b s = (r, s') -> untouched k (conf s) (conf s').
Proof.
  intros Hne. unfold first_attempt.
  destruct (b && negb (truthy (token s)) && truthy (account s)
            && truthy (password s)); unfold bind, ret, lift.
  - destruct (login_and_get_token s) as [[tok | e] s1] eqn:Hl.
    + destruct (_request_balance s1) as [[body | e] s2] eqn:Hr;
        intros H; injection H as <- <-;
        rewrite (request_conf Hr); apply (login_conf Hne Hl).
    + intros H. injection H as <- <-. apply (login_conf Hne Hl).
  - destruct (_request_balance s) as [[body | e] s2] eqn:Hr;
      intros H; injection H as <- <-;
      rewrite (request_conf Hr); apply untouched_refl.
Qed.

Lemma get_balance_conf {b : bool} {s s' : state E} {r : result snapshot}
      {k : string} :
  k <> "electricity_token" ->
  get_balance b s = (r, s') -> untouched k (conf s) (conf s').
Proof.
  intros Hne. unfold get_balance.
  destruct (first_attempt b s) as [[info | exc] s1] eqn:Hf.
  - intros H. injection H as <- <-. apply (first_attempt_conf Hne Hf).
  - destruct (b && truthy (account s1) && truthy (password s1)
              && _looks_like_login_expired (str_of_exn exc)).
    + intros Hre. eapply untouched_trans;
        [apply (first_attempt_conf Hne Hf) | apply (relogin_conf Hne Hre)].
    + intros H. injection H as <- <-. apply (first_attempt_conf Hne Hf).
Qed.

Lemma get_balance_keeps {b : bool} {s s' : state E} {r : result snapshot} :
  get_balance b s = (r, s') ->
  untouched "last_balance" (conf s) (conf s')
  /\ untouched "last_check_ts" (conf s) (conf s').
Proof.
  intros H. split; eapply get_balance_conf; try exact H; discriminate.
Qed.

Lemma send_conf (origins : list pyval) (text : string) (card : bool)
      (s : state E) :
  conf (_send_to_origins origins text card s) = conf s.
Proof.
  revert s. induction origins as [|o rest IH]; intros s; simpl; [reflexivity|].
  destruct (send_message E _ _ _) as [r w]. rewrite IH. reflexivity.
Qed.

(** What the end of the [try] block writes. *)
Definition recorded (bal now : Q) (c : store) : Prop :=
  config_get "last_balance" c = PFloat bal
  /\ persisted "last_balance" c = PFloat bal
  /\ config_get "last_check_ts" c = PFloat now
  /\ persisted "last_check_ts" c = PFloat now.

Lemma recorded_after_write (bal now : Q) (c : store) :
  recorded bal now
    (save_config
       (config_set "last_check_ts" (PFloat now)
          (config_set "last_balance" (PFloat bal) c))).
Proof.
  unfold recorded, config_get, persisted, save_config, config_set. simpl.
  rewrite lookup_insert_eq, lookup_insert_ne by discriminate.
  rewrite lookup_insert_eq. auto.
Qed.

Lemma check_body_conf {origins : list pyval} {now : Q} {s s' : state E}
      {r : result Q} :
  check_body origins now s = (r, s') ->
  match r with
  | Ok bal => recorded bal now (conf s')
  | Raise _ =>
      untouched "last_balance" (conf s) (conf s')
      /\ untouched "last_check_ts" (conf s) (conf s')
  end.
Proof.
  unfold check_body.
  destruct (get_balance _ s) as [[info | e] s1] eqn:Hg.
  2:{ intros H. injection H as <- <-. exact (get_balance_keeps Hg). }
  pose proof (get_balance_keeps Hg) as Hu.
  destruct (to_float _ (balance info)) as [bal | e];
    [|intros H; injection H as <- <-; exact Hu].
  destruct (to_float _ (threshold_of (conf s1))) as [threshold | e];
    [|intros H; injection H as <- <-; exact Hu].
  set (s2 := if Qltb bal threshold then _ else s1).
  assert (Hs2 : conf s2 = conf s1).
  { subst s2. destruct (Qltb bal threshold); [apply send_conf | reflexivity]. }
  destruct (negb (is_none (_get_config "last_balance" PNone (conf s1)))).
  - destruct (to_float _ _) as [last | e].
    + destruct (Qltb last bal); intros H; injection H as <- <-; simpl;
        apply recorded_after_write.
    + intros H. injection H as <- <-. rewrite Hs2. exact Hu.
  - intros H. injection H as <- <-. simpl. apply recorded_after_write.
Qed.

Lemma check_stage_conf {now : Q} {s s' : state E} {o : outcome} :
  check_stage now s = (o, s') ->
  match o with
  | Checked bal => recorded bal now (conf s')
  | CheckFailed _ =>
      untouched "last_balance" (conf s) (conf s')
      /\ untouched "last_check_ts" (conf s) (conf s')
  | Waited _ => False
  | _ => conf s' = conf s
  end.
Proof.
  unfold check_stage.
  destruct (truthy (_get_config "auto_check" _ _));
    [|intros H; injection H as <- <-; reflexivity].
  destruct (_normalize_list _ _) as [origins | e];
    [|intros H; injection H as <- <-; reflexivity].
  destruct (truthy (PList origins));
    [|intros H; injection H as <- <-; reflexivity].
  destruct (check_body origins now s) as [[bal | exc] s1] eqn:Hb;
    intros H; injection H as <- <-; pose proof (check_body_conf Hb) as Hc.
  - exact Hc.
  - rewrite send_conf. exact Hc.
Qed.

Lemma check_then_sleep_conf {minutes : Z} {now : Q} {s s' : state E}
      {o : outcome} :
  check_then_sleep minutes now s = (o, s') ->
  match o with
  | Checked bal => recorded bal now (conf s')
  | CheckFailed _ =>
      untouched "last_balance" (conf s) (conf s')
      /\ untouched "last_check_ts" (conf s) (conf s')
  | Waited _ => False
  | _ => conf s' = conf s
  end.
Proof.
  unfold check_then_sleep.
  destruct (check_stage now s) as [o1 s1] eqn:Hc.
  pose proof (check_stage_conf Hc) as H1.
  destruct o1; intros H; injection H as <- <-; simpl; exact H1.
Qed.

Lemma Qltb_lt (a b : Q) : Qltb a b = true <-> (a < b)%Q.
Proof.
  unfold Qltb. rewrite negb_true_iff. split.
  - intros H. apply Qnot_le_lt. intros Hle.
    apply Qle_bool_iff in Hle. congruence.
  - intros H. destruct (Qle_bool b a) eqn:Hle; [|reflexivity].
    apply Qle_bool_iff in Hle. exfalso. exact (Qlt_not_le _ _ H Hle).
Qed.

Lemma Qle_bool_false (a b : Q) : Qle_bool a b = false <-> (b < a)%Q.
Proof.
  rewrite <- Qltb_lt. unfold Qltb. rewrite negb_true_iff. reflexivity.
Qed.

(** The clock as the iteration samples it, and what it reads as the time
    of the last check. *)
Definition now_of (s : state E) : Q := time_time E (now_world s).

Definition last_check_of (s : state E) : pyval :=
  _get_config "last_check_ts" PNone (conf s).

(** The stored time of the last check is a number ahead of the clock. *)
Definition timestamp_in_future (s : state E) : bool :=
  negb (is_none (last_check_of s))
  && match to_float (float_of_str E) (last_check_of s) with
     | Ok last => negb (Qle_bool last (now_of s))
     | Raise _ => false
     end.

(** The configuration with the time of the last check cleared and saved. *)
Definition cleared (s : state E) : state E :=
  with_conf (save_config (config_set "last_check_ts" PNone (conf s))) s.

(** The configuration when the check stage begins. *)
Definition at_check (s : state E) : store :=
  if timestamp_in_future s then conf (cleared s) else conf s.

Lemma iteration_conf {s s' : state E} {o : outcome} :
  monitor_iteration s = (o, s') ->
  match o with
  | Checked bal => recorded bal (now_of s) (conf s')
  | CheckFailed _ =>
      untouched "last_balance" (at_check s) (conf s')
      /\ untouched "last_check_ts" (at_check s) (conf s')
  | _ => True
  end.
Proof.
  unfold monitor_iteration, at_check, timestamp_in_future, last_check_of, now_of.
  destruct (interval_minutes_of E (conf s)) as [minutes | e];
    [|intros H; injection H as <- <-; exact I].
  destruct (negb (is_none (_get_config "last_check_ts" PNone (conf s)))); simpl.
  - destruct (to_float _ _) as [last | e];
      [|intros H; injection H as <- <-; exact I].
    destruct (Qle_bool last _); simpl.
    + destruct (Qltb _ _); [intros H; injection H as <- <-; exact I|].
      intros H. pose proof (check_then_sleep_conf H) as Hc.
      destruct o; auto.
    + intros H. pose proof (check_then_sleep_conf H) as Hc.
      destruct o; auto.
  - intros H. pose proof (check_then_sleep_conf H) as Hc. destruct o; auto.
Qed.

Lemma at_check_synced (s : state E) :
  disk (conf s) = mem (conf s) -> disk (at_check s) = mem (at_check s).
Proof.
  unfold at_check. destruct (timestamp_in_future s); [reflexivity | auto].
Qed.

Lemma at_check_values (s : state E) :
  disk (conf s) = mem (conf s) ->
  persisted "last_balance" (at_check s) = persisted "last_balance" (conf s)
  /\ config_get "last_balance" (at_check s) = config_get "last_balance" (conf s)
  /\ persisted "last_check_ts" (at_check s)
     = (if timestamp_in_future s then PNone
        else persisted "last_check_ts" (conf s))
  /\ config_get "last_check_ts" (at_check s)
     = (if timestamp_in_future s then PNone
        else config_get "last_check_ts" (conf s)).
Proof.
  intros Hsync. unfold at_check. destruct (timestamp_in_future s); [|auto].
  unfold persisted, config_get, cleared, save_config, config_set. simpl.
  rewrite lookup_insert_eq, lookup_insert_ne, Hsync by discriminate. auto.
Qed.

(** C4, amended: when the check of an iteration fails, the persisted
    [last_balance] is what it was before the iteration, and the persisted
    [last_check_ts] is what it was before the iteration unless that lay in
    the future, in which case it is the cleared value which the iteration
    saved before the check; when the check succeeds both are persisted,
    whether or not a notification was sent.  The configuration is taken
    to be saved when the iteration starts. *)
Theorem failed_check_keeps_state (s : state E) :
  (forall e s',
      monitor_iteration s = (CheckFailed e, s') ->
      disk (conf s) = mem (conf s) ->
      persisted "last_balance" (conf s') = persisted "last_balance" (conf s)
      /\ config_get "last_balance" (conf s') = config_get "last_balance" (conf s)
      /\ persisted "last_check_ts" (conf s')
         = (if timestamp_in_future s then PNone
            else persisted "last_check_ts" (conf s))
      /\ config_get "last_check_ts" (conf s')
         = (if timestamp_in_future s then PNone
            else config_get "last_check_ts" (conf s)))
  /\ (forall bal s',
        monitor_iteration s = (Checked bal, s') ->
        persisted "last_balance" (conf s') = PFloat bal
        /\ persisted "last_check_ts" (conf s') = PFloat (now_of s)).
Proof.
  split.
  - intros e s' Hit Hsync. destruct (iteration_conf Hit) as [Hb Ht].
    destruct (at_check_values s Hsync) as (A1 & A2 & A3 & A4).
    destruct (untouched_persisted _ _ _ (at_check_synced s Hsync) Hb) as [B1 B2].
    destruct (untouched_persisted _ _ _ (at_check_synced s Hsync) Ht) as [T1 T2].
    rewrite B1, B2, T1, T2. auto.
  - intros bal s' Hit. destruct (iteration_conf Hit) as (_ & Hb & _ & Ht). auto.
Qed.

(** C9: after a successful check the persisted [last_check_ts] is the
    clock reading taken at the top of the iteration, in the world as it
    was before the balance request and the deliveries. *)
Theorem check_records_start_time (s s' : state E) (bal : Q) :
  monitor_iteration s = (Checked bal, s') ->
  persisted "last_check_ts" (conf s') = PFloat (time_time E (now_world s))
  /\ config_get "last_check_ts" (conf s') = PFloat (time_time E (now_world s)).
Proof.
  intros Hit. destruct (iteration_conf Hit) as (_ & _ & Hm & Hd). auto.
Qed.

Lemma interval_minutes_positive (c : store) (minutes : Z) :
  interval_minutes_of E c = Ok minutes -> (1 <= minutes)%Z.
Proof.
  unfold interval_minutes_of. destruct (to_int _ _) as [z | e].
  - intros H. injection H as <-. lia.
  - destruct (_ || _); intros H; [injection H as <-; lia | discriminate].
Qed.

Lemma due_wait {s : state E} {minutes : Z} {last : Q} :
  interval_minutes_of E (conf s) = Ok minutes ->
  is_none (last_check_of s) = false ->
  to_float (float_of_str E) (last_check_of s) = Ok last ->
  (last <= now_of s)%Q ->
  (now_of s - last < inject_Z (minutes * 60))%Q ->
  monitor_iteration s
  = (Waited (inject_Z (minutes * 60) - (now_of s - last)),
     do_sleep (inject_Z (minutes * 60) - (now_of s - last)) s).
Proof.
  unfold last_check_of, now_of. intros Hi Hn Hf Hle Hlt.
  unfold monitor_iteration. rewrite Hi, Hn, Hf. simpl.
  apply Qle_bool_iff in Hle. rewrite Hle.
  apply Qltb_lt in Hlt. rewrite Hlt. reflexivity.
Qed.


(** Started half an interval after the last check, the iteration is in
    the case above. *)
Corollary half_interval_wait (s : state E) (minutes : Z) (last : Q) :
  interval_minutes_of E (conf s) = Ok minutes ->
  is_none (last_check_of s) = false ->
  to_float (float_of_str E) (last_check_of s) = Ok last ->
  (last == now_of s - inject_Z (minutes * 60) / 2)%Q ->
  exists remaining,
    fst (monitor_iteration s) = Waited remaining
    /\ (remaining == inject_Z (minutes * 60) / 2)%Q.
Proof.
  intros Hi Hn Hf Hhalf.
  assert (0 < inject_Z (minutes * 60))%Q.
  { pose proof (interval_minutes_positive _ _ Hi) as Hpos.
    change 0%Q with (inject_Z 0). rewrite <- Zlt_Qlt. lia. }
  assert (Hh : (last == now_of s - inject_Z (minutes * 60) * (1 # 2))%Q)
    by (rewrite Hhalf; field).
  assert (Hle : (last <= now_of s)%Q) by (rewrite Hh; lra).
  assert (Hlt : (now_of s - last < inject_Z (minutes * 60))%Q)
    by (rewrite Hh; lra).
  rewrite (due_wait Hi Hn Hf Hle Hlt). eexists. split; [reflexivity|].
  rewrite Hhalf. field.
Qed.

Lemma fst_check_then_sleep (minutes : Z) (now : Q) (s : state E) :
  fst (check_then_sleep minutes now s) = fst (check_stage now s).
Proof.
  unfold check_then_sleep. destruct (check_stage now s) as [o s1].
  destruct o; reflexivity.
Qed.

Lemma config_get_cleared (k : string) (s : state E) :
  k <> "last_check_ts" ->
  config_get k (conf (cleared s)) = config_get k (conf s).
Proof.
  intros Hne. unfold config_get, cleared, save_config, config_set. simpl.
  rewrite lookup_insert_ne by congruence. reflexivity.
Qed.

(** C6: with a stored time of the last check that is ahead of the clock,
    the iteration clears it, saves the cleared value, and goes on to the
    check stage of the same iteration with the clock where it was: it
    does not take the waiting branch, and when checks are enabled and
    somebody is subscribed the balance is requested at once. *)
Theorem future_timestamp_is_cleared (s : state E) (minutes : Z) (last : Q) :
  interval_minutes_of E (conf s) = Ok minutes ->
  is_none (last_check_of s) = false ->
  to_float (float_of_str E) (last_check_of s) = Ok last ->
  (now_of s < last)%Q ->
  monitor_iteration s = check_then_sleep minutes (now_of s) (cleared s)
  /\ config_get "last_check_ts" (conf (cleared s)) = PNone
  /\ persisted "last_check_ts" (conf (cleared s)) = PNone
  /\ now_world (cleared s) = now_world s
  /\ trace (cleared s) = trace s
  /\ (forall secs, fst (monitor_iteration s) <> Waited secs)
  /\ (forall origins,
        truthy (_get_config "auto_check" (PBool true) (conf s)) = true ->
        _normalize_list (json_loads E) (config_get "notify_origins" (conf s))
        = Ok origins ->
        origins <> [] ->
        fst (monitor_iteration s)
        = match fst (check_body origins (now_of s) (cleared s)) with
          | Ok bal => Checked bal
          | Raise exc => CheckFailed exc
          end).
Proof.
  intros Hi Hn Hf Hlt.
  assert (Hit : monitor_iteration s
                = check_then_sleep minutes (now_of s) (cleared s)).
  { unfold monitor_iteration. unfold last_check_of, now_of in *.
    rewrite Hi, Hn, Hf. simpl.
    apply Qle_bool_false in Hlt. rewrite Hlt. reflexivity. }
  split; [exact Hit|].
  split; [unfold config_get, cleared; simpl; rewrite lookup_insert_eq; reflexivity|].
  split; [unfold persisted, cleared; simpl; rewrite lookup_insert_eq; reflexivity|].
  split; [reflexivity|]. split; [reflexivity|]. split.
  - intros secs Hw. rewrite Hit in Hw.
    destruct (check_then_sleep minutes (now_of s) (cleared s)) as [o s1] eqn:Hc.
    pose proof (check_then_sleep_conf Hc) as Hno. simpl in Hw. subst o.
    exact Hno.
  - intros origins Hauto Horigins Hne.
    rewrite Hit, fst_check_then_sleep. unfold check_stage, _get_config.
    rewrite !config_get_cleared by discriminate.
    unfold _get_config in Hauto. rewrite Hauto, Horigins.
    destruct origins as [|o rest]; [contradiction|]. cbn [truthy].
    destruct (check_body _ _ _) as [[bal | exc] s1]; reflexivity.
Qed.

End Loop.

Arguments now_of {E} s.
Arguments last_check_of {E} s.
Arguments timestamp_in_future {E} s.
Arguments cleared {E} s.

(** *** Runs in the small world *)

Import Scenario.

(** One subscriber, and the settings in [extra]; saved. *)
Definition settings (extra : list (string * pyval)) : store :=
  let m : gmap string pyval :=
    list_to_map (("notify_origins", PList [PStr "room-7"]) :: extra) in
  Store m m.

(** The plugin at time 10000 with a stale token and the replies the
    service will give. *)
Definition plugin (c : store) (replies : list http_result) : state toy :=
  @State toy (PStr "stale") (PStr "20240001") (PStr "secret") false c
         (Toy 10000 replies false) [].

(** Last check half an hour ago, interval one hour. *)
Definition half_way : state toy :=
  plugin (settings [("last_check_ts", PFloat 8200)]) [balance_reply].

(** Last check 10000 seconds ahead of the clock. *)
Definition skewed : state toy :=
  plugin (settings [("last_check_ts", PFloat 20000);
                    ("last_balance", PFloat 10)]) [balance_reply].

(** The same, and the service cannot be reached. *)
Definition skewed_offline : state toy :=
  plugin (settings [("last_check_ts", PFloat 20000);
                    ("last_balance", PFloat 10)]) [].

(** Last check long ago, and the service cannot be reached. *)
Definition overdue_offline : state toy :=
  plugin (settings [("last_check_ts", PFloat 1000);
                    ("last_balance", PFloat 10)]) [].

(** Never checked; the service answers. *)
Definition first_run : state toy :=
  plugin (settings [("last_balance", PFloat 10)]) [balance_reply].

(** C4, as stated, fails: the check of this iteration fails, and the
    persisted [last_check_ts] is not what it was before the iteration. *)
Lemma failed_check_counterexample :
  fst (monitor_iteration skewed_offline)
  = CheckFailed (Exn ClientError "Cannot connect to host")
  /\ disk (conf skewed_offline) = mem (conf skewed_offline)
  /\ persisted "last_check_ts" (conf skewed_offline) = PFloat 20000
  /\ persisted "last_check_ts" (conf (snd (monitor_iteration skewed_offline)))
     = PNone.
Proof. vm_compute. auto. Qed.

Lemma failed_check_keeps_state_witness :
  persisted "last_balance" (conf (snd (monitor_iteration overdue_offline)))
  = PFloat 10
  /\ persisted "last_check_ts" (conf (snd (monitor_iteration overdue_offline)))
     = PFloat 1000.
Proof.
  destruct (failed_check_keeps_state toy overdue_offline) as [H _].
  destruct (H (Exn ClientError "Cannot connect to host")
              (snd (monitor_iteration overdue_offline)))
    as (H1 & _ & H2 & _).
  - vm_compute. reflexivity.
  - reflexivity.
  - split; [exact H1 | exact H2].
Defined.

Lemma check_records_start_time_witness :
  persisted "last_check_ts" (conf (snd (monitor_iteration first_run)))
  = PFloat 10000
  /\ config_get "last_check_ts" (conf (snd (monitor_iteration first_run)))
     = PFloat 10000.
Proof.
  apply (check_records_start_time toy first_run
           (snd (monitor_iteration first_run)) (31 # 2)).
  vm_compute. reflexivity.
Defined.

(** By the end of that iteration the clock has moved on: the request took
    two seconds and the loop slept for an hour. *)
Example first_run_clock_moved :
  time_time toy (now_world (snd (monitor_iteration first_run))) = 13602%Q
  /\ trace (snd (monitor_iteration first_run))
     = [EvFetch (PStr "stale");
        EvSend (PStr "room-7") "low balance" true;
        EvSend (PStr "room-7") "recharged" true;
        EvSleep 3600].
Proof. vm_compute. auto. Qed.


Lemma future_timestamp_is_cleared_witness :
  fst (monitor_iteration skewed) = Checked (31 # 2)
  /\ persisted "last_check_ts" (conf (cleared skewed)) = PNone.
Proof.
  destruct (future_timestamp_is_cleared toy skewed 60 20000)
    as (_ & _ & Hd & _ & _ & _ & Hcheck).
  - reflexivity.
  - reflexivity.
  - reflexivity.
  - reflexivity.
  - split; [|exact Hd].
    rewrite (Hcheck [PStr "room-7"] eq_refl eq_refl ltac:(discriminate)).
    vm_compute. reflexivity.
Defined.

End MonitorFacts.

(* ===================================================================== *)
(** ** The registration of the loop task                                 *)
(* ===================================================================== *)

Module SingletonFacts.

Import Singleton.

(** The two globals are set and cleared together, and what they name
    exists. *)
Record well_formed (p : process) : Prop := WellFormed {
  registry_coupled :
    _GLOBAL_MONITOR_TASK p = None <-> _GLOBAL_MONITOR_OWNER p = None;
  owner_exists :
    forall o, _GLOBAL_MONITOR_OWNER p = Some o -> o < length (instances p);
  task_exists :
    forall t, _GLOBAL_MONITOR_TASK p = Some t -> t < length (tasks p)
}.

Arguments registry_coupled {p} _.
Arguments owner_exists {p} _ o _.
Arguments task_exists {p} _ t _.

Lemma wf_boot : well_formed boot.
Proof. constructor; simpl; [tauto | discriminate | discriminate]. Qed.

Lemma cancel_length (t : nat) (p : process) :
  length (tasks (cancel t p)) = length (tasks p).
Proof.
  unfold cancel. destruct (tasks p !! t) as [[b|]|]; simpl; auto.
  apply length_insert.
Qed.

Lemma wf_cancel (t : nat) (p : process) : well_formed p -> well_formed (cancel t p).
Proof.
  intros [c o k]. constructor.
  - unfold cancel. destruct (tasks p !! t) as [[b|]|]; simpl; auto.
  - unfold cancel. destruct (tasks p !! t) as [[b|]|]; simpl; auto.
  - intros t'. rewrite cancel_length.
    unfold cancel. destruct (tasks p !! t) as [[b|]|]; simpl; auto.
Qed.

Lemma wf_set_stopped (i : nat) (b : bool) (p : process) :
  well_formed p -> well_formed (set_stopped i b p).
Proof.
  intros [c o k]. constructor; simpl; auto.
  intros o'. rewrite length_alter. auto.
Qed.

Lemma wf_set_monitor_task (i : nat) (t : option nat) (p : process) :
  well_formed p -> well_formed (set_monitor_task i t p).
Proof.
  intros [c o k]. constructor; simpl; auto.
  intros o'. rewrite length_alter. auto.
Qed.

Lemma wf_ensure (i : nat) (p : process) :
  i < length (instances p) ->
  well_formed p -> well_formed (_ensure_monitor_task i p).
Proof.
  intros Hi Hwf. unfold _ensure_monitor_task.
  destruct (has_running_task i p); [exact Hwf|].
  constructor; simpl.
  - split; discriminate.
  - intros o [= <-]. rewrite length_alter. exact Hi.
  - intros t [= <-]. rewrite length_app. simpl. lia.
Qed.

Lemma wf_restart (i : nat) (p : process) :
  i < length (instances p) ->
  well_formed p -> well_formed (_restart_monitor_task i p).
Proof.
  intros Hi Hwf. unfold _restart_monitor_task. apply wf_ensure.
  - simpl. rewrite !length_alter.
    destruct (has_running_task i p); [|exact Hi].
    unfold cancel. destruct (tasks p !! n) as [[b|]|]; exact Hi.
  - apply wf_set_stopped, wf_set_monitor_task.
    destruct (has_running_task i p); [apply wf_cancel|]; exact Hwf.
Qed.

Lemma wf_allocate (p : process) : well_formed p -> well_formed (allocate p).
Proof.
  intros [c o k]. constructor; simpl; auto.
  intros o' Ho. rewrite length_app. specialize (o o' Ho). lia.
Qed.

Lemma wf_take_over (p : process) : well_formed p -> well_formed (take_over p).
Proof.
  intros Hwf. unfold take_over.
  destruct (_GLOBAL_MONITOR_TASK p) as [t|]; [|exact Hwf].
  destruct (done t p); [exact Hwf|]. apply wf_cancel.
  destruct (_GLOBAL_MONITOR_OWNER p); [apply wf_set_stopped|]; exact Hwf.
Qed.

Lemma take_over_instances_length (p : process) :
  length (instances (take_over p)) = length (instances p).
Proof.
  unfold take_over. destruct (_GLOBAL_MONITOR_TASK p) as [t|]; [|reflexivity].
  destruct (done t p); [reflexivity|].
  unfold cancel.
  destruct (_GLOBAL_MONITOR_OWNER p) as [o|]; simpl;
    destruct (tasks p !! t) as [[b|]|]; simpl; rewrite ?length_alter; reflexivity.
Qed.

Lemma wf_init (auto_check : bool) (p : process) :
  well_formed p -> well_formed (__init__ auto_check p).
Proof.
  intros Hwf. unfold __init__.
  pose proof (wf_take_over _ (wf_allocate _ Hwf)) as Hq.
  destruct auto_check; [|exact Hq]. apply wf_ensure; [|exact Hq].
  rewrite take_over_instances_length. simpl. rewrite length_app. simpl. lia.
Qed.

Lemma wf_unload_cancel (i : nat) (p : process) :
  well_formed p -> well_formed (on_unload_cancel i p).
Proof.
  intros Hwf. unfold on_unload_cancel.
  destruct (has_running_task i _); [apply wf_cancel|]; apply wf_set_stopped, Hwf.
Qed.

Lemma wf_unload_release (i : nat) (p : process) :
  well_formed p -> well_formed (on_unload_release i p).
Proof.
  intros Hwf. unfold on_unload_release. case_decide; [|exact Hwf].
  constructor; simpl; [tauto | discriminate | discriminate].
Qed.

Lemma wf_task_exit (t : nat) (p : process) :
  well_formed p -> well_formed (task_exit t p).
Proof.
  intros [c o k]. unfold task_exit.
  destruct (tasks p !! t) as [[b|]|]; constructor; simpl; auto.
  intros t' Ht'. rewrite length_insert. auto.
Qed.

Lemma wf_run (st : step) (p : process) : well_formed p -> well_formed (run st p).
Proof.
  intros Hwf. destruct st as [ac | i | i ac | i | i | t]; simpl;
    unfold on_instance; try destruct ac; try case_decide;
    auto using wf_init, wf_ensure, wf_restart, wf_unload_cancel,
               wf_unload_release, wf_task_exit.
Qed.

Lemma run_all_snoc (l : list step) (st : step) (p : process) :
  run_all (l ++ [st]) p = run st (run_all l p).
Proof. unfold run_all. rewrite fold_left_app. reflexivity. Qed.

Lemma reachable_wf (p : process) : reachable p -> well_formed p.
Proof.
  intros [l ->]. induction l as [|st l IH] using rev_ind.
  - exact wf_boot.
  - rewrite run_all_snoc. apply wf_run, IH.
Qed.

(** *** Taking over at creation *)

Lemma done_allocate (t : nat) (p : process) : done t (allocate p) = done t p.
Proof. reflexivity. Qed.

Lemma pending_of_not_done (t : nat) (p : process) :
  t < length (tasks p) -> done t p = false ->
  exists b, tasks p !! t = Some (Pending b).
Proof.
  intros Hlt Hd. unfold done in Hd.
  destruct (lookup_lt_is_Some_2 _ _ Hlt) as [x Hx]. rewrite Hx in Hd.
  destruct x as [b|]; [eauto | discriminate].
Qed.

Lemma take_over_active {p : process} {t o : nat} :
  well_formed p ->
  _GLOBAL_MONITOR_TASK p = Some t -> done t p = false ->
  _GLOBAL_MONITOR_OWNER p = Some o ->
  take_over (allocate p)
  = set_tasks (<[t := Pending true]> (tasks p))
      (set_stopped o true (allocate p)).
Proof.
  intros Hwf Ht Hd Ho. unfold take_over. simpl. rewrite Ht, Ho.
  rewrite done_allocate, Hd. unfold cancel. simpl.
  destruct (pending_of_not_done t p (task_exists Hwf t Ht) Hd) as [b ->].
  reflexivity.
Qed.

Lemma take_over_effect (p : process) (t : nat) :
  well_formed p -> registered_active t p ->
  exists o,
    _GLOBAL_MONITOR_OWNER p = Some o
    /\ let q := take_over (allocate p) in
       stopped_of o q = true
       /\ tasks q !! t = Some (Pending true)
       /\ _GLOBAL_MONITOR_TASK q = Some t
       /\ (forall auto_check,
             __init__ auto_check p
             = if auto_check
               then _ensure_monitor_task (length (instances p)) q else q)
       /\ registered_active (length (tasks p)) (__init__ true p)
       /\ _GLOBAL_MONITOR_OWNER (__init__ true p) = Some (length (instances p))
       /\ live t (__init__ true p) = false.
Proof.
  intros Hwf [Ht Hd].
  destruct (_GLOBAL_MONITOR_OWNER p) as [o|] eqn:Ho.
  2:{ apply (registry_coupled Hwf) in Ho. congruence. }
  exists o. split; [reflexivity|].
  pose proof (owner_exists Hwf o Ho) as Hlt_o.
  pose proof (task_exists Hwf t Ht) as Hlt_t.
  unfold __init__. rewrite (take_over_active Hwf Ht Hd Ho).
  set (q := set_tasks _ _).
  assert (Hq_t : tasks q !! t = Some (Pending true)).
  { subst q. simpl. apply list_lookup_insert_eq. exact Hlt_t. }
  assert (Hnew : has_running_task (length (instances p)) q = None).
  { unfold has_running_task, monitor_task_of. subst q. simpl.
    rewrite list_lookup_alter_ne by lia.
    rewrite list_lookup_middle by reflexivity. reflexivity. }
  assert (Hlen : length (tasks q) = length (tasks p)).
  { subst q. simpl. apply length_insert. }
  cbv zeta. split.
  { unfold stopped_of. subst q. simpl. rewrite list_lookup_alter_eq.
    rewrite lookup_app_l by exact Hlt_o.
    destruct (lookup_lt_is_Some_2 _ _ Hlt_o) as [x ->]. reflexivity. }
  split; [exact Hq_t|]. split; [subst q; exact Ht|].
  split; [intros [|]; reflexivity|].
  unfold _ensure_monitor_task. rewrite Hnew, Hlen.
  split; [|split].
  - split; [reflexivity|]. unfold done.
    cbn [tasks set_globals set_monitor_task set_instances set_tasks].
    rewrite <- Hlen, list_lookup_middle by reflexivity. reflexivity.
  - reflexivity.
  - unfold live. cbn [tasks set_globals set_monitor_task set_instances set_tasks].
    rewrite lookup_app_l by (rewrite Hlen; exact Hlt_t).
    rewrite Hq_t. reflexivity.
Qed.

(** *** Releasing at termination *)

Lemma release_guard (i : nat) (p : process) :
  (_GLOBAL_MONITOR_TASK p = monitor_task_of i p ->
   _GLOBAL_MONITOR_TASK (on_unload_release i p) = None
   /\ _GLOBAL_MONITOR_OWNER (on_unload_release i p) = None)
  /\ (_GLOBAL_MONITOR_TASK p <> monitor_task_of i p ->
      on_unload_release i p = p).
Proof.
  unfold on_unload_release. case_decide; split; intros; try contradiction; auto.
Qed.

(** *** How each operation changes what can be observed *)

Lemma live_lt (t : nat) (p : process) : live t p = true -> t < length (tasks p).
Proof.
  unfold live. destruct (tasks p !! t) eqn:H; [|discriminate].
  intros _. exact (lookup_lt_Some _ _ _ H).
Qed.

Lemma live_not_done (t : nat) (p : process) : live t p = true -> done t p = false.
Proof.
  unfold live, done. destruct (tasks p !! t) as [[[|]|]|]; auto; discriminate.
Qed.

Lemma live_cancel (t t0 : nat) (p : process) :
  live t (cancel t0 p) = live t p && negb (t =? t0).
Proof.
  unfold cancel, live. destruct (Nat.eqb_spec t t0) as [->|Hne].
  - destruct (tasks p !! t0) as [[b|]|] eqn:H0; simpl; rewrite ?H0, ?andb_false_r; auto.
    rewrite list_lookup_insert_eq by exact (lookup_lt_Some _ _ _ H0). reflexivity.
  - rewrite andb_true_r.
    destruct (tasks p !! t0) as [[b|]|]; simpl; auto.
    rewrite list_lookup_insert_ne by congruence. reflexivity.
Qed.

Lemma live_task_exit (t t0 : nat) (p : process) :
  live t (task_exit t0 p) = live t p && negb (t =? t0).
Proof.
  unfold task_exit, live. destruct (Nat.eqb_spec t t0) as [->|Hne].
  - destruct (tasks p !! t0) as [[b|]|] eqn:H0; simpl; rewrite ?H0, ?andb_false_r; auto.
    rewrite list_lookup_insert_eq by exact (lookup_lt_Some _ _ _ H0). reflexivity.
  - rewrite andb_true_r.
    destruct (tasks p !! t0) as [[b|]|]; simpl; auto.
    rewrite list_lookup_insert_ne by congruence. reflexivity.
Qed.

Lemma cancel_instances (t0 : nat) (p : process) :
  instances (cancel t0 p) = instances p
  /\ _GLOBAL_MONITOR_TASK (cancel t0 p) = _GLOBAL_MONITOR_TASK p.
Proof. unfold cancel. destruct (tasks p !! t0) as [[b|]|]; auto. Qed.

Lemma task_exit_instances (t0 : nat) (p : process) :
  instances (task_exit t0 p) = instances p
  /\ _GLOBAL_MONITOR_TASK (task_exit t0 p) = _GLOBAL_MONITOR_TASK p
  /\ length (tasks (task_exit t0 p)) = length (tasks p).
Proof.
  unfold task_exit. destruct (tasks p !! t0) as [[b|]|]; simpl; auto.
  rewrite length_insert. auto.
Qed.

Lemma monitor_task_lt (i t : nat) (p : process) :
  monitor_task_of i p = Some t -> i < length (instances p).
Proof.
  unfold monitor_task_of. destruct (instances p !! i) eqn:H; [|discriminate].
  intros _. exact (lookup_lt_Some _ _ _ H).
Qed.

Lemma stopped_lt (i : nat) (p : process) :
  stopped_of i p = true -> i < length (instances p).
Proof.
  unfold stopped_of. destruct (instances p !! i) eqn:H; [|discriminate].
  intros _. exact (lookup_lt_Some _ _ _ H).
Qed.

Lemma monitor_task_set_stopped (i i0 : nat) (b : bool) (p : process) :
  monitor_task_of i (set_stopped i0 b p) = monitor_task_of i p.
Proof.
  unfold monitor_task_of, set_stopped. simpl. rewrite list_lookup_alter.
  case_decide; [subst|reflexivity]. destruct (instances p !! i); reflexivity.
Qed.

Lemma stopped_set_stopped (i i0 : nat) (b : bool) (p : process) :
  i0 < length (instances p) ->
  stopped_of i (set_stopped i0 b p)
  = if decide (i0 = i) then b else stopped_of i p.
Proof.
  intros Hlt. unfold stopped_of, set_stopped. simpl. rewrite list_lookup_alter.
  case_decide; [subst|reflexivity].
  destruct (lookup_lt_is_Some_2 _ _ Hlt) as [x ->]. reflexivity.
Qed.

Lemma stopped_set_monitor_task (i i0 : nat) (x : option nat) (p : process) :
  stopped_of i (set_monitor_task i0 x p) = stopped_of i p.
Proof.
  unfold stopped_of, set_monitor_task. simpl. rewrite list_lookup_alter.
  case_decide; [subst|reflexivity]. destruct (instances p !! i); reflexivity.
Qed.

Lemma monitor_task_set_monitor_task (i i0 : nat) (x : option nat) (p : process) :
  i0 < length (instances p) ->
  monitor_task_of i (set_monitor_task i0 x p)
  = if decide (i0 = i) then x else monitor_task_of i p.
Proof.
  intros Hlt. unfold monitor_task_of, set_monitor_task. simpl.
  rewrite list_lookup_alter. case_decide; [subst|reflexivity].
  destruct (lookup_lt_is_Some_2 _ _ Hlt) as [y ->]. reflexivity.
Qed.

Lemma monitor_task_allocate (i : nat) (p : process) :
  monitor_task_of i (allocate p) = monitor_task_of i p.
Proof.
  unfold monitor_task_of, allocate. simpl.
  destruct (decide (i < length (instances p))) as [Hlt|Hge].
  - rewrite lookup_app_l by exact Hlt. reflexivity.
  - rewrite (lookup_ge_None_2 (instances p)) by lia.
    destruct (decide (i = length (instances p))) as [->|Hne].
    + rewrite list_lookup_middle by reflexivity. reflexivity.
    + rewrite lookup_ge_None_2; [reflexivity|]. rewrite length_app. simpl. lia.
Qed.

Lemma stopped_allocate (i : nat) (p : process) :
  stopped_of i (allocate p) = stopped_of i p.
Proof.
  unfold stopped_of, allocate. simpl.
  destruct (decide (i < length (instances p))) as [Hlt|Hge].
  - rewrite lookup_app_l by exact Hlt. reflexivity.
  - rewrite (lookup_ge_None_2 (instances p)) by lia.
    destruct (decide (i = length (instances p))) as [->|Hne].
    + rewrite list_lookup_middle by reflexivity. reflexivity.
    + rewrite lookup_ge_None_2; [reflexivity|]. rewrite length_app. simpl. lia.
Qed.

(** The statements of [_ensure_monitor_task] after its guard. *)
Definition spawn (i : nat) (p : process) : process :=
  set_globals (Some (length (tasks p))) (Some i)
    (set_monitor_task i (Some (length (tasks p)))
       (set_tasks (tasks p ++ [Pending false]) p)).

Lemma live_spawn (t i : nat) (p : process) :
  live t (spawn i p) = (t =? length (tasks p)) || live t p.
Proof.
  unfold live, spawn. simpl.
  destruct (Nat.eqb_spec t (length (tasks p))) as [->|Hne]; simpl.
  - rewrite list_lookup_middle by reflexivity. reflexivity.
  - destruct (decide (t < length (tasks p))) as [Hlt|Hge].
    + rewrite lookup_app_l by exact Hlt. reflexivity.
    + rewrite (lookup_ge_None_2 (tasks p)) by lia.
      rewrite lookup_ge_None_2; [reflexivity|]. rewrite length_app. simpl. lia.
Qed.

Lemma monitor_task_spawn (i i0 : nat) (p : process) :
  i0 < length (instances p) ->
  monitor_task_of i (spawn i0 p)
  = if decide (i0 = i) then Some (length (tasks p)) else monitor_task_of i p.
Proof.
  intros Hlt. unfold spawn.
  change (monitor_task_of i (set_globals ?a ?b ?q)) with (monitor_task_of i q).
  rewrite monitor_task_set_monitor_task by exact Hlt. reflexivity.
Qed.

Lemma stopped_spawn (i i0 : nat) (p : process) :
  stopped_of i (spawn i0 p) = stopped_of i p.
Proof.
  unfold spawn.
  change (stopped_of i (set_globals ?a ?b ?q)) with (stopped_of i q).
  rewrite stopped_set_monitor_task. reflexivity.
Qed.

Lemma ensure_cases (i : nat) (p : process) :
  (exists t, monitor_task_of i p = Some t /\ done t p = false
             /\ _ensure_monitor_task i p = p)
  \/ ((forall t, monitor_task_of i p = Some t -> done t p = true)
      /\ _ensure_monitor_task i p = spawn i p).
Proof.
  unfold _ensure_monitor_task, has_running_task.
  destruct (monitor_task_of i p) as [t|].
  - destruct (done t p) eqn:Hd.
    + right. split; [|reflexivity]. intros t' [= <-]. exact Hd.
    + left. eauto.
  - right. split; [discriminate | reflexivity].
Qed.

(** *** The lifecycle the framework follows

    Handlers reach the newest plugin object only, and only while it is
    not stopped; [on_unload] finishes on an object that it stopped. *)

Definition current (p : process) : nat := pred (length (instances p)).

Definition allowed (p : process) (st : step) : Prop :=
  match st with
  | Enable i | SetInterval i _ => i = current p /\ stopped_of i p = false
  | UnloadRelease i => stopped_of i p = true
  | _ => True
  end.

Inductive orderly : process -> Prop :=
| orderly_boot : orderly boot
| orderly_step (p : process) (st : step) :
    orderly p -> allowed p st -> orderly (run st p).

Definition no_live (p : process) : Prop := forall t, live t p = false.

Definition one_owner (p : process) : Prop :=
  forall i j t,
    monitor_task_of i p = Some t -> monitor_task_of j p = Some t -> i = j.

Definition tasks_exist (p : process) : Prop :=
  forall i t, monitor_task_of i p = Some t -> t < length (tasks p).

Record orderly_inv (p : process) : Prop := OrderlyInv {
  live_is_registered :
    forall t, live t p = true ->
              _GLOBAL_MONITOR_TASK p = Some t
              /\ monitor_task_of (current p) p = Some t;
  stopped_not_live :
    forall i t, monitor_task_of i p = Some t -> stopped_of i p = true ->
                live t p = false;
  inv_one_owner : one_owner p;
  inv_tasks_exist : tasks_exist p
}.

Arguments live_is_registered {p} _ t _.
Arguments stopped_not_live {p} _ i t _ _.
Arguments inv_one_owner {p} _.
Arguments inv_tasks_exist {p} _.

Lemma inv_boot : orderly_inv boot.
Proof.
  constructor; unfold one_owner, tasks_exist, live, monitor_task_of; simpl;
    intros; discriminate.
Qed.

Lemma spawn_inv (i : nat) (p : process) :
  i < length (instances p) -> i = current p -> stopped_of i p = false ->
  no_live p -> one_owner p -> tasks_exist p ->
  orderly_inv (spawn i p).
Proof.
  intros Hlt Hcur Hst Hno Hone Hex.
  assert (Hcur' : current (spawn i p) = i).
  { unfold current, spawn. simpl. rewrite length_alter. auto. }
  constructor.
  - intros t. rewrite live_spawn, Hno, orb_false_r, Hcur'.
    intros Ht%Nat.eqb_eq. subst t. split; [reflexivity|].
    rewrite monitor_task_spawn by exact Hlt. case_decide; congruence.
  - intros j t. rewrite monitor_task_spawn, stopped_spawn, live_spawn, Hno
      by exact Hlt.
    rewrite orb_false_r. case_decide.
    + subst j. congruence.
    + intros Hj _. apply Nat.eqb_neq. specialize (Hex j t Hj). lia.
  - intros j k t. rewrite !monitor_task_spawn by exact Hlt.
    repeat case_decide; subst; try congruence.
    + intros [= <-] Hk. specialize (Hex k _ Hk). lia.
    + intros Hj [= <-]. specialize (Hex j _ Hj). lia.
    + apply Hone.
  - intros j t. rewrite monitor_task_spawn by exact Hlt.
    unfold spawn. simpl. rewrite length_app. simpl. case_decide.
    + intros [= <-]. lia.
    + intros Hj. specialize (Hex j t Hj). lia.
Qed.

Lemma take_over_views (p : process) :
  well_formed p -> orderly_inv p ->
  let q := take_over (allocate p) in
  no_live q
  /\ (forall i, monitor_task_of i q = monitor_task_of i p)
  /\ length (tasks q) = length (tasks p)
  /\ length (instances q) = S (length (instances p))
  /\ stopped_of (length (instances p)) q = false.
Proof.
  intros Hwf Hinv q. subst q. unfold take_over.
  change (_GLOBAL_MONITOR_TASK (allocate p)) with (_GLOBAL_MONITOR_TASK p).
  change (_GLOBAL_MONITOR_OWNER (allocate p)) with (_GLOBAL_MONITOR_OWNER p).
  assert (Hnew : stopped_of (length (instances p)) (allocate p) = false).
  { unfold stopped_of, allocate. simpl.
    rewrite list_lookup_middle by reflexivity. reflexivity. }
  assert (Hlen : length (instances (allocate p)) = S (length (instances p))).
  { unfold allocate. simpl. rewrite length_app. simpl. lia. }
  destruct (_GLOBAL_MONITOR_TASK p) as [g|] eqn:Hg.
  2:{ split; [|auto using monitor_task_allocate].
      intros t. destruct (live t (allocate p)) eqn:Hl; [|reflexivity].
      destruct (live_is_registered Hinv t Hl). congruence. }
  rewrite done_allocate. destruct (done g p) eqn:Hd.
  { split; [|auto using monitor_task_allocate].
    intros t. destruct (live t (allocate p)) eqn:Hl; [|reflexivity].
    destruct (live_is_registered Hinv t Hl) as [Ht _].
    assert (t = g) by congruence. subst t.
    pose proof (live_not_done _ _ Hl) as Hnd.
    change (done g p = false) in Hnd. congruence. }
  set (p1 := match _GLOBAL_MONITOR_OWNER p with
             | Some o => set_stopped o true (allocate p)
             | None => allocate p
             end).
  assert (Hp1 : (forall t, live t p1 = live t p)
                /\ (forall i, monitor_task_of i p1 = monitor_task_of i p)
                /\ length (tasks p1) = length (tasks p)
                /\ length (instances p1) = S (length (instances p))
                /\ stopped_of (length (instances p)) p1 = false).
  { subst p1. destruct (_GLOBAL_MONITOR_OWNER p) as [o|] eqn:Ho.
    - repeat split; auto.
      + intros i. rewrite monitor_task_set_stopped. apply monitor_task_allocate.
      + simpl. rewrite length_alter. exact Hlen.
      + pose proof (owner_exists Hwf o Ho) as Ho'.
        rewrite stopped_set_stopped by (rewrite Hlen; lia).
        case_decide; [lia | exact Hnew].
    - repeat split; auto using monitor_task_allocate. }
  destruct Hp1 as (L1 & M1 & T1 & I1 & S1).
  destruct (cancel_instances g p1) as [Ci Cg].
  repeat split.
  - intros t. rewrite live_cancel, L1.
    destruct (live t p) eqn:Hl; [|reflexivity].
    destruct (live_is_registered Hinv t Hl) as [Ht _].
    assert (t = g) by congruence. subst t. rewrite Nat.eqb_refl. reflexivity.
  - intros i. unfold monitor_task_of. rewrite Ci. apply M1.
  - rewrite cancel_length. exact T1.
  - rewrite Ci. exact I1.
  - unfold stopped_of. rewrite Ci. exact S1.
Qed.

Lemma has_running_task_Some (i t : nat) (p : process) :
  has_running_task i p = Some t
  <-> monitor_task_of i p = Some t /\ done t p = false.
Proof.
  unfold has_running_task. destruct (monitor_task_of i p) as [t'|].
  - destruct (done t' p) eqn:Hd; split.
    + discriminate.
    + intros [[= ->] H]. congruence.
    + intros [= ->]. auto.
    + intros [[= ->] _]. reflexivity.
  - split; [discriminate | intros [H _]; discriminate].
Qed.

Lemma monitor_task_beyond (i : nat) (p : process) :
  length (instances p) <= i -> monitor_task_of i p = None.
Proof.
  intros Hge. unfold monitor_task_of.
  rewrite lookup_ge_None_2 by exact Hge. reflexivity.
Qed.

Lemma ensure_fresh (i : nat) (p : process) :
  monitor_task_of i p = None -> _ensure_monitor_task i p = spawn i p.
Proof.
  intros Hn. unfold _ensure_monitor_task, has_running_task. rewrite Hn.
  reflexivity.
Qed.

Lemma inv_init (auto_check : bool) (p : process) :
  well_formed p -> orderly_inv p -> orderly_inv (__init__ auto_check p).
Proof.
  intros Hwf Hinv. unfold __init__.
  destruct (take_over_views p Hwf Hinv) as (Hno & Hmt & Ht & Hi & Hs).
  set (q := take_over (allocate p)) in *.
  assert (Hone : one_owner q).
  { intros i j t. rewrite !Hmt. apply (inv_one_owner Hinv). }
  assert (Hex : tasks_exist q).
  { intros i t. rewrite Hmt, Ht. apply (inv_tasks_exist Hinv). }
  destruct auto_check.
  - rewrite ensure_fresh
      by (rewrite Hmt; apply monitor_task_beyond; lia).
    apply spawn_inv; auto; [lia | unfold current; lia].
  - constructor; auto.
    + intros t Hl. rewrite Hno in Hl. discriminate.
Qed.

Lemma no_live_when_idle {i : nat} {p : process} :
  orderly_inv p -> i = current p ->
  (forall t, monitor_task_of i p = Some t -> done t p = true) ->
  no_live p.
Proof.
  intros Hinv -> Hdone t. destruct (live t p) eqn:Hl; [|reflexivity].
  destruct (live_is_registered Hinv t Hl) as [_ Hc].
  pose proof (Hdone t Hc) as Hd. pose proof (live_not_done _ _ Hl). congruence.
Qed.

Lemma inv_ensure (i : nat) (p : process) :
  i < length (instances p) -> i = current p -> stopped_of i p = false ->
  orderly_inv p -> orderly_inv (_ensure_monitor_task i p).
Proof.
  intros Hlt Hcur Hst Hinv.
  destruct (ensure_cases i p) as [(t & _ & _ & ->) | [Hdone ->]]; [exact Hinv|].
  apply spawn_inv; auto.
  - exact (no_live_when_idle Hinv Hcur Hdone).
  - exact (inv_one_owner Hinv).
  - exact (inv_tasks_exist Hinv).
Qed.

Lemma inv_restart (i : nat) (p : process) :
  i < length (instances p) -> i = current p ->
  orderly_inv p -> orderly_inv (_restart_monitor_task i p).
Proof.
  intros Hlt Hcur Hinv. unfold _restart_monitor_task.
  set (p1 := match has_running_task i p with
             | Some t => cancel t p
             | None => p
             end).
  assert (Hp1 : no_live p1 /\ instances p1 = instances p
                /\ length (tasks p1) = length (tasks p)).
  { subst p1. destruct (has_running_task i p) as [t0|] eqn:Hr.
    - apply has_running_task_Some in Hr as [Hm Hd].
      split; [|split; [apply cancel_instances | apply cancel_length]].
      intros t. rewrite live_cancel. destruct (live t p) eqn:Hl; [|reflexivity].
      destruct (live_is_registered Hinv t Hl) as [_ Hc].
      rewrite <- Hcur in Hc. assert (t = t0) by congruence. subst t.
      rewrite Nat.eqb_refl. reflexivity.
    - split; [|auto]. apply (no_live_when_idle Hinv Hcur).
      intros t Hm. destruct (done t p) eqn:Hd; [reflexivity|].
      rewrite (proj2 (has_running_task_Some i t p) (conj Hm Hd)) in Hr.
      discriminate. }
  destruct Hp1 as (Hno & Hi1 & Ht1).
  assert (Hlt1 : i < length (instances p1)) by (rewrite Hi1; exact Hlt).
  assert (Hmt1 : forall j, monitor_task_of j p1 = monitor_task_of j p).
  { intros j. unfold monitor_task_of. rewrite Hi1. reflexivity. }
  set (p2 := set_stopped i false (set_monitor_task i None p1)).
  assert (Hlt2 : i < length (instances (set_monitor_task i None p1))).
  { simpl. rewrite length_alter. exact Hlt1. }
  assert (Hmt2 : forall j, monitor_task_of j p2
                           = if decide (i = j) then None else monitor_task_of j p).
  { intros j. subst p2. rewrite monitor_task_set_stopped.
    rewrite monitor_task_set_monitor_task by exact Hlt1. rewrite Hmt1. reflexivity. }
  rewrite ensure_fresh by (rewrite Hmt2; case_decide; congruence).
  apply spawn_inv.
  - subst p2. simpl. rewrite !length_alter. exact Hlt1.
  - subst p2. unfold current. simpl. rewrite !length_alter, Hi1. exact Hcur.
  - subst p2. rewrite stopped_set_stopped by exact Hlt2. case_decide; congruence.
  - exact Hno.
  - intros j k t. rewrite !Hmt2. repeat case_decide; try discriminate.
    apply (inv_one_owner Hinv).
  - intros j t. rewrite Hmt2. case_decide; [discriminate|].
    change (length (tasks p2)) with (length (tasks p1)). rewrite Ht1.
    apply (inv_tasks_exist Hinv).
Qed.

Lemma inv_unload_cancel (i : nat) (p : process) :
  i < length (instances p) ->
  orderly_inv p -> orderly_inv (on_unload_cancel i p).
Proof.
  intros Hlt Hinv. unfold on_unload_cancel.
  set (p1 := set_stopped i true p).
  assert (Hmt1 : forall j, monitor_task_of j p1 = monitor_task_of j p)
    by (intros j; apply monitor_task_set_stopped).
  assert (Hst1 : forall j, stopped_of j p1
                           = if decide (i = j) then true else stopped_of j p)
    by (intros j; apply stopped_set_stopped; exact Hlt).
  assert (Hrun : has_running_task i p1 = has_running_task i p).
  { unfold has_running_task. rewrite Hmt1. reflexivity. }
  rewrite Hrun.
  set (p2 := match has_running_task i p with
             | Some t => cancel t p1
             | None => p1
             end).
  assert (Hp2 : instances p2 = instances p1
                /\ _GLOBAL_MONITOR_TASK p2 = _GLOBAL_MONITOR_TASK p
                /\ length (tasks p2) = length (tasks p)
                /\ (forall t, live t p2 = true -> live t p = true)
                /\ (forall t, monitor_task_of i p = Some t -> live t p2 = false)).
  { subst p2. destruct (has_running_task i p) as [t0|] eqn:Hr.
    - apply has_running_task_Some in Hr as [Hm Hd].
      destruct (cancel_instances t0 p1) as [Ci Cg].
      repeat split; auto.
      + rewrite cancel_length. reflexivity.
      + intros t. rewrite live_cancel. intros [H _]%andb_true_iff. exact H.
      + intros t Ht. assert (t = t0) by congruence. subst t.
        rewrite live_cancel, Nat.eqb_refl, andb_false_r. reflexivity.
    - repeat split; auto. intros t Hm.
      destruct (live t p) eqn:Hl; [|exact Hl].
      rewrite (proj2 (has_running_task_Some i t p)
                 (conj Hm (live_not_done _ _ Hl))) in Hr. discriminate. }
  destruct Hp2 as (Hi2 & Hg2 & Ht2 & Hl2 & Hown).
  assert (Hmt2 : forall j, monitor_task_of j p2 = monitor_task_of j p).
  { intros j. unfold monitor_task_of. rewrite Hi2. apply Hmt1. }
  assert (Hst2 : forall j, stopped_of j p2 = stopped_of j p1).
  { intros j. unfold stopped_of. rewrite Hi2. reflexivity. }
  constructor.
  - intros t Hl. rewrite Hg2, Hmt2.
    replace (current p2) with (current p)
      by (unfold current; rewrite Hi2; subst p1; simpl;
          rewrite length_alter; reflexivity).
    apply (live_is_registered Hinv), Hl2, Hl.
  - intros j t. rewrite Hmt2, Hst2, Hst1. case_decide.
    + subst j. intros Hm _. apply Hown, Hm.
    + intros Hm Hs. destruct (live t p2) eqn:Hl; [|reflexivity].
      rewrite <- (stopped_not_live Hinv j t Hm Hs). symmetry. apply Hl2, Hl.
  - intros j k t. rewrite !Hmt2. apply (inv_one_owner Hinv).
  - intros j t. rewrite Hmt2, Ht2. apply (inv_tasks_exist Hinv).
Qed.

Lemma inv_unload_release (i : nat) (p : process) :
  stopped_of i p = true ->
  orderly_inv p -> orderly_inv (on_unload_release i p).
Proof.
  intros Hst Hinv. unfold on_unload_release. case_decide as Heq; [|exact Hinv].
  assert (Hno : no_live p).
  { intros t. destruct (live t p) eqn:Hl; [|reflexivity].
    destruct (live_is_registered Hinv t Hl) as [Hg _].
    rewrite Hg in Heq. symmetry in Heq.
    rewrite <- (stopped_not_live Hinv i t Heq Hst). symmetry. exact Hl. }
  constructor.
  - intros t Hl. change (live t p = true) in Hl. rewrite Hno in Hl. discriminate.
  - intros j t _ _. apply Hno.
  - exact (inv_one_owner Hinv).
  - exact (inv_tasks_exist Hinv).
Qed.

Lemma inv_task_exit (t0 : nat) (p : process) :
  orderly_inv p -> orderly_inv (task_exit t0 p).
Proof.
  intros Hinv. destruct (task_exit_instances t0 p) as (Hi & Hg & Ht).
  assert (Hmt : forall j, monitor_task_of j (task_exit t0 p) = monitor_task_of j p)
    by (intros j; unfold monitor_task_of; rewrite Hi; reflexivity).
  assert (Hst : forall j, stopped_of j (task_exit t0 p) = stopped_of j p)
    by (intros j; unfold stopped_of; rewrite Hi; reflexivity).
  constructor.
  - intros t. rewrite live_task_exit. intros [Hl _]%andb_true_iff.
    rewrite Hg, Hmt. unfold current. rewrite Hi.
    apply (live_is_registered Hinv), Hl.
  - intros j t. rewrite Hmt, Hst, live_task_exit. intros Hm Hs.
    rewrite (stopped_not_live Hinv j t Hm Hs). reflexivity.
  - intros j k t. rewrite !Hmt. apply (inv_one_owner Hinv).
  - intros j t. rewrite Hmt, Ht. apply (inv_tasks_exist Hinv).
Qed.

Lemma inv_run (st : step) (p : process) :
  well_formed p -> orderly_inv p -> allowed p st -> orderly_inv (run st p).
Proof.
  intros Hwf Hinv Hal. destruct st as [ac | i | i ac | i | i | t]; simpl in *.
  - apply inv_init; assumption.
  - unfold on_instance. case_decide; [|exact Hinv].
    destruct Hal. apply inv_ensure; assumption.
  - destruct ac; [|exact Hinv]. unfold on_instance. case_decide; [|exact Hinv].
    destruct Hal. apply inv_restart; assumption.
  - unfold on_instance. case_decide; [|exact Hinv].
    apply inv_unload_cancel; assumption.
  - unfold on_instance. case_decide; [|exact Hinv].
    apply inv_unload_release; assumption.
  - apply inv_task_exit; assumption.
Qed.

Lemma orderly_reachable (p : process) : orderly p -> reachable p.
Proof.
  induction 1 as [|p st _ [l ->] _].
  - exists []. reflexivity.
  - exists (l ++ [st]). rewrite run_all_snoc. reflexivity.
Qed.

Lemma orderly_invariant {p : process} : orderly p -> orderly_inv p.
Proof.
  induction 1 as [|p st Hord IH Hal]; [exact inv_boot|].
  apply inv_run; auto. apply reachable_wf, orderly_reachable, Hord.
Qed.

(** Under that lifecycle at most one loop can run an iteration, and it is
    the registered one. *)
Lemma sole_live_loop (p : process) :
  orderly p ->
  forall t1 t2, live t1 p = true -> live t2 p = true ->
                t1 = t2 /\ registered_active t1 p.
Proof.
  intros Hord t1 t2 H1 H2. pose proof (orderly_invariant Hord) as Hinv.
  destruct (live_is_registered Hinv t1 H1) as [G1 _].
  destruct (live_is_registered Hinv t2 H2) as [G2 _].
  split; [congruence|]. split; [exact G1 | apply live_not_done, H1].
Qed.

(** C8: the registry names at most one unfinished task.  When a plugin
    object is created while a registered task is unfinished, the owner of
    that task is marked stopped and the task is cancelled while it is
    still the registered one, and only then does the new object register
    its own task; [on_unload] clears the registry when the registered task
    is the task of the object that unloads, and leaves it alone otherwise.
    Along the lifecycle the framework follows, the registered task is
    moreover the only one whose loop can still run. *)
Theorem one_registered_loop (p : process) :
  reachable p ->
  (forall t1 t2, registered_active t1 p -> registered_active t2 p -> t1 = t2)
  /\ (forall t,
        registered_active t p ->
        exists o,
          _GLOBAL_MONITOR_OWNER p = Some o
          /\ let q := take_over (allocate p) in
             stopped_of o q = true
             /\ tasks q !! t = Some (Pending true)
             /\ _GLOBAL_MONITOR_TASK q = Some t
             /\ (forall auto_check,
                   __init__ auto_check p
                   = if auto_check
                     then _ensure_monitor_task (length (instances p)) q
                     else q)
             /\ registered_active (length (tasks p)) (__init__ true p)
             /\ _GLOBAL_MONITOR_OWNER (__init__ true p)
                = Some (length (instances p))
             /\ live t (__init__ true p) = false)
  /\ (forall i,
        (_GLOBAL_MONITOR_TASK p = monitor_task_of i p ->
         _GLOBAL_MONITOR_TASK (on_unload_release i p) = None
         /\ _GLOBAL_MONITOR_OWNER (on_unload_release i p) = None)
        /\ (_GLOBAL_MONITOR_TASK p <> monitor_task_of i p ->
            on_unload_release i p = p))
  /\ (orderly p ->
      forall t1 t2, live t1 p = true -> live t2 p = true ->
                    t1 = t2 /\ registered_active t1 p).
Proof.
  intros Hreach. split; [|split; [|split]].
  - intros t1 t2 [H1 _] [H2 _]. congruence.
  - intros t. apply take_over_effect, reachable_wf, Hreach.
  - intros i. apply release_guard.
  - apply sole_live_loop.
Qed.

(** One plugin object, created with checks enabled. *)
Definition one_plugin : process := run_all [Create true] boot.

Lemma one_registered_loop_witness :
  reachable one_plugin
  /\ registered_active 0 one_plugin
  /\ stopped_of 0 (take_over (allocate one_plugin)) = true
  /\ registered_active 1 (__init__ true one_plugin)
  /\ live 0 (__init__ true one_plugin) = false.
Proof.
  assert (Hr : reachable one_plugin) by (exists [Create true]; reflexivity).
  assert (Ha : registered_active 0 one_plugin) by (split; reflexivity).
  destruct (one_registered_loop one_plugin Hr) as (_ & H & _ & _).
  destruct (H 0%nat Ha) as (o & Ho & Hs & _ & _ & _ & Hn & _ & Hl).
  injection Ho as <-.
  split; [exact Hr|]. split; [exact Ha|]. split; [exact Hs|].
  split; [exact Hn | exact Hl].
Defined.

(** Outside that lifecycle the last part fails: a handler that runs on a
    superseded plugin object starts a second loop. *)
Example superseded_object_enabled :
  let p := run_all [Create false; Create true; Enable 0] boot in
  live 0 p = true /\ live 1 p = true /\ registered_active 1 p.
Proof. repeat split; reflexivity. Qed.

(** A reload in the order "unload the old object, create the new one". *)
Example reload_keeps_one_loop :
  let p := run_all [Create true; UnloadCancel 0; TaskExit 0; UnloadRelease 0;
                    Create true] boot in
  live 0 p = false /\ live 1 p = true /\ registered_active 1 p
  /\ _GLOBAL_MONITOR_OWNER p = Some 1.
Proof. repeat split; reflexivity. Qed.

(** A termination call that arrives after the successor registered does
    not wipe the successor's registration. *)
Example late_termination :
  let p := run_all [Create true; Create true; UnloadCancel 0; UnloadRelease 0]
                   boot in
  registered_active 1 p /\ _GLOBAL_MONITOR_OWNER p = Some 1.
Proof. repeat split; reflexivity. Qed.

End SingletonFacts.

(* ===================================================================== *)
(** ** Login, the balance request and the session                        *)
(* ===================================================================== *)

Module LoginFacts.

Import Client Session ClientFacts.

Section Login.

Variable E : env.

(** The state after a login request that succeeded with token [tok] and
    left the world as [w]. *)
Definition logged_in (tok : string) (w : world E) (s : state E) : state E :=
  let s2 := with_world w [EvLogin (account s) (password s)] (_ensure_session s) in
  let s3 := with_token (PStr tok) s2 in
  with_conf (save_config (config_set "electricity_token" (PStr tok) (conf s3))) s3.

(** The login response is accepted: a JSON object whose tag is 1, with
    the token cookie. *)
Definition login_accepted (resp : http_result) (tok : string) : Prop :=
  exists body tag,
    resp = HttpJson body (Some tok)
    /\ get body "Tag" PNone = Ok tag /\ eq_int tag 1 = true.

Lemma login_ok_iff (s s' : state E) (tok : string) :
  login_and_get_token s = (Ok tok, s')
  <-> truthy (account s) = true /\ truthy (password s) = true
      /\ exists resp w,
           http_post E (LoginPost (account s) (password s)) (now_world s)
           = (resp, w)
           /\ login_accepted resp tok /\ s' = logged_in tok w s.
Proof.
  unfold login_and_get_token, login_accepted, logged_in.
  destruct (truthy (account s)), (truthy (password s)); simpl;
    try (split; [discriminate | intros (A & B & _); discriminate]).
  change (now_world (_ensure_session s)) with (now_world s).
  change (account (_ensure_session s)) with (account s).
  change (password (_ensure_session s)) with (password s).
  destruct (http_post E _ _) as [resp w]. split.
  - intros H. split; [reflexivity|]. split; [reflexivity|].
    exists resp, w. split; [reflexivity|].
    destruct resp as [e | body cookie]; [discriminate|].
    destruct (get body "Tag" PNone) as [tag | e] eqn:Htag; [|discriminate].
    destruct (eq_int tag 1) eqn:H1; simpl in H.
    + destruct cookie as [tok' |]; [|discriminate].
      injection H as -> <-. split; [|reflexivity]. exists body, tag. auto.
    + destruct (get body "Message" (PStr "unknown error")); discriminate.
  - intros (_ & _ & resp' & w' & Hpost & (body & tag & -> & Htag & H1) & ->).
    injection Hpost as -> ->. rewrite Htag, H1. reflexivity.
Qed.

(** X1: After a successful login the token is the one the service sent, in
    the client and in the configuration, in memory and on disk; the whole
    configuration is saved; one login request went out, with the
    credentials of the client. *)
Theorem login_success_stores_token (s s' : state E) (tok : string) :
  login_and_get_token s = (Ok tok, s') ->
  token s' = PStr tok
  /\ config_get "electricity_token" (conf s') = PStr tok
  /\ persisted "electricity_token" (conf s') = PStr tok
  /\ disk (conf s') = mem (conf s')
  /\ (forall k, k <> "electricity_token" ->
                config_get k (conf s') = config_get k (conf s))
  /\ trace s' = trace s ++ [EvLogin (account s) (password s)]
  /\ session_open s' = true.
Proof.
  intros H. apply login_ok_iff in H as (_ & _ & resp & w & _ & _ & ->).
  unfold logged_in, config_get, persisted. simpl.
  rewrite lookup_insert_eq. repeat split; auto.
  intros k Hk. rewrite lookup_insert_ne by congruence. reflexivity.
Qed.

(** X2: A login that fails changes neither the token nor the configuration,
    and when a credential is missing it sends nothing at all. *)
Theorem login_failure_keeps_token (s s' : state E) (e : exn) :
  login_and_get_token s = (Raise e, s') ->
  token s' = token s /\ conf s' = conf s
  /\ (truthy (account s) && truthy (password s) = false ->
      s' = s
      /\ e = Exn RuntimeError "missing account/password for token refresh")
  /\ (truthy (account s) && truthy (password s) = true ->
      trace s' = trace s ++ [EvLogin (account s) (password s)]).
Proof.
  unfold login_and_get_token.
  destruct (truthy (account s)), (truthy (password s)); simpl;
    try (intros H; injection H as <- <-;
         split; [reflexivity|]; split; [reflexivity|];
         split; [auto | discriminate]).
  destruct (http_post E _ _) as [resp w]. intros H.
  assert (Hs : s' = with_world w [EvLogin (account s) (password s)]
                      (_ensure_session s)).
  { destruct resp as [e' | body cookie]; [injection H as _ <-; reflexivity|].
    destruct (get body "Tag" PNone) as [tag | e']; [|injection H as _ <-; reflexivity].
    destruct (eq_int tag 1); simpl in H.
    - destruct cookie; [discriminate | injection H as _ <-; reflexivity].
    - destruct (get body "Message" (PStr "unknown error"));
        injection H as _ <-; reflexivity. }
  subst s'. simpl. split; [reflexivity|]. split; [reflexivity|].
  split; [discriminate | reflexivity].
Qed.

(** X3: What the service answered when the login failed on its answer. *)
Theorem login_rejections (s : state E) (body : pyval) (cookie : option string)
        (w : world E) (tag : pyval) :
  truthy (account s) = true -> truthy (password s) = true ->
  http_post E (LoginPost (account s) (password s)) (now_world s)
  = (HttpJson body cookie, w) ->
  get body "Tag" PNone = Ok tag ->
  (eq_int tag 1 = true -> cookie = None ->
   fst (login_and_get_token s)
   = Raise (Exn RuntimeError "login succeeded but token missing"))
  /\ (eq_int tag 1 = false ->
      forall message, get body "Message" (PStr "unknown error") = Ok (PStr message) ->
      fst (login_and_get_token s)
      = Raise (Exn RuntimeError ("login failed: " +:+ message))).
Proof.
  intros Ha Hp Hpost Htag. unfold login_and_get_token. rewrite Ha, Hp. simpl.
  change (now_world (_ensure_session s)) with (now_world s).
  change (account (_ensure_session s)) with (account s).
  change (password (_ensure_session s)) with (password s).
  rewrite Hpost, Htag. split.
  - intros -> ->. reflexivity.
  - intros -> message ->. reflexivity.
Qed.

(** X4: Without a token, and with automatic retry off or a credential
    missing, [get_balance] raises "missing electricity_token" and does
    nothing: no request, no session, no write. *)
Theorem get_balance_without_token (auto_retry : bool) (s : state E) :
  truthy (token s) = false ->
  auto_retry && truthy (account s) && truthy (password s) = false ->
  get_balance auto_retry s
  = (Raise (Exn RuntimeError "missing electricity_token"), s).
Proof.
  intros Htok Hoff. unfold get_balance, first_attempt.
  assert (Hpre : auto_retry && negb (truthy (token s)) && truthy (account s)
                 && truthy (password s) = false).
  { rewrite Htok. simpl. rewrite andb_true_r. exact Hoff. }
  rewrite Hpre. unfold bind, ret, _request_balance. rewrite Htok. simpl.
  rewrite Hoff. reflexivity.
Qed.

End Login.

(** *** Runs in the small world *)

Import Scenario.

(** The client before its first login: credentials, no token. *)
Definition fresh_client (replies : list http_result) : state toy :=
  @State toy PNone (PStr "20240001") (PStr "secret") false (Store ∅ ∅)
         (Toy 1000 replies false) [].

(** A client with neither token nor credentials. *)
Definition bare_client : state toy :=
  @State toy PNone PNone PNone false (Store ∅ ∅) (Toy 1000 [balance_reply] false) [].

Lemma login_success_stores_token_witness :
  token (snd (login_and_get_token (fresh_client [login_reply]))) = PStr "abc123"
  /\ persisted "electricity_token"
       (conf (snd (login_and_get_token (fresh_client [login_reply]))))
     = PStr "abc123".
Proof.
  destruct (login_success_stores_token toy (fresh_client [login_reply])
              (snd (login_and_get_token (fresh_client [login_reply]))) "abc123")
    as (H1 & _ & H2 & _).
  - vm_compute. reflexivity.
  - split; [exact H1 | exact H2].
Defined.

Lemma login_failure_keeps_token_witness :
  token (snd (login_and_get_token (fresh_client [expired_reply]))) = PNone
  /\ conf (snd (login_and_get_token (fresh_client [expired_reply]))) = Store ∅ ∅.
Proof.
  destruct (login_failure_keeps_token toy (fresh_client [expired_reply])
              (snd (login_and_get_token (fresh_client [expired_reply])))
              (Exn RuntimeError ("login failed: " +:+ "è¯·å…ˆç™»å½•")))
    as (H1 & H2 & _).
  - vm_compute. reflexivity.
  - split; [exact H1 | exact H2].
Defined.

Lemma login_rejections_witness :
  fst (login_and_get_token
         (fresh_client [HttpJson (PDict [("Tag", PInt 1)]) None]))
  = Raise (Exn RuntimeError "login succeeded but token missing").
Proof.
  destruct (login_rejections toy
              (fresh_client [HttpJson (PDict [("Tag", PInt 1)]) None])
              (PDict [("Tag", PInt 1)]) None (Toy 1002 [] false) (PInt 1)
              eq_refl eq_refl eq_refl eq_refl)
    as [H _].
  exact (H eq_refl eq_refl).
Defined.

Lemma get_balance_without_token_witness :
  get_balance true bare_client
  = (Raise (Exn RuntimeError "missing electricity_token"), bare_client).
Proof.
  apply (get_balance_without_token toy true bare_client); reflexivity.
Defined.

End LoginFacts.

(* ===================================================================== *)
(** ** Which failures lead to a new login                                *)
(* ===================================================================== *)

Module RetryFacts.

Import Client ClientFacts StringFacts.

(** The prefix that [_parse_balance] puts before the remote message does
    not change the classification of the message. *)
Lemma api_error_prefix (message : string) :
  _looks_like_login_expired ("api error: " +:+ message)
  = _looks_like_login_expired message.
Proof. reflexivity. Qed.

Lemma login_failed_prefix (message : string) :
  _looks_like_login_expired ("login failed: " +:+ message)
  = _looks_like_login_expired message.
Proof. reflexivity. Qed.

Lemma no_attribute_not_expired (v : pyval) :
  _looks_like_login_expired (str_of_exn (no_attribute v "get")) = false.
Proof. destruct v; reflexivity. Qed.

Lemma not_iterable_not_expired (v : pyval) (e : exn) :
  iterate v = Raise e -> _looks_like_login_expired (str_of_exn e) = false.
Proof.
  destruct v; simpl; intros H; try discriminate;
    injection H as <-; reflexivity.
Qed.

Section Parse.

Variable E : env.

Lemma find_meter_errors (room : pyval) (devices : list pyval) (e : exn) :
  find_meter room devices = Raise e ->
  e = NoMeterDevice \/ exists v, e = no_attribute v "get".
Proof.
  induction devices as [|device rest IH]; simpl.
  - intros [= <-]. left. reflexivity.
  - destruct device; simpl; try (intros [= <-]; right; eauto).
    destruct (eq_int _ 1); [discriminate | exact IH].
Qed.

(** X5: A parse failure is classified as an expired session only when it is
    the API error and the remote message itself carries an expiry phrase:
    no missing device, no malformed response leads to a new login. *)
Theorem parse_error_expired (data : pyval) (e : exn) :
  _parse_balance E data = Raise e ->
  _looks_like_login_expired (str_of_exn e) = true ->
  exists d,
    data = PDict d
    /\ eq_int (default PNone (assoc "Tag" d)) 1 = false
    /\ e = ApiError (format_value E (default PNone (assoc "Message" d)))
    /\ _looks_like_login_expired
         (format_value E (default PNone (assoc "Message" d))) = true.
Proof.
  unfold _parse_balance. destruct data as [| | | | | |d];
    try (simpl; intros [= <-] H; discriminate H).
  cbn [get rbind]. destruct (eq_int (default PNone (assoc "Tag" d)) 1) eqn:Htag.
  - cbn [negb]. intros Hparse Hlook. exfalso.
    destruct (default (PDict []) (assoc "Data" d)) as [| | | | | |dd];
      try (simpl in Hparse; injection Hparse as <-; discriminate Hlook).
    cbn [get rbind] in Hparse.
    destruct (truthy (default (PList []) (assoc "DevicesList" dd))); cbn [negb] in Hparse.
    + destruct (iterate _) as [devices | e'] eqn:Hit; cbn [rbind] in Hparse.
      * destruct (find_meter_errors _ _ _ Hparse) as [-> | [v ->]];
          [discriminate Hlook|].
        rewrite no_attribute_not_expired in Hlook. discriminate.
      * injection Hparse as <-.
        rewrite (not_iterable_not_expired _ _ Hit) in Hlook. discriminate.
    + injection Hparse as <-. discriminate Hlook.
  - cbn [negb rbind]. intros [= <-] Hlook. exists d.
    split; [reflexivity|]. split; [exact Htag|]. split; [reflexivity|].
    rewrite <- api_error_prefix. exact Hlook.
Qed.

End Parse.

Lemma parse_error_expired_witness :
  exists d,
    PDict [("Tag", PInt 0); ("Message", PStr "è¯·å…ˆç™»å½•")] = PDict d
    /\ eq_int (default PNone (assoc "Tag" d)) 1 = false.
Proof.
  destruct (parse_error_expired Scenario.toy
              (PDict [("Tag", PInt 0); ("Message", PStr "è¯·å…ˆç™»å½•")])
              (ApiError "è¯·å…ˆç™»å½•") eq_refl eq_refl)
    as (d & Hd & Htag & _).
  exists d. split; [exact Hd | exact Htag].
Defined.

End RetryFacts.

(* ===================================================================== *)
(** ** The session of the client                                         *)
(* ===================================================================== *)

Module SessionFacts.

Import Client Session.

Section Close.

Variable E : env.

(** Two states that differ at most in whether the session is open. *)
Definition same_but_session (s1 s2 : state E) : Prop :=
  close s1 = close s2.

Lemma same_but_session_fields (s1 s2 : state E) :
  same_but_session s1 s2 ->
  token s1 = token s2 /\ account s1 = account s2 /\ password s1 = password s2
  /\ conf s1 = conf s2 /\ now_world s1 = now_world s2 /\ trace s1 = trace s2.
Proof.
  unfold same_but_session, close. intros H. injection H. auto 10.
Qed.

Ltac same_fields H :=
  let T := fresh "T" in let A := fresh "A" in let P := fresh "P" in
  let C := fresh "C" in let W := fresh "W" in let R := fresh "R" in
  destruct (same_but_session_fields _ _ H) as (T & A & P & C & W & R).

Lemma login_same (s1 s2 : state E) :
  same_but_session s1 s2 ->
  fst (login_and_get_token s1) = fst (login_and_get_token s2)
  /\ same_but_session (snd (login_and_get_token s1))
                      (snd (login_and_get_token s2)).
Proof.
  intros H. same_fields H. unfold login_and_get_token.
  rewrite <- A, <- P.
  destruct (negb (truthy (account s1)) || negb (truthy (password s1)));
    [split; [reflexivity | exact H]|].
  change (now_world (_ensure_session s1)) with (now_world s1).
  change (now_world (_ensure_session s2)) with (now_world s2).
  change (account (_ensure_session s1)) with (account s1).
  change (account (_ensure_session s2)) with (account s2).
  change (password (_ensure_session s1)) with (password s1).
  change (password (_ensure_session s2)) with (password s2).
  rewrite <- A, <- P, <- W.
  destruct (http_post E _ _) as [resp w].
  assert (Hbase : forall ev,
             same_but_session (with_world w ev (_ensure_session s1))
                              (with_world w ev (_ensure_session s2))).
  { intros ev. unfold same_but_session, close. simpl. congruence. }
  destruct resp as [e | body cookie]; [split; [reflexivity | apply Hbase]|].
  destruct (get body "Tag" PNone) as [tag | e];
    [|split; [reflexivity | apply Hbase]].
  destruct (negb (eq_int tag 1)).
  - destruct (get body "Message" (PStr "unknown error"));
      (split; [reflexivity | apply Hbase]).
  - destruct cookie; [|split; [reflexivity | apply Hbase]].
    split; [reflexivity|]. unfold same_but_session, close. simpl. congruence.
Qed.

Lemma request_same (s1 s2 : state E) :
  same_but_session s1 s2 ->
  fst (_request_balance s1) = fst (_request_balance s2)
  /\ same_but_session (snd (_request_balance s1)) (snd (_request_balance s2)).
Proof.
  intros H. same_fields H. unfold _request_balance. rewrite <- T.
  destruct (negb (truthy (token s1))); [split; [reflexivity | exact H]|].
  change (now_world (_ensure_session s1)) with (now_world s1).
  change (now_world (_ensure_session s2)) with (now_world s2).
  change (token (_ensure_session s1)) with (token s1).
  change (token (_ensure_session s2)) with (token s2).
  rewrite <- T, <- W. destruct (http_post E _ _) as [resp w].
  destruct resp; (split; [reflexivity|]);
    unfold same_but_session, close; simpl; congruence.
Qed.

(** An operation that does not look at the session. *)
Definition blind {A : Type} (m : M E A) : Prop :=
  forall s1 s2,
    same_but_session s1 s2 ->
    fst (m s1) = fst (m s2) /\ same_but_session (snd (m s1)) (snd (m s2)).

Lemma blind_bind {A B : Type} (m : M E A) (k : A -> M E B) :
  blind m -> (forall a, blind (k a)) -> blind (bind m k).
Proof.
  intros Hm Hk s1 s2 H. unfold bind.
  destruct (Hm s1 s2 H) as [Hr Hs].
  destruct (m s1) as [r1 t1], (m s2) as [r2 t2]. simpl in *. subst r2.
  destruct r1 as [a | e]; [apply Hk, Hs | split; [reflexivity | exact Hs]].
Qed.

Lemma blind_ret {A : Type} (a : A) : blind (ret (E := E) a).
Proof. intros s1 s2 H. split; [reflexivity | exact H]. Qed.

Lemma blind_lift {A : Type} (r : result A) : blind (lift (E := E) r).
Proof. intros s1 s2 H. split; [reflexivity | exact H]. Qed.

Lemma blind_relogin : blind (@relogin_and_retry E).
Proof.
  unfold relogin_and_retry. apply blind_bind; [exact login_same|].
  intros _. apply blind_bind; [exact request_same|].
  intros data. apply blind_lift.
Qed.

Lemma blind_first_attempt (auto_retry : bool) : blind (first_attempt (E := E) auto_retry).
Proof.
  intros s1 s2 H. same_fields H. unfold first_attempt.
  rewrite <- T, <- A, <- P.
  apply blind_bind; [| |exact H].
  - destruct (_ && _).
    + apply blind_bind; [exact login_same | intros; apply blind_ret].
    + apply blind_ret.
  - intros _. apply blind_bind; [exact request_same|].
    intros data. apply blind_lift.
Qed.

Lemma blind_get_balance (auto_retry : bool) : blind (get_balance (E := E) auto_retry).
Proof.
  intros s1 s2 H. unfold get_balance.
  destruct (blind_first_attempt auto_retry s1 s2 H) as [Hr Hs].
  destruct (first_attempt auto_retry s1) as [r1 t1],
           (first_attempt auto_retry s2) as [r2 t2]. simpl in *. subst r2.
  destruct r1 as [info | exc]; [split; [reflexivity | exact Hs]|].
  same_fields Hs. rewrite <- A, <- P.
  destruct (_ && _); [apply blind_relogin, Hs | split; [reflexivity | exact Hs]].
Qed.

Lemma close_same (s : state E) : same_but_session (close s) s.
Proof. reflexivity. Qed.


(** An operation that leaves the state as it found it, or leaves the
    session open. *)
Definition opening {A : Type} (m : M E A) : Prop :=
  forall s, snd (m s) = s \/ session_open (snd (m s)) = true.

(** ... and keeps an open session open. *)
Definition keeping {A : Type} (m : M E A) : Prop :=
  forall s, session_open s = true -> session_open (snd (m s)) = true.

Lemma careful_bind {A B : Type} (m : M E A) (k : A -> M E B) :
  opening m /\ keeping m -> (forall a, opening (k a) /\ keeping (k a)) ->
  opening (bind m k) /\ keeping (bind m k).
Proof.
  intros [Om Km] Hk. split; intros s; unfold bind.
  - specialize (Om s). specialize (Km s).
    destruct (m s) as [[a | e] s1]; simpl in *; [|exact Om].
    destruct (Hk a) as [Ok Kk]. specialize (Ok s1). specialize (Kk s1).
    destruct Om as [-> | Hopen]; [exact Ok|].
    right. auto.
  - intros Hs. specialize (Km s Hs).
    destruct (m s) as [[a | e] s1]; simpl in *; [|exact Km].
    apply (Hk a), Km.
Qed.

Lemma careful_here {A : Type} (m : M E A) :
  (forall s, snd (m s) = s) -> opening m /\ keeping m.
Proof.
  intros H. split; intros s; rewrite H; auto.
Qed.

Lemma careful_login : opening (@login_and_get_token E) /\ keeping (@login_and_get_token E).
Proof.
  assert (H : forall s, snd (login_and_get_token s) = s
                        \/ session_open (snd (@login_and_get_token E s)) = true).
  { intros s. unfold login_and_get_token.
    destruct (_ || _); [left; reflexivity|]. right.
    destruct (http_post E _ _) as [resp w].
    destruct resp as [e | body cookie]; [reflexivity|].
    destruct (get body "Tag" PNone) as [tag | e]; [|reflexivity].
    destruct (negb (eq_int tag 1)).
    - destruct (get body "Message" _); reflexivity.
    - destruct cookie; reflexivity. }
  split; [exact H|]. intros s Hs. destruct (H s) as [-> | Ho]; assumption.
Qed.

Lemma careful_request : opening (@_request_balance E) /\ keeping (@_request_balance E).
Proof.
  assert (H : forall s, snd (_request_balance s) = s
                        \/ session_open (snd (@_request_balance E s)) = true).
  { intros s. unfold _request_balance.
    destruct (negb _); [left; reflexivity|]. right.
    destruct (http_post E _ _) as [resp w]. destruct resp; reflexivity. }
  split; [exact H|]. intros s Hs. destruct (H s) as [-> | Ho]; assumption.
Qed.

Lemma careful_relogin : opening (@relogin_and_retry E) /\ keeping (@relogin_and_retry E).
Proof.
  unfold relogin_and_retry. apply careful_bind; [apply careful_login | intros _].
  apply careful_bind; [apply careful_request | intros data].
  apply careful_here. reflexivity.
Qed.

Lemma careful_first_attempt (b : bool) :
  opening (first_attempt (E := E) b) /\ keeping (first_attempt (E := E) b).
Proof.
  assert (H : forall s, (snd (first_attempt b s) = s
                         \/ session_open (snd (first_attempt (E := E) b s)) = true)
                        /\ (session_open s = true ->
                            session_open (snd (first_attempt b s)) = true)).
  { intros s. unfold first_attempt. set (m := bind _ _).
    assert (Hm : opening m /\ keeping m); [|split; apply Hm].
    unfold m. apply careful_bind.
    - destruct (_ && _).
      + apply careful_bind; [apply careful_login | intros _].
        apply careful_here. reflexivity.
      + apply careful_here. reflexivity.
    - intros _. apply careful_bind; [apply careful_request | intros data].
      apply careful_here. reflexivity. }
  split; intros s; apply H.
Qed.

(** X7: [get_balance] never closes the session: when it did anything at all,
    the session is open afterwards, and a session that was open stays
    open; only [close] ends it. *)
Theorem requests_open_the_session (auto_retry : bool) (s : state E) :
  (snd (get_balance auto_retry s) = s
   \/ session_open (snd (get_balance auto_retry s)) = true)
  /\ (session_open s = true ->
      session_open (snd (get_balance auto_retry s)) = true)
  /\ session_open (close (snd (get_balance auto_retry s))) = false.
Proof.
  destruct (careful_first_attempt auto_retry) as [O1 K1].
  destruct careful_relogin as [O2 K2].
  specialize (O1 s). specialize (K1 s). unfold get_balance.
  destruct (first_attempt auto_retry s) as [[info | exc] s1]; simpl in *;
    [auto|].
  destruct (_ && _); [|auto].
  specialize (O2 s1). specialize (K2 s1).
  split; [|split; [auto | reflexivity]].
  destruct O1 as [-> | Ho]; [exact O2 | right; auto].
Qed.

End Close.

End SessionFacts.

(* ===================================================================== *)
(** ** [_dedupe_list]                                                    *)
(* ===================================================================== *)

(* ===================================================================== *)
(** ** More on the destination list                                      *)
(* ===================================================================== *)

Module DedupeFacts.

Import Subscription SubscriptionFacts.

Lemma eq_scalar_cases (a b : pyval) :
  eq_scalar a b = true
  <-> (a = PNone /\ b = PNone)
      \/ (exists s, a = PStr s /\ b = PStr s)
      \/ (exists x y, number_of a = Some x /\ number_of b = Some y
                      /\ Qeq_bool x y = true).
Proof.
  split.
  - destruct a, b; simpl; intros H; try discriminate H; auto;
      try (right; right; eauto 10; fail).
    apply String.eqb_eq in H. subst. right. left. eauto.
  - intros [[-> ->] | [[s [-> ->]] | (x & y & Ha & Hb & Hq)]].
    + reflexivity.
    + simpl. apply String.eqb_refl.
    + destruct a, b; simpl in *; try discriminate;
        injection Ha as <-; injection Hb as <-; exact Hq.
Qed.

Lemma eq_scalar_trans (a b c : pyval) :
  eq_scalar a b = true -> eq_scalar b c = true -> eq_scalar a c = true.
Proof.
  intros H1 H2. apply eq_scalar_cases in H1, H2. apply eq_scalar_cases.
  destruct H1 as [[Ha Hb] | [[s [Ha Hb]] | (x & y & Ha & Hb & Hq)]];
    destruct H2 as [[Hb' Hc] | [[s' [Hb' Hc]] | (y' & z & Hb' & Hc & Hq')]];
    subst; simpl in *; try discriminate.
  - auto.
  - injection Hb' as ->. right. left. eauto.
  - right. right. rewrite Hb in Hb'. injection Hb' as <-.
    exists x, z. split; [assumption|]. split; [assumption|].
    exact (Qeq_bool_trans _ _ _ Hq Hq').
Qed.

Lemma eq_scalar_refl (a : pyval) : hashable a = true -> eq_scalar a a = true.
Proof.
  destruct a; simpl; try discriminate; intros _;
    auto using Qeq_bool_refl, String.eqb_refl.
Qed.

Lemma dedupe_loop_shape (items seen acc r : list pyval) :
  dedupe_loop items seen acc = Ok r ->
  exists kept, r = acc ++ kept /\ sublist kept items
               /\ List.Forall (fun x => hashable x = true) items.
Proof.
  revert seen acc. induction items as [|item rest IH]; intros seen acc; simpl.
  - intros [= <-]. exists []. rewrite app_nil_r. repeat constructor.
  - destruct (hashable item) eqn:Hh; simpl; [|discriminate].
    destruct (existsb (eq_scalar item) seen).
    + intros H. destruct (IH _ _ H) as (kept & -> & Hsub & Hall).
      exists kept. split; [reflexivity|]. split; [apply sublist_cons, Hsub|].
      constructor; assumption.
    + intros H. destruct (IH _ _ H) as (kept & -> & Hsub & Hall).
      exists (item :: kept). rewrite <- app_assoc. split; [reflexivity|].
      split; [apply sublist_skip, Hsub | constructor; assumption].
Qed.

Lemma dedupe_loop_total (items seen acc : list pyval) :
  List.Forall (fun x => hashable x = true) items ->
  exists r, dedupe_loop items seen acc = Ok r.
Proof.
  intros Hall. revert seen acc.
  induction Hall as [|item rest Hi _ IH]; intros seen acc; simpl; [eauto|].
  rewrite Hi. simpl. destruct (existsb _ seen); apply IH.
Qed.

Lemma dedupe_loop_raises (pre post seen acc : list pyval) (x : pyval) :
  List.Forall (fun y => hashable y = true) pre -> hashable x = false ->
  dedupe_loop (pre ++ x :: post) seen acc = Raise (unhashable x).
Proof.
  intros Hall Hx. revert seen acc.
  induction Hall as [|item rest Hi _ IH]; intros seen acc; simpl.
  - rewrite Hx. reflexivity.
  - rewrite Hi. simpl. destruct (existsb _ seen); apply IH.
Qed.

Lemma dedupe_loop_member (items seen acc r : list pyval) (x : pyval) :
  dedupe_loop items seen acc = Ok r ->
  (forall y, In y seen -> In y acc) ->
  member x r = member x acc || member x items.
Proof.
  unfold member. revert seen acc.
  induction items as [|item rest IH]; intros seen acc; simpl.
  - intros [= <-] _. rewrite orb_false_r. reflexivity.
  - destruct (hashable item); simpl; [|discriminate].
    destruct (existsb (eq_scalar item) seen) eqn:Hseen.
    + intros H Hsub. rewrite (IH _ _ H Hsub).
      destruct (eq_scalar x item) eqn:Hx; simpl; [|reflexivity].
      apply existsb_exists in Hseen as [y [Hy Hiy]].
      assert (Hacc : existsb (eq_scalar x) acc = true).
      { apply existsb_exists. exists y. split; [apply Hsub, Hy|].
        exact (eq_scalar_trans _ _ _ Hx Hiy). }
      rewrite Hacc. reflexivity.
    + intros H Hsub. rewrite (IH (item :: seen) (acc ++ [item]) H).
      * rewrite existsb_app. simpl. rewrite orb_false_r, orb_assoc. reflexivity.
      * intros y [<- | Hy]; apply in_or_app; simpl; auto.
Qed.

Lemma sublist_Forall (P : pyval -> Prop) (k l : list pyval) :
  sublist k l -> List.Forall P l -> List.Forall P k.
Proof.
  induction 1 as [|x k l _ IH | x k l _ IH]; intros Hl.
  - constructor.
  - inversion Hl; subst. constructor; auto.
  - inversion Hl; subst. auto.
Qed.

(** The items that equal none of the items before them; [before] holds
    what came earlier. *)
Fixpoint firsts (before items : list pyval) : list pyval :=
  match items with
  | [] => []
  | x :: rest =>
      if member x before then firsts (before ++ [x]) rest
      else x :: firsts (before ++ [x]) rest
  end.

Lemma dedupe_loop_firsts (items seen before acc r : list pyval) :
  (forall y, member y seen = member y before) ->
  dedupe_loop items seen acc = Ok r ->
  r = acc ++ firsts before items.
Proof.
  unfold member. revert seen before acc.
  induction items as [|item rest IH]; intros seen before acc Hsame; simpl.
  - intros [= <-]. rewrite app_nil_r. reflexivity.
  - destruct (hashable item); simpl; [|discriminate].
    fold (member item before). unfold member. rewrite <- (Hsame item).
    destruct (existsb (eq_scalar item) seen) eqn:Hseen.
    + apply IH. intros y. rewrite existsb_app, <- Hsame. simpl.
      rewrite orb_false_r.
      destruct (eq_scalar y item) eqn:Hy; [|rewrite orb_false_r; reflexivity].
      rewrite orb_true_r.
      apply existsb_exists in Hseen as [z [Hz Hiz]].
      apply existsb_exists. exists z. split; [exact Hz|].
      exact (eq_scalar_trans _ _ _ Hy Hiz).
    + intros H.
      assert (Hnext : forall y,
                 existsb (eq_scalar y) (item :: seen)
                 = existsb (eq_scalar y) (before ++ [item])).
      { intros y. rewrite existsb_app, <- Hsame. simpl.
        rewrite orb_false_r. apply orb_comm. }
      rewrite (IH (item :: seen) (before ++ [item]) (acc ++ [item]) Hnext H).
      rewrite <- app_assoc. reflexivity.
Qed.

(** X8: [_dedupe_list] on hashable items: it returns a sub-sequence of its
    argument that has no duplicates and the same members, and on which it
    is the identity; the items it keeps are those that equal none of the
    items before them, so of equal items the first one stays. *)
Theorem dedupe_list_keeps_first (items : list pyval) :
  List.Forall (fun x => hashable x = true) items ->
  exists d,
    _dedupe_list items = Ok d
    /\ sublist d items
    /\ no_duplicates d
    /\ (forall x, member x d = member x items)
    /\ _dedupe_list d = Ok d
    /\ d = firsts [] items.
Proof.
  intros Hall. destruct (dedupe_loop_total items [] [] Hall) as [d Hd].
  exists d. unfold _dedupe_list. split; [exact Hd|].
  pose proof (dedupe_loop_firsts items [] [] [] d (fun y => eq_refl) Hd) as Hf.
  destruct (dedupe_loop_shape _ _ _ _ Hd) as (kept & -> & Hsub & _). simpl in *.
  assert (Hnd : no_duplicates kept).
  { eapply dedupe_loop_no_duplicates; [exact Hd | auto | exact I]. }
  split; [exact Hsub|]. split; [exact Hnd|]. split; [|split; [|exact Hf]].
  - intros x. rewrite (dedupe_loop_member _ _ _ _ x Hd); auto.
  - apply (dedupe_loop_id kept [] []); auto.
    exact (sublist_Forall _ _ _ Hsub Hall).
Qed.

(** X9: [_dedupe_list] raises exactly when an item cannot be hashed, and the
    exception names the type of the first such item. *)
Theorem dedupe_list_unhashable (items : list pyval) :
  (forall e, _dedupe_list items = Raise e ->
             exists pre x post,
               items = pre ++ x :: post
               /\ List.Forall (fun y => hashable y = true) pre
               /\ hashable x = false /\ e = unhashable x)
  /\ (forall pre x post,
        items = pre ++ x :: post ->
        List.Forall (fun y => hashable y = true) pre -> hashable x = false ->
        _dedupe_list items = Raise (unhashable x)).
Proof.
  split.
  - unfold _dedupe_list. generalize (@nil pyval) at 1 as seen.
    generalize (@nil pyval) as acc.
    induction items as [|item rest IH]; intros acc seen e; simpl; [discriminate|].
    destruct (hashable item) eqn:Hh; simpl.
    + destruct (existsb _ seen); intros H;
        destruct (IH _ _ _ H) as (pre & x & post & -> & Hpre & Hx & ->);
        exists (item :: pre), x, post; repeat split; auto.
    + intros [= <-]. exists [], item, rest. repeat split; auto.
  - intros pre x post -> Hpre Hx. apply dedupe_loop_raises; assumption.
Qed.

Lemma dedupe_list_keeps_first_witness :
  exists d,
    _dedupe_list [PStr "room-7"; PInt 1; PStr "room-7"; PBool true] = Ok d
    /\ sublist d [PStr "room-7"; PInt 1; PStr "room-7"; PBool true].
Proof.
  destruct (dedupe_list_keeps_first
              [PStr "room-7"; PInt 1; PStr "room-7"; PBool true])
    as (d & H1 & H2 & _).
  - repeat constructor.
  - exists d. split; [exact H1 | exact H2].
Defined.

Example dedupe_numbers_by_value :
  _dedupe_list [PStr "room-7"; PInt 1; PStr "room-7"; PBool true; PFloat 1]
  = Ok [PStr "room-7"; PInt 1].
Proof. reflexivity. Qed.

End DedupeFacts.

(* ===================================================================== *)
(** ** Writing and reading the destinations                              *)
(* ===================================================================== *)

Module RoundTripFacts.

Import Subscription SubscriptionFacts DedupeFacts.

Lemma remove_first_snoc (o : string) (l : list pyval) :
  member (PStr o) l = false ->
  remove_first (PStr o) (l ++ [PStr o]) = l.
Proof.
  unfold member. induction l as [|y l IH]; cbn [existsb remove_first app].
  - intros _. simpl. rewrite String.eqb_refl. reflexivity.
  - intros H. apply orb_false_iff in H as [Hy Hl].
    rewrite Hy, (IH Hl). reflexivity.
Qed.

Lemma member_remove_first (o : string) (l : list pyval) :
  no_duplicates l -> member (PStr o) (remove_first (PStr o) l) = false.
Proof.
  unfold member. induction l as [|y l IH]; [reflexivity|].
  cbn [existsb remove_first no_duplicates].
  intros [Hy Hl].
  destruct (eq_scalar (PStr o) y) eqn:Heq.
  - apply eq_scalar_str in Heq. subst y.
    destruct (existsb (eq_scalar (PStr o)) l) eqn:Hex; [|reflexivity].
    apply existsb_exists in Hex as [z [Hz Hoz]].
    apply eq_scalar_str in Hoz. subst z.
    rewrite List.Forall_forall in Hy. specialize (Hy _ Hz).
    simpl in Hy. rewrite String.eqb_refl in Hy. discriminate.
  - cbn [existsb]. rewrite Heq. simpl. apply IH, Hl.
Qed.

Section Handlers.

Variable json_loads : string -> result pyval.

Local Abbreviation subscribe := (subscribe json_loads).
Local Abbreviation unsubscribe := (unsubscribe json_loads).
Local Abbreviation _get_notify_origins := (_get_notify_origins json_loads).

(** X10: What [_set_notify_origins] wrote is what [_get_notify_origins] reads
    back: the list without its duplicates, saved, with every other key of
    the configuration as it was; and when it raises it wrote nothing. *)
Theorem set_then_get_origins (origins : list pyval) (c c' : store)
        (r : result unit) :
  _set_notify_origins origins c = (r, c') ->
  match r with
  | Ok _ =>
      exists d, _dedupe_list origins = Ok d
                /\ _get_notify_origins c' = Ok d
                /\ persisted "notify_origins" c' = PList d
                /\ disk c' = mem c'
                /\ forall k, k <> "notify_origins" ->
                             config_get k c' = config_get k c
  | Raise _ => c' = c
  end.
Proof.
  unfold _set_notify_origins.
  destruct (_dedupe_list origins) as [d | e]; intros [= <- <-]; [|reflexivity].
  exists d. split; [reflexivity|].
  split; [apply origins_of_list, get_after_write|].
  split; [apply get_after_write|]. split; [reflexivity|].
  intros k Hk. unfold config_get, save_config, config_set. simpl.
  rewrite lookup_insert_ne by congruence. reflexivity.
Qed.

(** X11: On a stored list without duplicates, subscribing a new destination
    and unsubscribing it again gives back the stored list. *)
Theorem subscribe_unsubscribe_round_trip (origin : string) (c : store)
        (l : list pyval) :
  config_get "notify_origins" c = PList l ->
  List.Forall (fun x => hashable x = true) l ->
  no_duplicates l ->
  member (PStr origin) l = false ->
  exists c1 c2,
    subscribe origin c = (Ok NowSubscribed, c1)
    /\ unsubscribe origin c1 = (Ok NowUnsubscribed, c2)
    /\ config_get "notify_origins" c2 = PList l
    /\ persisted "notify_origins" c2 = PList l.
Proof.
  intros Hst Hh Hnd Hm.
  destruct (order_kept json_loads origin c l Hst Hh Hnd) as [Hsub _].
  destruct (Hsub Hm) as (c1 & Hs1 & Hg1 & _).
  assert (Hh1 : List.Forall (fun x => hashable x = true) (l ++ [PStr origin])).
  { apply Forall_app. split; [exact Hh | repeat constructor]. }
  assert (Hnd1 : no_duplicates (l ++ [PStr origin])).
  { apply no_duplicates_app. repeat split; simpl; auto.
    intros x y Hx [<- | []].
    destruct (eq_scalar (PStr origin) x) eqn:Heq; [|reflexivity].
    rewrite <- Hm. symmetry. apply existsb_exists. eauto. }
  destruct (order_kept json_loads origin c1 _ Hg1 Hh1 Hnd1) as [_ Hun].
  destruct (Hun (member_snoc origin l)) as (c2 & Hs2 & Hg2 & Hp2).
  rewrite (remove_first_snoc origin l Hm) in Hg2, Hp2.
  exists c1, c2. auto.
Qed.

(** X12: On a stored list without duplicates, a destination that was
    unsubscribed is no longer in the list. *)
Theorem unsubscribe_removes (origin : string) (c : store) (l : list pyval) :
  config_get "notify_origins" c = PList l ->
  List.Forall (fun x => hashable x = true) l ->
  no_duplicates l ->
  member (PStr origin) l = true ->
  exists c1 l1,
    unsubscribe origin c = (Ok NowUnsubscribed, c1)
    /\ _get_notify_origins c1 = Ok l1
    /\ member (PStr origin) l1 = false
    /\ length l1 = pred (length l).
Proof.
  intros Hst Hh Hnd Hm.
  destruct (order_kept json_loads origin c l Hst Hh Hnd) as [_ Hun].
  destruct (Hun Hm) as (c1 & Hs1 & Hg1 & _).
  exists c1, (remove_first (PStr origin) l).
  split; [exact Hs1|]. split; [apply origins_of_list, Hg1|].
  split; [apply member_remove_first, Hnd|].
  clear -Hm. unfold member in Hm. induction l as [|y l IH]; [discriminate|].
  cbn [existsb remove_first length] in *.
  destruct (eq_scalar (PStr origin) y); [reflexivity|].
  cbn [orb length] in *.
  rewrite (IH Hm). destruct l; [discriminate | reflexivity].
Qed.

End Handlers.

(** A list that was edited by hand to hold a destination twice: one
    [unsubscribe] takes out one occurrence, and the destination stays
    subscribed. *)
Example unsubscribe_one_of_two :
  let m : gmap string pyval :=
    {[ "notify_origins" := PList [PStr "room-7"; PStr "room-7"] ]} in
  config_get "notify_origins"
    (snd (Subscription.unsubscribe ListingFacts.no_json "room-7" (Store m m)))
  = PList [PStr "room-7"].
Proof. reflexivity. Qed.

Lemma set_then_get_origins_witness :
  exists d,
    _dedupe_list [PStr "room-7"; PStr "room-7"] = Ok d
    /\ Subscription._get_notify_origins ListingFacts.no_json
         (snd (_set_notify_origins [PStr "room-7"; PStr "room-7"] (Store ∅ ∅)))
       = Ok d.
Proof.
  pose proof (set_then_get_origins ListingFacts.no_json
                [PStr "room-7"; PStr "room-7"] (Store ∅ ∅)
                (snd (_set_notify_origins [PStr "room-7"; PStr "room-7"] (Store ∅ ∅)))
                (Ok tt) eq_refl) as (d & H1 & H2 & _).
  exists d. split; [exact H1 | exact H2].
Defined.

Lemma subscribe_unsubscribe_round_trip_witness :
  exists c1 c2,
    Subscription.subscribe ListingFacts.no_json "group-2" one_room
    = (Ok NowSubscribed, c1)
    /\ Subscription.unsubscribe ListingFacts.no_json "group-2" c1
       = (Ok NowUnsubscribed, c2)
    /\ config_get "notify_origins" c2 = PList [PStr "room-7"].
Proof.
  destruct (subscribe_unsubscribe_round_trip ListingFacts.no_json "group-2"
              one_room [PStr "room-7"])
    as (c1 & c2 & H1 & H2 & H3 & _).
  - reflexivity.
  - repeat constructor.
  - simpl. auto.
  - reflexivity.
  - exists c1, c2. auto.
Defined.

Lemma unsubscribe_removes_witness :
  exists c1 l1,
    Subscription.unsubscribe ListingFacts.no_json "room-7" one_room
    = (Ok NowUnsubscribed, c1)
    /\ Subscription._get_notify_origins ListingFacts.no_json c1 = Ok l1
    /\ member (PStr "room-7") l1 = false.
Proof.
  destruct (unsubscribe_removes ListingFacts.no_json "room-7"
              one_room [PStr "room-7"])
    as (c1 & l1 & H1 & H2 & H3 & _).
  - reflexivity.
  - repeat constructor.
  - simpl. auto.
  - reflexivity.
  - exists c1, l1. auto.
Defined.

End RoundTripFacts.

(* ===================================================================== *)
(** ** What an iteration of the loop sends                               *)
(* ===================================================================== *)

Module NotifyFacts.

Import Client Monitor ClientFacts MonitorFacts.

Definition is_request (ev : event) : bool := is_login ev || is_fetch ev.

(** The requests sent to the service, among some events. *)
Definition requests (evs : list event) : list event := List.filter is_request evs.

(** Whom a message was handed to, and what it said, delivered or not. *)
Definition notices (evs : list event) : list (pyval * string) :=
  flat_map (fun ev => match ev with EvSend o p _ => [(o, p)] | _ => [] end) evs.

Lemma requests_app (a b : list event) : requests (a ++ b) = requests a ++ requests b.
Proof. apply List.filter_app. Qed.

Lemma notices_app (a b : list event) : notices (a ++ b) = notices a ++ notices b.
Proof. apply flat_map_app. Qed.

Section Loop.

Variable E : env.

(** The text handed to the transport for [text]. *)
Definition payload_of (text : string) (use_card : bool) (c : store) : string :=
  if use_card && truthy (_get_config "use_onebot11_card" (PBool true) c)
  then _to_cq_card E text else text.

(** The client object and the configuration are as they were. *)
Definition same_client (s s' : state E) : Prop :=
  token s' = token s /\ account s' = account s /\ password s' = password s
  /\ session_open s' = session_open s /\ conf s' = conf s.

Lemma send_effect (origins : list pyval) (text : string) (card : bool)
      (s : state E) :
  exists evs,
    trace (_send_to_origins origins text card s) = trace s ++ evs
    /\ notices evs = map (fun o => (o, payload_of text card (conf s))) origins
    /\ requests evs = []
    /\ length evs = length origins
    /\ same_client s (_send_to_origins origins text card s).
Proof.
  revert s. induction origins as [|o rest IH]; intros s; simpl.
  - exists []. rewrite app_nil_r. unfold same_client. auto 10.
  - destruct (send_message E o _ (now_world s)) as [r w] eqn:Hsend.
    destruct (IH (with_world w
                    [EvSend o (payload_of text card (conf s)) (delivered r)] s))
      as (evs & Ht & Hn & Hr & Hl & Hc).
    unfold payload_of in *. simpl in *.
    exists (EvSend o (if card && truthy (_get_config "use_onebot11_card"
                                           (PBool true) (conf s))
                      then _to_cq_card E text else text) (delivered r) :: evs).
    rewrite Ht, <- app_assoc. simpl. rewrite Hn, Hl.
    repeat split; auto; apply Hc.
Qed.


(** An operation of the client adds requests to the trace, nothing else. *)
Definition only_requests {A} (m : M E A) : Prop :=
  forall s r s', m s = (r, s') ->
    exists evs, trace s' = trace s ++ evs /\ forallb is_request evs = true.

Lemma only_requests_bind {A B} (m : M E A) (k : A -> M E B) :
  only_requests m -> (forall a, only_requests (k a)) -> only_requests (bind m k).
Proof.
  intros Hm Hk s r s'. unfold bind.
  destruct (m s) as [[a | e] s1] eqn:H1; intros H2.
  - destruct (Hm _ _ _ H1) as (e1 & T1 & F1).
    destruct (Hk a _ _ _ H2) as (e2 & T2 & F2).
    exists (e1 ++ e2). rewrite T2, T1, <- app_assoc, forallb_app, F1, F2. auto.
  - injection H2 as <- <-. exact (Hm _ _ _ H1).
Qed.

Lemma only_requests_here {A} (m : M E A) :
  (forall s, snd (m s) = s) -> only_requests m.
Proof.
  intros H s r s' Hm. exists []. rewrite app_nil_r.
  specialize (H s). rewrite Hm in H. simpl in H. subst. auto.
Qed.

Lemma only_requests_login : only_requests (@login_and_get_token E).
Proof.
  intros s r s' H. destruct (login_effect E H) as [(_ & -> & _) | (_ & (T & _) & _)].
  - exists []. rewrite app_nil_r. auto.
  - eexists. split; [exact T | reflexivity].
Qed.

Lemma only_requests_request : only_requests (@_request_balance E).
Proof.
  intros s r s' H. destruct (request_effect E H) as [(-> & _) | (T & _)].
  - exists []. rewrite app_nil_r. auto.
  - eexists. split; [exact T | reflexivity].
Qed.

Lemma only_requests_relogin : only_requests (@relogin_and_retry E).
Proof.
  unfold relogin_and_retry.
  apply only_requests_bind; [apply only_requests_login | intros _].
  apply only_requests_bind; [apply only_requests_request | intros data].
  apply only_requests_here. reflexivity.
Qed.

Lemma only_requests_first_attempt (b : bool) : only_requests (first_attempt (E := E) b).
Proof.
  intros s r s'. unfold first_attempt.
  set (m := bind _ _).
  assert (Hm : only_requests m); [|apply Hm].
  unfold m. apply only_requests_bind.
  - destruct (_ && _).
    + apply only_requests_bind; [apply only_requests_login | intros _].
      apply only_requests_here. reflexivity.
    + apply only_requests_here. reflexivity.
  - intros _. apply only_requests_bind; [apply only_requests_request | intros data].
    apply only_requests_here. reflexivity.
Qed.

Lemma only_requests_get_balance (b : bool) : only_requests (get_balance (E := E) b).
Proof.
  intros s r s'. unfold get_balance.
  destruct (first_attempt b s) as [[info | exc] s1] eqn:H1.
  - intros [= <- <-]. exact (only_requests_first_attempt _ _ _ _ H1).
  - destruct (only_requests_first_attempt _ _ _ _ H1) as (e1 & T1 & F1).
    destruct (_ && _).
    + intros H2. destruct (only_requests_relogin _ _ _ H2) as (e2 & T2 & F2).
      exists (e1 ++ e2). rewrite T2, T1, <- app_assoc, forallb_app, F1, F2. auto.
    + intros [= <- <-]. eauto.
Qed.

Lemma requests_no_notice (evs : list event) :
  forallb is_request evs = true -> notices evs = [] /\ requests evs = evs.
Proof.
  induction evs as [|ev evs IH]; simpl; [auto|].
  intros H. apply andb_prop in H as [H1 H2]. destruct (IH H2) as [-> Hr].
  unfold requests in *. simpl. rewrite H1, Hr.
  destruct ev; try discriminate; auto.
Qed.

(** *** The shape of an iteration *)

Lemma truthy_list (l : list pyval) : truthy (PList l) = true <-> l <> [].
Proof. destruct l; simpl; split; congruence. Qed.

Lemma interval_never_raises (c : store) :
  exists minutes, interval_minutes_of E c = Ok minutes.
Proof.
  unfold interval_minutes_of, to_int.
  destruct (_get_config "check_interval_minutes" (PInt 60) c); eauto.
  destruct (int_of_str E s); eauto.
Qed.

Lemma check_stage_shape (now : Q) (s s' : state E) (o : outcome) :
  check_stage now s = (o, s') ->
  match o with
  | Waited _ => False
  | Idle =>
      s' = s
      /\ (truthy (_get_config "auto_check" (PBool true) (conf s)) = false
          \/ _normalize_list (json_loads E) (config_get "notify_origins" (conf s))
             = Ok [])
  | Crashed e =>
      s' = s
      /\ truthy (_get_config "auto_check" (PBool true) (conf s)) = true
      /\ _normalize_list (json_loads E) (config_get "notify_origins" (conf s))
         = Raise e
  | Checked bal =>
      exists origins,
        truthy (_get_config "auto_check" (PBool true) (conf s)) = true
        /\ _normalize_list (json_loads E) (config_get "notify_origins" (conf s))
           = Ok origins
        /\ origins <> []
        /\ check_body origins now s = (Ok bal, s')
  | CheckFailed exc =>
      exists origins s1,
        truthy (_get_config "auto_check" (PBool true) (conf s)) = true
        /\ _normalize_list (json_loads E) (config_get "notify_origins" (conf s))
           = Ok origins
        /\ origins <> []
        /\ check_body origins now s = (Raise exc, s1)
        /\ s' = _send_to_origins origins (failure_text exc) false s1
  end.
Proof.
  unfold check_stage.
  destruct (truthy (_get_config "auto_check" _ _)) eqn:Ha;
    [|intros [= <- <-]; auto].
  destruct (_normalize_list _ _) as [origins | e] eqn:Hn;
    [|intros [= <- <-]; auto].
  destruct (truthy (PList origins)) eqn:Ht.
  - apply truthy_list in Ht.
    destruct (check_body origins now s) as [[bal | exc] s1] eqn:Hb;
      intros [= <- <-]; eauto 10.
  - intros [= <- <-]. split; [reflexivity|]. right.
    destruct origins; [reflexivity | discriminate].
Qed.

Lemma check_then_sleep_shape (minutes : Z) (now : Q) (s s' : state E) (o : outcome) :
  check_then_sleep minutes now s = (o, s') ->
  match o with
  | Crashed e => check_stage now s = (Crashed e, s')
  | _ => exists s1, check_stage now s = (o, s1)
                    /\ s' = do_sleep (inject_Z (minutes * 60)) s1
  end.
Proof.
  unfold check_then_sleep.
  destruct (check_stage now s) as [[secs | | bal | exc | e] s1];
    intros [= <- <-]; eauto.
Qed.

(** Where the check of an iteration starts: the state itself, or the state
    with the timestamp cleared. *)
Lemma iteration_shape (s s' : state E) (o : outcome) :
  monitor_iteration s = (o, s') ->
  (exists secs, o = Waited secs /\ s' = do_sleep secs s)
  \/ (exists e, o = Crashed e /\ s' = s
                /\ is_none (last_check_of s) = false
                /\ to_float (float_of_str E) (last_check_of s) = Raise e)
  \/ (exists minutes s0,
        interval_minutes_of E (conf s) = Ok minutes
        /\ (s0 = s \/ s0 = cleared s)
        /\ check_then_sleep minutes (now_of s) s0 = (o, s')).
Proof.
  unfold monitor_iteration.
  destruct (interval_never_raises (conf s)) as [minutes Hi]. rewrite Hi.
  fold (last_check_of s). fold (now_of s).
  destruct (is_none (last_check_of s)) eqn:Hn; simpl.
  - intros H. right. right. exists minutes, s. auto.
  - destruct (to_float (float_of_str E) (last_check_of s)) as [last | e] eqn:Hf.
    + destruct (Qle_bool last (now_of s)).
      * destruct (Qltb _ _).
        -- intros [= <- <-]. left. eauto.
        -- intros H. right. right. exists minutes, s. auto.
      * intros H. right. right. exists minutes, (cleared s). auto.
    + intros [= <- <-]. right. left. eauto.
Qed.

Lemma cleared_reads (k : string) (d : pyval) (s : state E) :
  k <> "last_check_ts" ->
  _get_config k d (conf (cleared s)) = _get_config k d (conf s).
Proof.
  intros Hk. unfold _get_config. rewrite (config_get_cleared E k s Hk). reflexivity.
Qed.

(** *** What is sent, and to whom *)

(** X13: [_send_to_origins] hands the message to every destination of the
    list, once each and in the order of the list, whether or not a
    delivery fails; it sends no request and leaves the client object and
    the configuration as they were. *)
Theorem send_reaches_every_destination (origins : list pyval) (text : string)
        (use_card : bool) (s : state E) :
  exists evs,
    trace (_send_to_origins origins text use_card s) = trace s ++ evs
    /\ notices evs = map (fun o => (o, payload_of text use_card (conf s))) origins
    /\ length evs = length origins
    /\ requests evs = []
    /\ same_client s (_send_to_origins origins text use_card s).
Proof.
  destruct (send_effect origins text use_card s) as (evs & H1 & H2 & H3 & H4 & H5).
  exists evs. auto.
Qed.

(** X14: The interval of the loop: reading it never fails, it is at least one
    minute, a stored integer below one counts as one, and 60 is used when
    nothing is stored or the stored value is no number. *)
Theorem interval_is_usable (c : store) :
  exists minutes,
    interval_minutes_of E c = Ok minutes
    /\ (1 <= minutes)%Z
    /\ (forall z, config_get "check_interval_minutes" c = PInt z ->
                  minutes = Z.max 1 z)
    /\ (config_get "check_interval_minutes" c = PNone -> minutes = 60%Z)
    /\ (forall e, to_int (int_of_str E) (config_get "check_interval_minutes" c)
                  = Raise e -> minutes = 60%Z).
Proof.
  destruct (interval_never_raises c) as [minutes Hm]. exists minutes.
  split; [exact Hm|]. split; [exact (interval_minutes_positive E c minutes Hm)|].
  revert Hm. unfold interval_minutes_of, _get_config.
  destruct (config_get "check_interval_minutes" c) as [| b | z | q | t | l | d];
    simpl.
  - intros [= <-]. repeat split; auto; discriminate.
  - intros [= <-]. repeat split; discriminate.
  - intros [= <-]. repeat split; try discriminate. intros z' [= ->]. reflexivity.
  - intros [= <-]. repeat split; discriminate.
  - destruct (int_of_str E t); simpl; intros [= <-]; repeat split; auto; discriminate.
  - intros [= <-]. repeat split; auto; discriminate.
  - intros [= <-]. repeat split; auto; discriminate.
Qed.

Lemma idle_stage (now : Q) (s s' : state E) (o : outcome) :
  truthy (_get_config "auto_check" (PBool true) (conf s)) = false
  \/ _normalize_list (json_loads E) (config_get "notify_origins" (conf s)) = Ok [] ->
  check_stage now s = (o, s') -> o = Idle /\ s' = s.
Proof.
  intros Hidle H. pose proof (check_stage_shape _ _ _ _ H) as Hs.
  destruct o as [secs | | bal | exc | e].
  - destruct Hs.
  - split; [reflexivity | apply Hs].
  - destruct Hs as (origins & Ha & Hn & Hne & _).
    destruct Hidle as [Hf | Hf]; congruence.
  - destruct Hs as (origins & s1 & Ha & Hn & Hne & _).
    destruct Hidle as [Hf | Hf]; congruence.
  - destruct Hs as (_ & Ha & Hn). destruct Hidle as [Hf | Hf]; congruence.
Qed.

Lemma idle_iteration (s s' : state E) (o : outcome) :
  truthy (_get_config "auto_check" (PBool true) (conf s)) = false
  \/ _normalize_list (json_loads E) (config_get "notify_origins" (conf s)) = Ok [] ->
  monitor_iteration s = (o, s') ->
  (exists secs, o = Waited secs /\ s' = do_sleep secs s)
  \/ (exists e, o = Crashed e /\ s' = s
                /\ is_none (last_check_of s) = false
                /\ to_float (float_of_str E) (last_check_of s) = Raise e)
  \/ (exists minutes s0,
        interval_minutes_of E (conf s) = Ok minutes
        /\ (s0 = s \/ s0 = cleared s)
        /\ o = Idle /\ s' = do_sleep (inject_Z (minutes * 60)) s0).
Proof.
  intros Hidle H.
  destruct (iteration_shape _ _ _ H) as [Hw | [Hc | (minutes & s0 & Hi & Hs0 & Hcs)]];
    auto.
  right. right. exists minutes, s0. split; [exact Hi|]. split; [exact Hs0|].
  assert (Hidle0 :
    truthy (_get_config "auto_check" (PBool true) (conf s0)) = false
    \/ _normalize_list (json_loads E) (config_get "notify_origins" (conf s0)) = Ok []).
  { destruct Hs0 as [-> | ->]; [exact Hidle|].
    rewrite cleared_reads by discriminate.
    rewrite (config_get_cleared E "notify_origins" s) by discriminate.
    exact Hidle. }
  pose proof (check_then_sleep_shape _ _ _ _ _ Hcs) as Hsh.
  destruct o as [secs | | bal | exc | e].
  - destruct Hsh as (s1 & Hst & _). destruct (idle_stage _ _ _ _ Hidle0 Hst).
    discriminate.
  - destruct Hsh as (s1 & Hst & ->). destruct (idle_stage _ _ _ _ Hidle0 Hst).
    subst. auto.
  - destruct Hsh as (s1 & Hst & _). destruct (idle_stage _ _ _ _ Hidle0 Hst).
    discriminate.
  - destruct Hsh as (s1 & Hst & _). destruct (idle_stage _ _ _ _ Hidle0 Hst).
    discriminate.
  - destruct (idle_stage _ _ _ _ Hidle0 Hsh). discriminate.
Qed.

(** X15: With the checks switched off, or with nobody subscribed, an iteration
    of the loop sends no request to the service and no message to
    anybody: it only sleeps (or ends, when the stored timestamp is no
    number), and the client object keeps its token. *)
Theorem idle_iteration_is_silent (s s' : state E) (o : outcome) :
  truthy (_get_config "auto_check" (PBool true) (conf s)) = false
  \/ _normalize_list (json_loads E) (config_get "notify_origins" (conf s)) = Ok [] ->
  monitor_iteration s = (o, s') ->
  (forall bal, o <> Checked bal)
  /\ (forall exc, o <> CheckFailed exc)
  /\ (trace s' = trace s \/ exists secs, trace s' = trace s ++ [EvSleep secs])
  /\ token s' = token s
  /\ (forall k, k <> "last_check_ts" ->
                config_get k (conf s') = config_get k (conf s)).
Proof.
  intros Hidle H.
  destruct (idle_iteration _ _ _ Hidle H)
    as [(secs & -> & ->) | [(e & -> & -> & _) | (minutes & s0 & _ & Hs0 & -> & ->)]].
  - repeat split; try discriminate; simpl; eauto.
  - repeat split; try discriminate; simpl; eauto.
  - repeat split; try discriminate; destruct Hs0 as [-> | ->]; simpl; eauto.
    intros k Hk. apply (config_get_cleared E k s Hk).
Qed.


(** The message of a low balance and the message of a recharge. *)
Definition low_notice (bal : Q) (info : snapshot) (c : store) : string :=
  payload_of (format_low_balance E bal (update_time info) (threshold_of c)) true c.

Definition recharge_notice (bal last : Q) (info : snapshot) (c : store) : string :=
  payload_of (format_recharge E bal last (update_time info)
                (_get_config "check_interval_minutes" (PInt 60) c)) true c.

(** What the stored [last_balance] is, read as the loop reads it. *)
Definition last_balance_is (last : option Q) (c : store) : Prop :=
  match last with
  | None => is_none (_get_config "last_balance" PNone c) = true
  | Some q => is_none (_get_config "last_balance" PNone c) = false
              /\ to_float (float_of_str E) (_get_config "last_balance" PNone c)
                 = Ok q
  end.

(** X17: A check that finds a numeric balance and a numeric threshold sends
    the low-balance message to every destination exactly when the balance
    is below the threshold, then the recharge message to every destination
    exactly when a last balance is stored and the new one is above it; it
    sends nothing else. *)
Theorem check_notifications (origins : list pyval) (now : Q) (s s1 : state E)
        (info : snapshot) (bal th : Q) (last : option Q) :
  get_balance (truthy (_get_config "auto_refresh_token" (PBool true) (conf s))) s
  = (Ok info, s1) ->
  to_float (float_of_str E) (balance info) = Ok bal ->
  to_float (float_of_str E) (threshold_of (conf s1)) = Ok th ->
  last_balance_is last (conf s1) ->
  exists evs s',
    check_body origins now s = (Ok bal, s')
    /\ trace s' = trace s1 ++ evs
    /\ requests evs = []
    /\ notices evs
       = (if Qltb bal th
          then map (fun o => (o, low_notice bal info (conf s1))) origins
          else [])
         ++ (match last with
             | Some q =>
                 if Qltb q bal
                 then map (fun o => (o, recharge_notice bal q info (conf s1))) origins
                 else []
             | None => []
             end).
Proof.
  intros Hg Hb Ht Hl. unfold check_body. rewrite Hg, Hb, Ht.
  set (s2 := if Qltb bal th then _ else s1).
  assert (H2 : exists e2,
             trace s2 = trace s1 ++ e2 /\ requests e2 = []
             /\ notices e2
                = (if Qltb bal th
                   then map (fun o => (o, low_notice bal info (conf s1))) origins
                   else [])
             /\ conf s2 = conf s1).
  { unfold s2. destruct (Qltb bal th).
    - destruct (send_effect origins
                  (format_low_balance E bal (update_time info)
                     (threshold_of (conf s1))) true s1)
        as (e2 & T & N & R & _ & C).
      exists e2. repeat split; auto. apply C.
    - exists []. rewrite app_nil_r. auto. }
  destruct H2 as (e2 & T2 & R2 & N2 & C2).
  destruct last as [q |]; simpl in Hl.
  - destruct Hl as [Hn Hq]. rewrite Hn, Hq. simpl.
    destruct (Qltb q bal).
    + destruct (send_effect origins
                  (format_recharge E bal q (update_time info)
                     (_get_config "check_interval_minutes" (PInt 60) (conf s2)))
                  true s2)
        as (e3 & T3 & N3 & R3 & _ & C3).
      eexists (e2 ++ e3), _. split; [reflexivity|]. simpl.
      rewrite T3, T2, <- app_assoc, requests_app, notices_app, R2, R3, N2, N3, C2.
      auto.
    + eexists e2, _. split; [reflexivity|]. simpl.
      rewrite T2, R2, N2, app_nil_r. auto.
  - rewrite Hl. simpl.
    eexists e2, _. split; [reflexivity|]. simpl.
    rewrite T2, R2, N2, app_nil_r. auto.
Qed.

(** X18: When a check fails, every destination is sent the text of the
    failure, as plain text, after whatever the check had done; then the
    loop sleeps for a whole interval. *)
Theorem failed_check_notifies_everyone (s s' : state E) (exc : exn) :
  monitor_iteration s = (CheckFailed exc, s') ->
  exists minutes origins before sends,
    interval_minutes_of E (conf s) = Ok minutes
    /\ _normalize_list (json_loads E) (config_get "notify_origins" (conf s))
       = Ok origins
    /\ origins <> []
    /\ trace s' = trace s ++ before ++ sends
                            ++ [EvSleep (inject_Z (minutes * 60))]
    /\ notices sends = map (fun o => (o, failure_text exc)) origins
    /\ requests sends = []
    /\ length sends = length origins.
Proof.
  intros H.
  destruct (iteration_shape _ _ _ H)
    as [(secs & Ho & _) | [(e' & Ho & _) | (minutes & s0 & Hi & Hs0 & Hcs)]];
    try discriminate.
  destruct (check_then_sleep_shape _ _ _ _ _ Hcs) as (s1 & Hst & ->).
  destruct (check_stage_shape _ _ _ _ Hst) as (origins & s2 & _ & Hn & Hne & Hb & ->).
  assert (Hn0 : _normalize_list (json_loads E)
                  (config_get "notify_origins" (conf s)) = Ok origins).
  { destruct Hs0 as [-> | ->]; [exact Hn|].
    rewrite (config_get_cleared E "notify_origins" s) in Hn by discriminate.
    exact Hn. }
  assert (Hbefore : exists before, trace s2 = trace s ++ before).
  { revert Hb. unfold check_body. cbv zeta.
    destruct (get_balance _ s0) as [[info | e] s3] eqn:Hg.
    - destruct (only_requests_get_balance _ _ _ _ Hg) as (e1 & T1 & _).
      assert (T0 : trace s0 = trace s) by (destruct Hs0 as [-> | ->]; reflexivity).
      rewrite T0 in T1.
      destruct (to_float _ (balance info)) as [q |]; [|intros [= _ <-]; eauto].
      destruct (to_float _ (threshold_of _)) as [th |]; [|intros [= _ <-]; eauto].
      set (s4 := if Qltb _ _ then _ else s3).
      assert (H4 : exists e4, trace s4 = trace s3 ++ e4).
      { unfold s4. destruct (Qltb _ _).
        - destruct (send_effect origins
                      (format_low_balance E q (update_time info)
                         (threshold_of (conf s3))) true s3) as (e4 & T4 & _).
          eauto.
        - exists []. rewrite app_nil_r. reflexivity. }
      destruct H4 as (e4 & T4).
      destruct (negb _).
      + destruct (to_float _ _) as [a |].
        * destruct (Qltb a q); discriminate.
        * intros [= _ <-]. exists (e1 ++ e4). rewrite T4, T1, app_assoc. reflexivity.
      + discriminate.
    - destruct (only_requests_get_balance _ _ _ _ Hg) as (e1 & T1 & _).
      assert (T0 : trace s0 = trace s) by (destruct Hs0 as [-> | ->]; reflexivity).
      rewrite T0 in T1. intros [= _ <-]. eauto. }
  destruct Hbefore as (before & Tb).
  destruct (send_effect origins (failure_text exc) false s2)
    as (sends & T & N & R & L & _).
  exists minutes, origins, before, sends.
  split; [exact Hi|]. split; [exact Hn0|]. split; [exact Hne|].
  split; [|auto]. simpl. rewrite T, Tb, <- !app_assoc. reflexivity.
Qed.

End Loop.

Import Scenario.

(** The checks are switched off. *)
Definition switched_off : state toy :=
  plugin (settings [("auto_check", PBool false)]) [balance_reply].

(** The stored timestamp is a text that is no number. *)
Definition bad_timestamp : state toy :=
  plugin (settings [("last_check_ts", PStr "soon")]) [balance_reply].

Lemma idle_iteration_is_silent_witness :
  (trace (snd (monitor_iteration switched_off)) = trace switched_off
   \/ exists secs,
        trace (snd (monitor_iteration switched_off))
        = trace switched_off ++ [EvSleep secs])
  /\ token (snd (monitor_iteration switched_off)) = token switched_off.
Proof.
  destruct (idle_iteration_is_silent toy switched_off
              (snd (monitor_iteration switched_off))
              (fst (monitor_iteration switched_off)))
    as (_ & _ & H1 & H2 & _).
  - left. reflexivity.
  - apply surjective_pairing.
  - exact (conj H1 H2).
Defined.


Lemma check_notifications_witness :
  exists evs s',
    check_body [PStr "room-7"] 10000 first_run = (Ok (31 # 2), s')
    /\ trace s' = trace (snd (get_balance true first_run)) ++ evs
    /\ notices evs = [(PStr "room-7", "low balance"); (PStr "room-7", "recharged")].
Proof.
  destruct (check_notifications toy [PStr "room-7"] 10000 first_run
              (snd (get_balance true first_run))
              (snapshot_of (PStr "A101") meter1) (31 # 2) (30 # 1) (Some 10%Q))
    as (evs & s' & H1 & H2 & _ & H3).
  - reflexivity.
  - reflexivity.
  - reflexivity.
  - split; reflexivity.
  - exists evs, s'. auto.
Defined.

Lemma failed_check_notifies_everyone_witness :
  exists before sends,
    trace (snd (monitor_iteration overdue_offline))
    = trace overdue_offline ++ before ++ sends ++ [EvSleep (inject_Z (60 * 60))]
    /\ notices sends
       = [(PStr "room-7",
           failure_text (Exn ClientError "Cannot connect to host"))].
Proof.
  destruct (failed_check_notifies_everyone toy overdue_offline
              (snd (monitor_iteration overdue_offline))
              (Exn ClientError "Cannot connect to host") eq_refl)
    as (minutes & origins & before & sends & Hi & Hn & _ & Ht & Hs & _).
  injection Hi as <-. injection Hn as <-.
  exists before, sends. auto.
Defined.

End NotifyFacts.

(* ===================================================================== *)
(** ** Starting, restarting and unloading                                *)
(* ===================================================================== *)

Module LifecycleFacts.

Import Singleton SingletonFacts.

Lemma done_spawn (i : nat) (p : process) : done (length (tasks p)) (spawn i p) = false.
Proof.
  pose proof (live_spawn (length (tasks p)) i p) as H.
  rewrite Nat.eqb_refl in H. apply live_not_done. exact H.
Qed.

Lemma running_after_spawn (i : nat) (p : process) :
  i < length (instances p) ->
  has_running_task i (spawn i p) = Some (length (tasks p)).
Proof.
  intros Hlt. apply has_running_task_Some. split.
  - rewrite monitor_task_spawn by exact Hlt. case_decide; congruence.
  - apply done_spawn.
Qed.

Lemma running_after_ensure (i : nat) (p : process) :
  i < length (instances p) ->
  exists t, has_running_task i (_ensure_monitor_task i p) = Some t
            /\ (has_running_task i p = Some t /\ _ensure_monitor_task i p = p
                \/ has_running_task i p = None /\ t = length (tasks p)
                   /\ _ensure_monitor_task i p = spawn i p).
Proof.
  intros Hlt. destruct (ensure_cases i p) as [(t & Hm & Hd & He) | [Hall He]].
  - exists t. rewrite He.
    assert (Hr : has_running_task i p = Some t)
      by (apply has_running_task_Some; auto).
    auto.
  - exists (length (tasks p)). rewrite He.
    split; [apply running_after_spawn, Hlt|]. right.
    split; [|auto].
    destruct (has_running_task i p) as [t|] eqn:Hr; [|reflexivity].
    apply has_running_task_Some in Hr as [Hm Hd]. rewrite (Hall t Hm) in Hd.
    discriminate.
Qed.

(** X19: [_ensure_monitor_task] on a plugin object that exists: afterwards the
    object holds a task that is not done; a second call changes nothing;
    at most one task was created, and none when the object already held
    a task that is not done. *)
Theorem ensure_is_idempotent (i : nat) (p : process) :
  i < length (instances p) ->
  let q := _ensure_monitor_task i p in
  _ensure_monitor_task i q = q
  /\ (exists t, has_running_task i q = Some t)
  /\ (forall t, has_running_task i p = Some t -> q = p)
  /\ (has_running_task i p = None ->
      tasks q = tasks p ++ [Pending false]
      /\ registered_active (length (tasks p)) q
      /\ _GLOBAL_MONITOR_OWNER q = Some i).
Proof.
  intros Hlt q.
  destruct (running_after_ensure i p Hlt) as (t & Hq & Hcase). fold q in Hq, Hcase.
  split; [|split; [eauto | split]].
  - unfold _ensure_monitor_task at 1. rewrite Hq. reflexivity.
  - intros t' Hr. destruct Hcase as [[_ He] | [Hn _]]; [exact He | congruence].
  - intros Hn. destruct Hcase as [[Hr _] | (_ & _ & He)]; [congruence|].
    rewrite He. split; [reflexivity|]. split; [|reflexivity].
    split; [reflexivity | apply done_spawn].
Qed.


(** *** Every task a plugin object holds was created *)

Lemma monitor_task_cancel (i t0 : nat) (p : process) :
  monitor_task_of i (cancel t0 p) = monitor_task_of i p.
Proof.
  unfold monitor_task_of. rewrite (proj1 (cancel_instances t0 p)). reflexivity.
Qed.

Lemma monitor_task_task_exit (i t0 : nat) (p : process) :
  monitor_task_of i (task_exit t0 p) = monitor_task_of i p.
Proof.
  unfold monitor_task_of. rewrite (proj1 (task_exit_instances t0 p)). reflexivity.
Qed.

Lemma tasks_exist_cancel (t0 : nat) (p : process) :
  tasks_exist p -> tasks_exist (cancel t0 p).
Proof.
  intros H i t. rewrite monitor_task_cancel, cancel_length. apply H.
Qed.

Lemma tasks_exist_set_stopped (i0 : nat) (b : bool) (p : process) :
  tasks_exist p -> tasks_exist (set_stopped i0 b p).
Proof. intros H i t. rewrite monitor_task_set_stopped. apply H. Qed.

Lemma tasks_exist_clear (i0 : nat) (p : process) :
  tasks_exist p -> tasks_exist (set_monitor_task i0 None p).
Proof.
  intros H i t. unfold monitor_task_of, set_monitor_task. simpl.
  rewrite list_lookup_alter. case_decide; [subst|apply H].
  destruct (instances p !! i); discriminate.
Qed.

Lemma tasks_exist_spawn (i0 : nat) (p : process) :
  i0 < length (instances p) -> tasks_exist p -> tasks_exist (spawn i0 p).
Proof.
  intros Hlt H i t. rewrite monitor_task_spawn by exact Hlt.
  change (length (tasks (spawn i0 p))) with (length (tasks p ++ [Pending false])).
  rewrite length_app. simpl. case_decide.
  - intros [= <-]. lia.
  - intros Hm. specialize (H i t Hm). lia.
Qed.

Lemma tasks_exist_ensure (i0 : nat) (p : process) :
  i0 < length (instances p) -> tasks_exist p ->
  tasks_exist (_ensure_monitor_task i0 p).
Proof.
  intros Hlt H. destruct (ensure_cases i0 p) as [(t & _ & _ & ->) | [_ ->]];
    [exact H | apply tasks_exist_spawn; assumption].
Qed.

Lemma tasks_exist_restart (i0 : nat) (p : process) :
  i0 < length (instances p) -> tasks_exist p ->
  tasks_exist (_restart_monitor_task i0 p).
Proof.
  intros Hlt H. unfold _restart_monitor_task. apply tasks_exist_ensure.
  - simpl. rewrite !length_alter.
    destruct (has_running_task i0 p);
      [rewrite (proj1 (cancel_instances _ _))|]; exact Hlt.
  - apply tasks_exist_set_stopped, tasks_exist_clear.
    destruct (has_running_task i0 p); [apply tasks_exist_cancel|]; exact H.
Qed.

Lemma tasks_exist_run (st : step) (p : process) :
  tasks_exist p -> tasks_exist (run st p).
Proof.
  intros H. destruct st as [auto_check | i | i auto_check | i | i | t0]; simpl.
  - unfold __init__.
    assert (Ht : tasks_exist (take_over (allocate p))).
    { unfold take_over.
      assert (Ha : tasks_exist (allocate p)).
      { intros i t. rewrite monitor_task_allocate. apply H. }
      destruct (_GLOBAL_MONITOR_TASK (allocate p)) as [t|]; [|exact Ha].
      destruct (done t (allocate p)); [exact Ha|].
      apply tasks_exist_cancel.
      destruct (_GLOBAL_MONITOR_OWNER (allocate p));
        [apply tasks_exist_set_stopped|]; exact Ha. }
    destruct auto_check; [|exact Ht].
    apply tasks_exist_ensure; [|exact Ht].
    rewrite take_over_instances_length. simpl. rewrite length_app. simpl. lia.
  - unfold on_instance. case_decide; [apply tasks_exist_ensure|]; assumption.
  - destruct auto_check; [|exact H].
    unfold on_instance. case_decide; [apply tasks_exist_restart|]; assumption.
  - unfold on_instance. case_decide; [|exact H]. unfold on_unload_cancel.
    destruct (has_running_task i (set_stopped i true p));
      [apply tasks_exist_cancel|]; apply tasks_exist_set_stopped, H.
  - unfold on_instance. case_decide; [|exact H]. unfold on_unload_release.
    case_decide; exact H.
  - intros i t. rewrite monitor_task_task_exit.
    rewrite (proj2 (proj2 (task_exit_instances t0 p))). apply H.
Qed.

Lemma reachable_tasks_exist (p : process) : reachable p -> tasks_exist p.
Proof.
  intros [l ->]. induction l as [|st l IH] using rev_ind.
  - intros i t. unfold monitor_task_of. simpl. discriminate.
  - rewrite run_all_snoc. apply tasks_exist_run, IH.
Qed.

(** X20: [_restart_monitor_task] on a plugin object that exists: the object
    gets a new task, which can run and which is the registered one, with
    the object as its owner; the object is not stopped; the task it held
    before can no longer run an iteration; and no other task was made
    able to run. *)
Theorem restart_gives_fresh_task (i : nat) (p : process) :
  reachable p ->
  i < length (instances p) ->
  let q := _restart_monitor_task i p in
  let t := length (tasks p) in
  monitor_task_of i q = Some t
  /\ live t q = true
  /\ _GLOBAL_MONITOR_TASK q = Some t
  /\ _GLOBAL_MONITOR_OWNER q = Some i
  /\ stopped_of i q = false
  /\ length (tasks q) = S (length (tasks p))
  /\ (forall t0, has_running_task i p = Some t0 -> live t0 q = false)
  /\ (forall t', t' <> t -> live t' q = true -> live t' p = true).
Proof.
  intros Hreach Hlt q t. subst q. unfold _restart_monitor_task.
  pose proof (reachable_tasks_exist p Hreach) as Hex.
  set (p1 := match has_running_task i p with
             | Some t => cancel t p
             | None => p
             end).
  assert (Hp1 : instances p1 = instances p
                /\ length (tasks p1) = length (tasks p)
                /\ (forall t', live t' p1 = true -> live t' p = true)
                /\ (forall t0, has_running_task i p = Some t0 -> live t0 p1 = false)).
  { subst p1. destruct (has_running_task i p) as [t0|] eqn:Hr.
    - split; [apply cancel_instances|]. split; [apply cancel_length|].
      split.
      + intros t'. rewrite live_cancel. intros H. apply andb_prop in H. tauto.
      + intros t1 [= <-]. rewrite live_cancel, Nat.eqb_refl, andb_false_r.
        reflexivity.
    - split; [reflexivity|]. split; [reflexivity|]. split; [auto | discriminate]. }
  destruct Hp1 as (Hi1 & Ht1 & Hl1 & Hold).
  assert (Hlt1 : i < length (instances p1)) by (rewrite Hi1; exact Hlt).
  set (p2 := set_stopped i false (set_monitor_task i None p1)).
  assert (Hlt2 : i < length (instances (set_monitor_task i None p1))).
  { simpl. rewrite length_alter. exact Hlt1. }
  assert (Hlt3 : i < length (instances p2)).
  { subst p2. simpl. rewrite !length_alter. exact Hlt1. }
  assert (Hm2 : monitor_task_of i p2 = None).
  { subst p2. rewrite monitor_task_set_stopped.
    rewrite monitor_task_set_monitor_task by exact Hlt1. case_decide; congruence. }
  rewrite (ensure_fresh i p2 Hm2).
  assert (Ht2 : length (tasks p2) = length (tasks p)) by exact Ht1.
  assert (Hl2 : forall t', live t' p2 = live t' p1) by reflexivity.
  split.
  { rewrite monitor_task_spawn by exact Hlt3. case_decide; [|congruence].
    rewrite Ht2. reflexivity. }
  split.
  { rewrite live_spawn, Ht2. subst t. rewrite Nat.eqb_refl. reflexivity. }
  split; [simpl; rewrite Ht1; reflexivity|].
  split; [reflexivity|].
  split.
  { rewrite stopped_spawn. subst p2.
    rewrite stopped_set_stopped by exact Hlt2. case_decide; congruence. }
  split; [simpl; rewrite length_app, Ht1; simpl; lia|].
  split.
  - intros t0 Hr. rewrite live_spawn, Hl2, (Hold t0 Hr), Ht2.
    apply has_running_task_Some in Hr as [Hm Hd].
    pose proof (Hex i t0 Hm).
    destruct (Nat.eqb_spec t0 (length (tasks p))); [lia | reflexivity].
  - intros t' Hne. rewrite live_spawn, Hl2, Ht2.
    destruct (Nat.eqb_spec t' (length (tasks p))); [contradiction|].
    simpl. apply Hl1.
Qed.

Lemma running_set_stopped (i i0 : nat) (b : bool) (p : process) :
  has_running_task i (set_stopped i0 b p) = has_running_task i p.
Proof.
  unfold has_running_task. rewrite monitor_task_set_stopped. reflexivity.
Qed.

Lemma globals_cancel (t : nat) (p : process) :
  _GLOBAL_MONITOR_TASK (cancel t p) = _GLOBAL_MONITOR_TASK p
  /\ _GLOBAL_MONITOR_OWNER (cancel t p) = _GLOBAL_MONITOR_OWNER p.
Proof. unfold cancel. destruct (tasks p !! t) as [[b|]|]; auto. Qed.

Lemma globals_task_exit (t : nat) (p : process) :
  _GLOBAL_MONITOR_TASK (task_exit t p) = _GLOBAL_MONITOR_TASK p
  /\ _GLOBAL_MONITOR_OWNER (task_exit t p) = _GLOBAL_MONITOR_OWNER p.
Proof. unfold task_exit. destruct (tasks p !! t) as [[b|]|]; auto. Qed.

Lemma done_task_exit (t : nat) (p : process) :
  t < length (tasks p) -> done t (task_exit t p) = true.
Proof.
  intros Hlt. unfold done, task_exit.
  destruct (tasks p !! t) as [[b|]|] eqn:Hk; simpl.
  - rewrite list_lookup_insert_eq by exact Hlt. reflexivity.
  - rewrite Hk. reflexivity.
  - apply lookup_ge_None in Hk. lia.
Qed.

(** X21: [on_unload] of a plugin object that holds a task that is not done,
    with the task ending while [on_unload] waits for it: the object is
    stopped and its task is done; the registration is emptied when it
    held this task and is left alone when it holds another one; what the
    other tasks can do is as before. *)
Theorem unload_stops_own_loop (i t : nat) (p : process) :
  reachable p ->
  i < length (instances p) ->
  has_running_task i p = Some t ->
  let q := run_all [UnloadCancel i; TaskExit t; UnloadRelease i] p in
  stopped_of i q = true
  /\ done t q = true
  /\ (_GLOBAL_MONITOR_TASK p = Some t ->
      _GLOBAL_MONITOR_TASK q = None /\ _GLOBAL_MONITOR_OWNER q = None)
  /\ (_GLOBAL_MONITOR_TASK p <> Some t ->
      _GLOBAL_MONITOR_TASK q = _GLOBAL_MONITOR_TASK p
      /\ _GLOBAL_MONITOR_OWNER q = _GLOBAL_MONITOR_OWNER p)
  /\ (forall t', t' <> t -> live t' q = live t' p).
Proof.
  intros Hreach Hlt Hr q.
  pose proof (reachable_tasks_exist p Hreach) as Hex.
  pose proof (proj1 (has_running_task_Some i t p) Hr) as [Hm Hd].
  pose proof (Hex i t Hm) as Ht.
  set (p0 := set_stopped i true p).
  set (p1 := cancel t p0).
  set (p2 := task_exit t p1).
  assert (H1 : on_unload_cancel i p = p1).
  { unfold on_unload_cancel. fold p0. unfold p0 at 1.
    rewrite running_set_stopped, Hr. reflexivity. }
  assert (Hi2 : instances p2 = instances p0).
  { unfold p2, p1.
    rewrite (proj1 (task_exit_instances _ _)), (proj1 (cancel_instances _ _)).
    reflexivity. }
  assert (Hl0 : length (instances p0) = length (instances p)).
  { unfold p0. simpl. apply length_alter. }
  assert (Hm2 : monitor_task_of i p2 = Some t).
  { unfold p2, p1, p0.
    rewrite monitor_task_task_exit, monitor_task_cancel, monitor_task_set_stopped.
    exact Hm. }
  assert (Hg2 : _GLOBAL_MONITOR_TASK p2 = _GLOBAL_MONITOR_TASK p
                /\ _GLOBAL_MONITOR_OWNER p2 = _GLOBAL_MONITOR_OWNER p).
  { unfold p2, p1.
    rewrite (proj1 (globals_task_exit _ _)), (proj2 (globals_task_exit _ _)).
    rewrite (proj1 (globals_cancel _ _)), (proj2 (globals_cancel _ _)). auto. }
  destruct Hg2 as [Hg2 Ho2].
  assert (Hq : q = on_unload_release i p2).
  { unfold q.
    change (run_all [UnloadCancel i; TaskExit t; UnloadRelease i] p)
      with (run (UnloadRelease i) (run (TaskExit t) (run (UnloadCancel i) p))).
    assert (Ha : run (UnloadCancel i) p = p1).
    { simpl. unfold on_instance. rewrite decide_True by exact Hlt. exact H1. }
    rewrite Ha. change (run (TaskExit t) p1) with p2. simpl. unfold on_instance.
    rewrite decide_True by (rewrite Hi2, Hl0; exact Hlt). reflexivity. }
  assert (Hs2 : stopped_of i p2 = true).
  { unfold stopped_of. rewrite Hi2. fold (stopped_of i p0). unfold p0.
    rewrite stopped_set_stopped by exact Hlt. case_decide; congruence. }
  assert (Hd2 : done t p2 = true).
  { apply done_task_exit. unfold p1. rewrite cancel_length. exact Ht. }
  assert (Hl2 : forall t', t' <> t -> live t' p2 = live t' p).
  { intros t' Hne. unfold p2, p1. rewrite live_task_exit, live_cancel.
    destruct (Nat.eqb_spec t' t); [contradiction|].
    rewrite !andb_true_r. reflexivity. }
  rewrite Hq. unfold on_unload_release. rewrite Hm2, Hg2. case_decide.
  - repeat split; auto; try contradiction.
  - repeat split; auto; try contradiction.
Qed.

(** *** Examples *)

Lemma ensure_is_idempotent_witness :
  _ensure_monitor_task 0 (_ensure_monitor_task 0 (run_all [Create false] boot))
  = _ensure_monitor_task 0 (run_all [Create false] boot)
  /\ registered_active 0 (_ensure_monitor_task 0 (run_all [Create false] boot)).
Proof.
  destruct (ensure_is_idempotent 0 (run_all [Create false] boot))
    as (H1 & _ & _ & H4).
  - simpl. lia.
  - split; [exact H1|]. exact (proj1 (proj2 (H4 eq_refl))).
Defined.

Lemma restart_gives_fresh_task_witness :
  monitor_task_of 0 (_restart_monitor_task 0 one_plugin) = Some 1
  /\ live 1 (_restart_monitor_task 0 one_plugin) = true
  /\ live 0 (_restart_monitor_task 0 one_plugin) = false.
Proof.
  destruct (restart_gives_fresh_task 0 one_plugin)
    as (H1 & H2 & _ & _ & _ & _ & H7 & _).
  - exists [Create true]. reflexivity.
  - simpl. lia.
  - split; [exact H1|]. split; [exact H2|]. exact (H7 0 eq_refl).
Defined.

Lemma unload_stops_own_loop_witness :
  let q := run_all [UnloadCancel 0; TaskExit 0; UnloadRelease 0] one_plugin in
  stopped_of 0 q = true /\ done 0 q = true /\ _GLOBAL_MONITOR_TASK q = None.
Proof.
  destruct (unload_stops_own_loop 0 0 one_plugin)
    as (H1 & H2 & H3 & _).
  - exists [Create true]. reflexivity.
  - simpl. lia.
  - reflexivity.
  - split; [exact H1|]. split; [exact H2|]. exact (proj1 (H3 eq_refl)).
Defined.

End LifecycleFacts.

(* ===================================================================== *)
(** ** The command handlers                                              *)
(* ===================================================================== *)

Module CommandFacts.

Import Client Monitor Singleton Commands.
Import ClientFacts MonitorFacts SingletonFacts NotifyFacts LifecycleFacts.

Lemma get_config_other (k k' : string) (d v : pyval) (c : store) :
  k <> k' ->
  _get_config k d (save_config (config_set k' v c)) = _get_config k d c.
Proof.
  intros Hk. unfold _get_config, config_get, save_config, config_set. simpl.
  rewrite lookup_insert_ne by congruence. reflexivity.
Qed.

Lemma get_config_written (k : string) (d v : pyval) (c : store) :
  is_none v = false ->
  _get_config k d (save_config (config_set k v c)) = v.
Proof.
  intros Hv. unfold _get_config.
  rewrite (proj1 (SubscriptionFacts.get_after_write k v c)), Hv. reflexivity.
Qed.

Lemma untouched_reads (k : string) (d : pyval) (c c' : store) :
  untouched k c c' -> _get_config k d c' = _get_config k d c.
Proof.
  intros [Hm _]. unfold _get_config, config_get. rewrite Hm. reflexivity.
Qed.

Section Handlers.

Variable E : env.

Lemma manual_get_balance (b : bool) (s s' : state E) (r : result snapshot) :
  get_balance b s = (r, s') ->
  config_get "last_balance" (conf s') = config_get "last_balance" (conf s)
  /\ config_get "last_check_ts" (conf s') = config_get "last_check_ts" (conf s)
  /\ exists evs, trace s' = trace s ++ evs
                 /\ notices evs = [] /\ requests evs = evs
                 /\ (logins evs <= 2)%nat /\ (fetches evs <= 2)%nat.
Proof.
  intros H. destruct (get_balance_keeps E H) as [[H1 _] [H2 _]].
  unfold config_get. rewrite H1, H2. split; [reflexivity|]. split; [reflexivity|].
  destruct (only_requests_get_balance E b _ _ _ H) as (evs & T & F).
  destruct (get_balance_bounded E b s s' r H) as (evs' & T' & L & Fe).
  rewrite T in T'. apply app_inv_head in T'. subst evs'.
  destruct (requests_no_notice evs F). eauto 10.
Qed.

(** X22: The two handlers that query the service on request, [query_balance]
    and [run_check_now], leave the stored last balance and the stored
    timestamp of the loop as they are, send no message to any
    destination, and send at most two logins and two balance requests. *)
Theorem manual_check_keeps_monitor_state (s : state E) :
  forall s', s' = snd (query_balance s) \/ s' = snd (run_check_now s) ->
    config_get "last_balance" (conf s') = config_get "last_balance" (conf s)
    /\ config_get "last_check_ts" (conf s') = config_get "last_check_ts" (conf s)
    /\ exists evs, trace s' = trace s ++ evs
                   /\ notices evs = [] /\ requests evs = evs
                   /\ (logins evs <= 2)%nat /\ (fetches evs <= 2)%nat.
Proof.
  intros s' Hs'.
  assert (Hg : exists b r, get_balance b s = (r, s')).
  { destruct Hs' as [-> | ->].
    - unfold query_balance.
      destruct (get_balance _ s) as [[info | exc] s1] eqn:Hg; simpl; eauto.
    - unfold run_check_now.
      destruct (get_balance _ s) as [[info | exc] s1] eqn:Hg; simpl; eauto.
      destruct (to_float _ (balance info)); simpl; eauto.
      destruct (to_float _ (threshold_of _)); simpl; eauto.
      destruct (Qltb _ _); simpl; eauto. }
  destruct Hg as (b & r & Hg). exact (manual_get_balance b s s' r Hg).
Qed.

(** X23: A threshold that is not positive is refused and nothing is written.
    A positive one is saved, and the next manual check compares the
    balance with it: the low-balance text when the balance is below it,
    the plain report otherwise. *)
Theorem threshold_takes_effect (t : Q) (s s1 : state E) (info : snapshot)
        (bal : Q) :
  (0 < t)%Q ->
  let c' := snd (set_threshold t (conf s)) in
  get_balance (truthy (_get_config "auto_refresh_token" (PBool true) c'))
              (with_conf c' s) = (Ok info, s1) ->
  to_float (float_of_str E) (balance info) = Ok bal ->
  fst (set_threshold t (conf s)) = ThresholdUpdated t
  /\ persisted "threshold" c' = PFloat t
  /\ threshold_of (conf s1) = PFloat t
  /\ run_check_now (with_conf c' s)
     = (if Qltb bal t
        then LowBalanceReport (format_low_balance E bal (update_time info) (PFloat t))
        else BalanceReport info, s1)
  /\ (forall t0 c, (t0 <= 0)%Q -> set_threshold t0 c = (ThresholdRejected, c)).
Proof.
  intros Ht c' Hg Hb.
  assert (Hle : Qle_bool t 0 = false).
  { apply Qle_bool_false. exact Ht. }
  assert (Hc : c' = save_config (config_set "threshold" (PFloat t) (conf s))).
  { unfold c', set_threshold. rewrite Hle. reflexivity. }
  assert (Hth : threshold_of (conf s1) = PFloat t).
  { unfold threshold_of.
    rewrite (untouched_reads "threshold" _ _ _
               (get_balance_conf E (k := "threshold") ltac:(discriminate) Hg)).
    simpl. rewrite Hc. apply get_config_written. reflexivity. }
  split; [unfold set_threshold; rewrite Hle; reflexivity|].
  split; [rewrite Hc; apply SubscriptionFacts.get_after_write|].
  split; [exact Hth|].
  split.
  - unfold run_check_now. simpl conf. rewrite Hg, Hb, Hth. simpl.
    destruct (Qltb bal t); reflexivity.
  - intros t0 c Hle0. unfold set_threshold.
    rewrite (proj2 (Qle_bool_iff t0 0) Hle0). reflexivity.
Qed.

Lemma interval_written (minutes : Z) (c : store) :
  (1 <= minutes)%Z ->
  interval_minutes_of E
    (save_config
       (config_set "last_check_ts" PNone
          (config_set "check_interval_minutes" (PInt minutes) c)))
  = Ok minutes.
Proof.
  intros Hm. unfold interval_minutes_of, _get_config, config_get, save_config,
    config_set. simpl.
  rewrite lookup_insert_ne by discriminate. rewrite lookup_insert_eq. simpl.
  rewrite Z.max_r by exact Hm. reflexivity.
Qed.

(** X24: An interval below one minute is refused and nothing changes.
    Otherwise the interval is saved and the stored timestamp is removed:
    the loop reads back the same number of minutes, and its next
    iteration does not wait but goes to the check at once; the task of
    the plugin object is restarted exactly when checks are enabled. *)
Theorem interval_takes_effect (minutes : Z) (i : nat) (c : store) (p : process) :
  (1 <= minutes)%Z ->
  let c' := fst (snd (set_interval minutes i c p)) in
  let p' := snd (snd (set_interval minutes i c p)) in
  fst (set_interval minutes i c p) = IntervalUpdated minutes
  /\ interval_minutes_of E c' = Ok minutes
  /\ persisted "check_interval_minutes" c' = PInt minutes
  /\ persisted "last_check_ts" c' = PNone
  /\ (forall s : state E, conf s = c' ->
        monitor_iteration s = check_then_sleep minutes (now_of s) s)
  /\ p' = (if truthy (_get_config "auto_check" (PBool true) c)
           then _restart_monitor_task i p else p)
  /\ (forall m, (m < 1)%Z -> set_interval m i c p = (IntervalRejected, (c, p))).
Proof.
  intros Hm c' p'.
  assert (Hlt : (minutes <? 1)%Z = false) by (apply Z.ltb_ge; exact Hm).
  assert (Hc : c' = save_config
                      (config_set "last_check_ts" PNone
                         (config_set "check_interval_minutes" (PInt minutes) c))).
  { unfold c', set_interval. rewrite Hlt. reflexivity. }
  split; [unfold set_interval; rewrite Hlt; reflexivity|].
  split; [rewrite Hc; apply interval_written, Hm|].
  split.
  { rewrite Hc. unfold persisted, save_config, config_set. simpl.
    rewrite lookup_insert_ne by discriminate. rewrite lookup_insert_eq.
    reflexivity. }
  split; [rewrite Hc; apply SubscriptionFacts.get_after_write|].
  split.
  { intros s Hs. unfold monitor_iteration. rewrite Hs, Hc.
    rewrite (interval_written minutes c Hm).
    unfold _get_config at 1.
    rewrite (proj1 (SubscriptionFacts.get_after_write "last_check_ts" PNone _)). reflexivity. }
  split.
  { unfold p', set_interval. rewrite Hlt. simpl.
    unfold _get_config, config_get, save_config, config_set. simpl.
    rewrite !lookup_insert_ne by discriminate. reflexivity. }
  intros m Hlt1. unfold set_interval.
  rewrite (proj2 (Z.ltb_lt m 1) Hlt1). reflexivity.
Qed.

(** X25: After [disable_monitor] the setting is saved as off, and an iteration
    of the loop, which goes on running, checks nothing: no request, no
    message, only the sleep. *)
Theorem disable_stops_checks (s : state E) :
  let c' := snd (disable_monitor (conf s)) in
  let r := monitor_iteration (with_conf c' s) in
  persisted "auto_check" c' = PBool false
  /\ (forall bal, fst r <> Checked bal)
  /\ (forall exc, fst r <> CheckFailed exc)
  /\ (trace (snd r) = trace s \/ exists secs, trace (snd r) = trace s ++ [EvSleep secs])
  /\ token (snd r) = token s.
Proof.
  intros c' r. split; [apply SubscriptionFacts.get_after_write|].
  assert (Hidle : truthy (_get_config "auto_check" (PBool true)
                            (conf (with_conf c' s))) = false).
  { simpl. unfold c', disable_monitor. simpl.
    rewrite get_config_written by reflexivity. reflexivity. }
  destruct (idle_iteration E (with_conf c' s) (snd r) (fst r) (or_introl Hidle)
              (surjective_pairing _))
    as [(secs & -> & ->) | [(e & -> & -> & _) | (minutes & s0 & _ & Hs0 & -> & ->)]].
  - repeat split; try discriminate; simpl; eauto.
  - repeat split; try discriminate; simpl; eauto.
  - repeat split; try discriminate; destruct Hs0 as [-> | ->]; simpl; eauto.
Qed.

End Handlers.

(** X26: [enable_monitor] on a plugin object that exists, also after
    [disable_monitor]: the setting is saved as on, the other settings are
    as they were, the object holds a task that is not done, and no task
    is created when it held one already. *)
Theorem enable_starts_loop (i : nat) (c : store) (p : process) :
  i < length (instances p) ->
  let c1 := snd (disable_monitor c) in
  let c2 := fst (snd (enable_monitor i c1 p)) in
  let p2 := snd (snd (enable_monitor i c1 p)) in
  persisted "auto_check" c2 = PBool true
  /\ truthy (_get_config "auto_check" (PBool true) c2) = true
  /\ (forall k d, k <> "auto_check" -> _get_config k d c2 = _get_config k d c)
  /\ (exists t, has_running_task i p2 = Some t)
  /\ (forall t, has_running_task i p = Some t -> p2 = p).
Proof.
  intros Hlt c1 c2 p2.
  split; [apply SubscriptionFacts.get_after_write|].
  split; [unfold c2; simpl; rewrite get_config_written; reflexivity|].
  split.
  { intros k d Hk. unfold c2, c1. simpl.
    rewrite !get_config_other by exact Hk. reflexivity. }
  destruct (running_after_ensure i p Hlt) as (t & Hq & Hcase).
  split; [exists t; exact Hq|].
  intros t' Hr. destruct Hcase as [[_ He] | [Hn _]]; [exact He | congruence].
Qed.

(** *** Examples *)

Import Scenario.

Lemma manual_check_keeps_monitor_state_witness :
  config_get "last_balance" (conf (snd (run_check_now first_run))) = PFloat 10
  /\ exists evs,
       trace (snd (run_check_now first_run)) = trace first_run ++ evs
       /\ notices evs = [].
Proof.
  destruct (manual_check_keeps_monitor_state toy first_run
              (snd (run_check_now first_run)) (or_intror eq_refl))
    as (H1 & _ & evs & T & N & _).
  split; [rewrite H1; reflexivity|]. exists evs. auto.
Defined.

Lemma threshold_takes_effect_witness :
  fst (run_check_now
         (with_conf (snd (set_threshold 12 (conf first_run))) first_run))
  = BalanceReport (snapshot_of (PStr "A101") meter1)
  /\ fst (run_check_now first_run) = LowBalanceReport "low balance".
Proof.
  destruct (threshold_takes_effect toy 12 first_run
              (snd (get_balance true
                      (with_conf (snd (set_threshold 12 (conf first_run)))
                                 first_run)))
              (snapshot_of (PStr "A101") meter1) (31 # 2))
    as (_ & _ & _ & H & _).
  - reflexivity.
  - reflexivity.
  - reflexivity.
  - split; [rewrite H; reflexivity | reflexivity].
Defined.

Lemma interval_takes_effect_witness :
  interval_minutes_of toy
    (fst (snd (set_interval 5 0 (conf half_way) one_plugin))) = Ok 5%Z
  /\ live 1 (snd (snd (set_interval 5 0 (conf half_way) one_plugin))) = true.
Proof.
  destruct (interval_takes_effect toy 5 0 (conf half_way) one_plugin)
    as (_ & H & _ & _ & _ & Hp & _).
  - lia.
  - split; [exact H|]. rewrite Hp. reflexivity.
Defined.

Lemma enable_starts_loop_witness :
  exists t,
    has_running_task 0
      (snd (snd (enable_monitor 0 (snd (disable_monitor (Store ∅ ∅)))
                   (run_all [Create false] boot))))
    = Some t.
Proof.
  destruct (enable_starts_loop 0 (Store ∅ ∅) (run_all [Create false] boot))
    as (_ & _ & _ & H & _).
  - simpl. lia.
  - exact H.
Defined.

End CommandFacts.

(* ===================================================================== *)
(** ** The card                                                          *)
(* ===================================================================== *)

Module CardFacts.

Import CqCard.

(** Every character of [s] passes [p]. *)
Fixpoint all_chars (p : ascii -> bool) (s : string) : bool :=
  match s with
  | EmptyString => true
  | String a r => p a && all_chars p r
  end.

Lemma all_chars_app (p : ascii -> bool) (a b : string) :
  all_chars p (a +:+ b) = all_chars p a && all_chars p b.
Proof.
  induction a as [|x a IH]; simpl; [reflexivity|].
  rewrite IH, andb_assoc. reflexivity.
Qed.

Lemma all_chars_weaken (p q : ascii -> bool) (s : string) :
  (forall a, p a = true -> q a = true) ->
  all_chars p s = true -> all_chars q s = true.
Proof.
  intros H. induction s as [|x s IH]; simpl; [auto|].
  intros Hs. apply andb_prop in Hs as [Hx Hs]. rewrite (H x Hx), (IH Hs).
  reflexivity.
Qed.

(** No control character. *)
Definition printable (a : ascii) : bool := (32 <=? byte a)%N.

(** Neither a control character nor one of the three characters that
    delimit a CQ code and its parameters. *)
Definition plain (a : ascii) : bool :=
  printable a
  && negb (Ascii.eqb a "[") && negb (Ascii.eqb a "]") && negb (Ascii.eqb a ",").

Lemma escape_char_printable (a : ascii) :
  all_chars printable (escape_char a) = true.
Proof.
  destruct a as [[|] [|] [|] [|] [|] [|] [|] [|]]; reflexivity.
Qed.

Lemma escape_printable (s : string) : all_chars printable (escape s) = true.
Proof.
  induction s as [|a s IH]; simpl; [reflexivity|].
  rewrite all_chars_app, escape_char_printable, IH. reflexivity.
Qed.

Lemma json_string_printable (s : string) :
  all_chars printable (json_string s) = true.
Proof.
  unfold json_string. rewrite !all_chars_app, escape_printable. reflexivity.
Qed.

Lemma digit_printable (n : N) : printable (ascii_of_N (48 + n mod 10)) = true.
Proof.
  unfold printable, byte.
  assert (H : (n mod 10 < 10)%N) by (apply N.mod_lt; discriminate).
  generalize dependent (n mod 10)%N. intros m H.
  rewrite N_ascii_embedding by lia. apply N.leb_le. lia.
Qed.

Lemma digits_printable (fuel : nat) (n : N) (acc : string) :
  all_chars printable acc = true ->
  all_chars printable (digits fuel n acc) = true.
Proof.
  revert n acc. induction fuel as [|fuel IH]; intros n acc Hacc; simpl; [exact Hacc|].
  destruct (n / 10 =? 0)%N.
  - simpl. rewrite digit_printable, Hacc. reflexivity.
  - apply IH. simpl. rewrite digit_printable, Hacc. reflexivity.
Qed.

Lemma decimal_printable (z : Z) : all_chars printable (decimal z) = true.
Proof.
  unfold decimal. rewrite all_chars_app, digits_printable by reflexivity.
  destruct (z <? 0)%Z; reflexivity.
Qed.

Scheme json_fields_ind := Induction for json Sort Prop
  with fields_json_ind := Induction for fields Sort Prop.

Lemma dumps_object (members : fields) :
  dumps (JObj members) = "{" +:+ dumps_fields members +:+ "}".
Proof. reflexivity. Qed.

Lemma dumps_member (key : string) (value : json) (rest : fields) :
  dumps_fields (FCons key value rest)
  = json_string key +:+ ": " +:+ dumps value
    +:+ match rest with
        | FNil => ""
        | FCons _ _ _ => ", " +:+ dumps_fields rest
        end.
Proof. reflexivity. Qed.

Lemma dumps_printable (j : json) : all_chars printable (dumps j) = true.
Proof.
  induction j as [s | z | members IHm | | key value IHv rest IHr]
    using json_fields_ind
    with (P0 := fun m => all_chars printable (dumps_fields m) = true).
  - apply json_string_printable.
  - apply decimal_printable.
  - rewrite dumps_object, !all_chars_app, IHm. reflexivity.
  - reflexivity.
  - rewrite dumps_member, !all_chars_app, json_string_printable, IHv.
    destruct rest; [reflexivity|].
    rewrite all_chars_app, IHr. reflexivity.
Qed.

Lemma replace_all_chars (p q : ascii -> bool) (c : ascii) (new s : string) :
  all_chars q new = true ->
  (forall a, p a = true -> Ascii.eqb a c = false -> q a = true) ->
  all_chars p s = true ->
  all_chars q (replace_char c new s) = true.
Proof.
  intros Hnew Hpq. induction s as [|a s IH]; simpl; [auto|].
  intros Hs. apply andb_prop in Hs as [Ha Hs].
  destruct (Ascii.eqb a c) eqn:Hc.
  - rewrite all_chars_app, Hnew, (IH Hs). reflexivity.
  - simpl. rewrite (Hpq a Ha Hc), (IH Hs). reflexivity.
Qed.

Lemma cq_escape_plain (data : string) :
  all_chars printable data = true -> all_chars plain (cq_escape data) = true.
Proof.
  intros H. unfold cq_escape.
  apply (replace_all_chars
           (fun a => printable a && negb (Ascii.eqb a "[") && negb (Ascii.eqb a "]")));
    [reflexivity | |].
  { intros a Ha Hc. unfold plain. rewrite Ha, Hc. reflexivity. }
  apply (replace_all_chars (fun a => printable a && negb (Ascii.eqb a "[")));
    [reflexivity | |].
  { intros a Ha Hc. rewrite Ha, Hc. reflexivity. }
  apply (replace_all_chars printable); [reflexivity | |].
  { intros a Ha Hc. rewrite Ha, Hc. reflexivity. }
  apply (replace_all_chars printable); [reflexivity | auto | exact H].
Qed.


(** *** The escaping loses nothing *)

(** Each character replaced by a string. *)
Fixpoint expand (f : ascii -> string) (s : string) : string :=
  match s with
  | EmptyString => EmptyString
  | String a r => f a +:+ expand f r
  end.

Lemma append_cons (x : ascii) (a b : string) :
  String x a +:+ b = String x (a +:+ b).
Proof. reflexivity. Qed.

Lemma append_empty (b : string) : "" +:+ b = b.
Proof. reflexivity. Qed.

Lemma append_associative (a b c : string) : (a +:+ b) +:+ c = a +:+ (b +:+ c).
Proof.
  induction a as [|x a IH]; [reflexivity|].
  rewrite !append_cons, IH. reflexivity.
Qed.

Lemma expand_app (f : ascii -> string) (a b : string) :
  expand f (a +:+ b) = expand f a +:+ expand f b.
Proof.
  induction a as [|x a IH]; [reflexivity|].
  rewrite append_cons. simpl. rewrite IH, append_associative. reflexivity.
Qed.

Lemma expand_expand (f g : ascii -> string) (s : string) :
  expand g (expand f s) = expand (fun a => expand g (f a)) s.
Proof.
  induction s as [|a s IH]; simpl; [reflexivity|].
  rewrite expand_app, IH. reflexivity.
Qed.

Lemma expand_ext (f g : ascii -> string) (s : string) :
  (forall a, f a = g a) -> expand f s = expand g s.
Proof.
  intros H. induction s as [|a s IH]; simpl; [reflexivity|].
  rewrite H, IH. reflexivity.
Qed.

Definition substitute (c : ascii) (new : string) (a : ascii) : string :=
  if Ascii.eqb a c then new else String a EmptyString.

Lemma replace_char_expand (c : ascii) (new s : string) :
  replace_char c new s = expand (substitute c new) s.
Proof.
  induction s as [|a s IH]; simpl; [reflexivity|].
  unfold substitute at 1. rewrite IH. destruct (Ascii.eqb a c); reflexivity.
Qed.

(** What the four replacements together make of one character. *)
Definition entity (a : ascii) : string :=
  if Ascii.eqb a "&" then "&amp;"
  else if Ascii.eqb a "[" then "&#91;"
  else if Ascii.eqb a "]" then "&#93;"
  else if Ascii.eqb a "," then "&#44;"
  else String a EmptyString.

Lemma cq_escape_expand (data : string) : cq_escape data = expand entity data.
Proof.
  unfold cq_escape. rewrite !replace_char_expand, !expand_expand.
  apply expand_ext. intros a.
  destruct a as [[|] [|] [|] [|] [|] [|] [|] [|]]; reflexivity.
Qed.

(** [s] without its prefix [p]. *)
Fixpoint after (p s : string) : option string :=
  match p with
  | EmptyString => Some s
  | String a p' =>
      match s with
      | String b s' => if Ascii.eqb a b then after p' s' else None
      | EmptyString => None
      end
  end.

(** The reading of the receiver: the four entities back to their
    characters. *)
Fixpoint unescape (fuel : nat) (s : string) : string :=
  match fuel with
  | O => EmptyString
  | S fuel' =>
      match s with
      | EmptyString => EmptyString
      | String a r =>
          match after "&amp;" s with
          | Some t => String "&" (unescape fuel' t)
          | None =>
              match after "&#91;" s with
              | Some t => String "[" (unescape fuel' t)
              | None =>
                  match after "&#93;" s with
                  | Some t => String "]" (unescape fuel' t)
                  | None =>
                      match after "&#44;" s with
                      | Some t => String "," (unescape fuel' t)
                      | None => String a (unescape fuel' r)
                      end
                  end
              end
          end
      end
  end.

Lemma unescape_expand (s : string) (fuel : nat) :
  String.length s <= fuel -> unescape fuel (expand entity s) = s.
Proof.
  revert fuel. induction s as [|a s IH]; intros fuel Hlen.
  - destruct fuel; reflexivity.
  - destruct fuel as [|fuel]; [simpl in Hlen; lia|].
    simpl in Hlen. assert (Hs : String.length s <= fuel) by lia.
    cbn [expand]. unfold entity at 1.
    destruct (Ascii.eqb_spec a "&") as [-> | Hamp];
      [rewrite !append_cons, append_empty; cbn; rewrite (IH fuel Hs); reflexivity|].
    destruct (Ascii.eqb_spec a "[") as [-> | Hopen];
      [rewrite !append_cons, append_empty; cbn; rewrite (IH fuel Hs); reflexivity|].
    destruct (Ascii.eqb_spec a "]") as [-> | Hclose];
      [rewrite !append_cons, append_empty; cbn; rewrite (IH fuel Hs); reflexivity|].
    destruct (Ascii.eqb_spec a ",") as [-> | Hcomma];
      [rewrite !append_cons, append_empty; cbn; rewrite (IH fuel Hs); reflexivity|].
    change (String a "" +:+ expand entity s) with (String a (expand entity s)).
    cbn [unescape after].
    assert (Hne : Ascii.eqb "&" a = false).
    { apply Ascii.eqb_neq. congruence. }
    rewrite Hne, (IH fuel Hs). reflexivity.
Qed.

Lemma length_append (a b : string) :
  String.length (a +:+ b) = String.length a + String.length b.
Proof.
  induction a as [|x a IH]; [reflexivity|].
  rewrite append_cons. simpl. rewrite IH. reflexivity.
Qed.

Lemma expand_longer (s : string) :
  String.length s <= String.length (expand entity s).
Proof.
  induction s as [|a s IH]; simpl; [lia|].
  rewrite length_append.
  assert (1 <= String.length (entity a)).
  { unfold entity. repeat (destruct (Ascii.eqb a _); [simpl; lia|]). simpl. lia. }
  lia.
Qed.

(** X28: The four replacements lose nothing: the text before them can be
    read back from the text after them, so two different texts never
    get the same escaped form. *)
Theorem cq_escape_loses_nothing :
  (exists decode : string -> string, forall data, decode (cq_escape data) = data)
  /\ (forall a b, cq_escape a = cq_escape b -> a = b).
Proof.
  assert (H : forall data,
             unescape (String.length (cq_escape data)) (cq_escape data) = data).
  { intros data. rewrite cq_escape_expand. apply unescape_expand, expand_longer. }
  split.
  - exists (fun t => unescape (String.length t) t). exact H.
  - intros a b Hab. rewrite <- (H a), <- (H b), Hab. reflexivity.
Qed.

(** *** The card in the notifications *)

(** An environment whose card builder is the one of the source. *)
Definition with_card (E : env) : env :=
  {| world := world E;
     http_post := http_post E;
     time_time := time_time E;
     sleep := sleep E;
     send_message := send_message E;
     stop_flag := stop_flag E;
     json_loads := json_loads E;
     float_of_str := float_of_str E;
     int_of_str := int_of_str E;
     str_other := str_other E;
     format_low_balance := format_low_balance E;
     format_recharge := format_recharge E;
     Env._to_cq_card := CqCard._to_cq_card |}.

Lemma card_shape (text : string) :
  _to_cq_card text = text
  \/ exists data,
       _to_cq_card text = "[CQ:json,data=" +:+ data +:+ "]"
       /\ all_chars plain data = true.
Proof.
  unfold _to_cq_card. destruct (nonblank_lines text) as [|title rest];
    [left; reflexivity|].
  right. eexists. split; [reflexivity|].
  apply cq_escape_plain, dumps_printable.
Qed.


End CardFacts.

(* ===================================================================== *)
(** ** The token of the client and the token on disk                     *)
(* ===================================================================== *)

Module TokenFacts.

Import Client Monitor Commands Startup.
Import MonitorFacts NotifyFacts.

Section Sync.

Variable E : env.

(** The client holds the token that the configuration holds, in memory
    and on disk. *)
Definition in_sync (s : state E) : Prop :=
  config_get "electricity_token" (conf s) = token s
  /\ persisted "electricity_token" (conf s) = token s.

Definition keeps_sync {A : Type} (m : M E A) : Prop :=
  forall s, in_sync s -> in_sync (snd (m s)).

Lemma keeps_sync_bind {A B : Type} (m : M E A) (k : A -> M E B) :
  keeps_sync m -> (forall a, keeps_sync (k a)) -> keeps_sync (bind m k).
Proof.
  intros Hm Hk s Hs. unfold bind. specialize (Hm s Hs).
  destruct (m s) as [[a | e] s1]; simpl in *; [apply Hk, Hm | exact Hm].
Qed.

Lemma keeps_sync_here {A : Type} (m : M E A) :
  (forall s, snd (m s) = s) -> keeps_sync m.
Proof. intros H s Hs. rewrite H. exact Hs. Qed.

Lemma in_sync_world (w : world E) (evs : list event) (s : state E) :
  in_sync s -> in_sync (with_world w evs s).
Proof. exact (fun H => H). Qed.

Lemma in_sync_write (k : string) (v : pyval) (s : state E) :
  k <> "electricity_token" ->
  in_sync s -> in_sync (with_conf (save_config (config_set k v (conf s))) s).
Proof.
  intros Hk [Hm _]. unfold in_sync, config_get, persisted in *. simpl.
  rewrite lookup_insert_ne by congruence. auto.
Qed.

Lemma in_sync_write2 (k1 k2 : string) (v1 v2 : pyval) (s : state E) :
  k1 <> "electricity_token" -> k2 <> "electricity_token" ->
  in_sync s ->
  in_sync (with_conf
             (save_config (config_set k1 v1 (config_set k2 v2 (conf s)))) s).
Proof.
  intros H1 H2 [Hm _]. unfold in_sync, config_get, persisted in *. simpl.
  rewrite !lookup_insert_ne by congruence. auto.
Qed.

Lemma keeps_sync_login : keeps_sync (@login_and_get_token E).
Proof.
  intros s Hs. unfold login_and_get_token.
  destruct (_ || _); [exact Hs|].
  destruct (http_post E _ _) as [resp w].
  destruct resp as [e | body cookie]; [exact Hs|].
  destruct (get body "Tag" PNone) as [tag | e]; [|exact Hs].
  destruct (negb (eq_int tag 1)).
  - destruct (get body "Message" _); exact Hs.
  - destruct cookie as [tok |]; [|exact Hs].
    unfold in_sync, config_get, persisted. simpl.
    rewrite lookup_insert_eq. auto.
Qed.

Lemma keeps_sync_request : keeps_sync (@_request_balance E).
Proof.
  intros s Hs. unfold _request_balance. destruct (negb _); [exact Hs|].
  destruct (http_post E _ _) as [resp w]. destruct resp; exact Hs.
Qed.

Lemma keeps_sync_relogin : keeps_sync (@relogin_and_retry E).
Proof.
  unfold relogin_and_retry.
  apply keeps_sync_bind; [apply keeps_sync_login | intros _].
  apply keeps_sync_bind; [apply keeps_sync_request | intros data].
  apply keeps_sync_here. reflexivity.
Qed.

Lemma keeps_sync_first_attempt (b : bool) : keeps_sync (first_attempt (E := E) b).
Proof.
  intros s. unfold first_attempt. set (m := bind _ _).
  assert (Hm : keeps_sync m); [|apply Hm].
  unfold m. apply keeps_sync_bind.
  - destruct (_ && _).
    + apply keeps_sync_bind; [apply keeps_sync_login | intros _].
      apply keeps_sync_here. reflexivity.
    + apply keeps_sync_here. reflexivity.
  - intros _. apply keeps_sync_bind; [apply keeps_sync_request | intros data].
    apply keeps_sync_here. reflexivity.
Qed.

Lemma keeps_sync_get_balance (b : bool) : keeps_sync (get_balance (E := E) b).
Proof.
  intros s Hs. unfold get_balance.
  pose proof (keeps_sync_first_attempt b s Hs) as H1.
  destruct (first_attempt b s) as [[info | exc] s1]; simpl in *; [exact H1|].
  destruct (_ && _); [apply keeps_sync_relogin, H1 | exact H1].
Qed.

Lemma in_sync_send (origins : list pyval) (text : string) (card : bool)
      (s : state E) :
  in_sync s -> in_sync (_send_to_origins origins text card s).
Proof.
  destruct (send_effect E origins text card s) as (evs & _ & _ & _ & _ & Hc).
  destruct Hc as (Ht & _ & _ & _ & Hconf). unfold in_sync. rewrite Ht, Hconf. auto.
Qed.

Lemma keeps_sync_check_body (origins : list pyval) (now : Q) :
  keeps_sync (check_body origins now).
Proof.
  intros s Hs. unfold check_body. cbv zeta.
  pose proof (keeps_sync_get_balance
                (truthy (_get_config "auto_refresh_token" (PBool true) (conf s)))
                s Hs) as H1.
  destruct (get_balance _ s) as [[info | e] s1]; simpl in H1; [|exact H1].
  destruct (to_float _ (balance info)) as [bal |]; [|exact H1].
  destruct (to_float _ (threshold_of _)) as [th |]; [|exact H1].
  set (s2 := if Qltb bal th then _ else s1).
  assert (H2 : in_sync s2).
  { unfold s2. destruct (Qltb bal th); [apply in_sync_send|]; exact H1. }
  destruct (negb _).
  - destruct (to_float _ _) as [last |]; [|exact H2].
    destruct (Qltb last bal); simpl.
    + apply in_sync_write2; try discriminate. apply in_sync_send, H2.
    + apply in_sync_write2; try discriminate. exact H2.
  - simpl. apply in_sync_write2; try discriminate. exact H2.
Qed.

Lemma in_sync_check_stage (now : Q) (s : state E) :
  in_sync s -> in_sync (snd (check_stage now s)).
Proof.
  intros Hs. unfold check_stage.
  destruct (truthy (_get_config "auto_check" _ _)); [|exact Hs].
  destruct (_normalize_list _ _) as [origins | e]; [|exact Hs].
  destruct (truthy (PList origins)); [|exact Hs].
  pose proof (keeps_sync_check_body origins now s Hs) as H1.
  destruct (check_body origins now s) as [[bal | exc] s1]; simpl in *;
    [exact H1 | apply in_sync_send, H1].
Qed.

Lemma in_sync_check_then_sleep (minutes : Z) (now : Q) (s : state E) :
  in_sync s -> in_sync (snd (check_then_sleep minutes now s)).
Proof.
  intros Hs. unfold check_then_sleep.
  pose proof (in_sync_check_stage now s Hs) as H1.
  destruct (check_stage now s) as [[secs | | bal | exc | e] s1]; exact H1.
Qed.

Lemma in_sync_iteration (s : state E) :
  in_sync s -> in_sync (snd (monitor_iteration s)).
Proof.
  intros Hs. unfold monitor_iteration.
  destruct (interval_minutes_of E (conf s)) as [minutes | e]; [|exact Hs].
  cbv zeta. destruct (negb _).
  - destruct (to_float _ _) as [last |]; [|exact Hs].
    destruct (Qle_bool _ _).
    + destruct (Qltb _ _); [exact Hs | apply in_sync_check_then_sleep, Hs].
    + apply in_sync_check_then_sleep, in_sync_write; [discriminate | exact Hs].
  - apply in_sync_check_then_sleep, Hs.
Qed.

(** X30: The client object of a plugin that starts from the saved
    configuration holds the saved token, and this stays so: whatever
    [get_balance], the two manual checks or an iteration of the loop do,
    the token of the client is afterwards the token in the configuration,
    in memory and on disk.  A token obtained by a new login is therefore
    the one a later start of the process uses. *)
Theorem token_stays_in_sync :
  (forall c w seen, in_sync (new_client E (reload c) w seen))
  /\ (forall auto_retry s,
        in_sync s -> in_sync (snd (get_balance auto_retry s)))
  /\ (forall s, in_sync s -> in_sync (snd (query_balance s)))
  /\ (forall s, in_sync s -> in_sync (snd (run_check_now s)))
  /\ (forall s, in_sync s -> in_sync (snd (monitor_iteration s)))
  /\ (forall (s s' : state E) tok w seen,
        login_and_get_token s = (Ok tok, s') ->
        token (new_client E (reload (conf s')) w seen) = PStr tok).
Proof.
  split.
  { intros c w seen. unfold in_sync, new_client, reload, _get_config, config_get,
      persisted. simpl.
    destruct (default PNone (disk c !! "electricity_token")); auto. }
  split; [intros b s; apply keeps_sync_get_balance|].
  split.
  { intros s Hs. unfold query_balance.
    pose proof (keeps_sync_get_balance
                  (truthy (_get_config "auto_refresh_token" (PBool true) (conf s)))
                  s Hs) as H1.
    destruct (get_balance _ s) as [[info | exc] s1]; exact H1. }
  split.
  { intros s Hs. unfold run_check_now.
    pose proof (keeps_sync_get_balance
                  (truthy (_get_config "auto_refresh_token" (PBool true) (conf s)))
                  s Hs) as H1.
    destruct (get_balance _ s) as [[info | exc] s1]; [|exact H1].
    destruct (to_float _ (balance info)); [|exact H1].
    destruct (to_float _ (threshold_of _)); [|exact H1].
    destruct (Qltb _ _); exact H1. }
  split; [apply in_sync_iteration|].
  intros s s' tok w seen H.
  unfold login_and_get_token in H.
  destruct (_ || _); [discriminate|].
  destruct (http_post E _ _) as [resp w'].
  destruct resp as [e | body cookie]; [discriminate|].
  destruct (get body "Tag" PNone) as [tag | e]; [|discriminate].
  destruct (negb (eq_int tag 1)).
  - destruct (get body "Message" _); discriminate.
  - destruct cookie as [tok' |]; [|discriminate].
    injection H as -> <-.
    unfold new_client, reload, _get_config, config_get. simpl.
    rewrite lookup_insert_eq. reflexivity.
Qed.

End Sync.

End TokenFacts.
